(** * A shallow embedding of the Firestore bindings of [@astronautlabs/datastore]

    The repository has two bindings of the [DataStore] interface to a
    Firestore client: the browser binding
    ([datastore.firestore-browser.ts]) and the server binding
    ([datastore.firestore-node]).  Both are embedded here, over one model
    of the Firestore client they call into.

    - JavaScript objects live in a heap and are passed by reference, since
      [create] writes the assigned id into the caller's object.
    - The Firestore client is an external collaborator: its documents are a
      finite map from path to document, its failures are decided by an
      oracle carried by the client handle, and every request issued to it is
      recorded in a trace.  A write is given a JavaScript object by
      reference.  Outside a transaction the fields written are those the
      object has when the write is requested; for a [set] staged on a
      transaction the client handle says whether it reads the object then
      (as the web client does) or when the transaction is committed (as the
      server client does).  Paths are taken as given; one client at a time
      talks to the store, so a transaction is never retried.
    - An async method is a computation that threads the world and either
      resolves with a value or rejects with an error.  The tasks of a
      [Promise.all] settle in the order they were started.
    - The console is a list of lines: a text, an error object or a payload,
      whichever of [console.log], [error], [info], [dir] or
      [groupCollapsed] wrote it.
    - A live feed is a state machine over the calls that reach it, with
      the behaviour of [Subject], [publish] and [refCount] of rxjs 6. *)

From Stdlib Require Import ZArith Ascii.
From stdpp Require Import base option list gmap strings fin_maps pretty.

Open Scope string_scope.
Open Scope list_scope.

(** ** Data model *)

(** Field values of a document.  Sentinels are opaque to this layer and are
    not modelled. *)
Inductive value :=
| VStr (s : string)
| VNum (n : Z)
| VBool (b : bool).

#[global] Instance value_eq_dec : EqDecision value.
Proof. solve_decision. Defined.

(** A document, and equally the fields of a JavaScript object ([Storable]
    is any object with an optional [id] field). *)
Abbreviation doc := (gmap string value).

(** A reference to a JavaScript object. *)
Abbreviation loc := nat.

(** What a promise rejects with: an error raised by the Firestore client
    (with its code, such as [permission-denied], and its message), or a
    plain [new Error(message)] made by this layer. *)
Inductive error :=
| FirestoreError (code message : string)
| JsError (message : string).

#[global] Instance error_eq_dec : EqDecision error.
Proof. solve_decision. Defined.

Definition error_message (e : error) : string :=
  match e with
  | FirestoreError _ m => m
  | JsError m => m
  end.

(** *** Paths and references *)

(** The text after the last [/] of a path: [DocumentReference.id]. *)
Fixpoint last_segment_from (acc s : string) : string :=
  match s with
  | EmptyString => acc
  | String c s' =>
      if Ascii.eqb c "/"%char then last_segment_from EmptyString s'
      else last_segment_from (acc +:+ String c EmptyString) s'
  end.

Definition last_segment (path : string) : string :=
  last_segment_from EmptyString path.

(** A [DocumentReference]: its path and its id. *)
Record doc_ref := { ref_path : string; ref_id : string }.

#[global] Instance doc_ref_eq_dec : EqDecision doc_ref.
Proof. solve_decision. Defined.

(** [firestore.doc(path)]: the id is the final segment of the path. *)
Definition DocRef (path : string) : doc_ref :=
  {| ref_path := path; ref_id := last_segment path |}.

(** [`${collectionPath}/${id}`] *)
Definition child_path (collectionPath id : string) : string :=
  collectionPath +:+ "/" +:+ id.

(** *** Collection parameters and queries *)

Inductive direction := Asc | Desc.

#[global] Instance direction_eq_dec : EqDecision direction.
Proof. solve_decision. Defined.

Record Order := { field : string; direction_of : direction }.

#[global] Instance Order_eq_dec : EqDecision Order.
Proof. solve_decision. Defined.

(** A JavaScript number, as far as this layer looks at one: it tests a
    limit for truthiness and hands it on.  [0], [-0] and [NaN] are the
    falsy numbers; every other number is truthy, and those are taken here
    to be integers. *)
Inductive number :=
| Num (n : Z)
| NegZero
| NaN.

#[global] Instance number_eq_dec : EqDecision number.
Proof. solve_decision. Defined.

Definition falsy (x : number) : bool :=
  match x with
  | Num n => Z.eqb n 0
  | NegZero | NaN => true
  end.

(** [CollectionParams]: every member is optional. *)
Record CollectionParams := {
  order : option Order;
  limit : option number;
  startAfter : option string;
}.

(** What [startAfter] is given: the browser binding passes the string
    itself, the server binding a document reference made from it. *)
Inductive cursor :=
| CursorValue (s : string)
| CursorRef (r : doc_ref).

#[global] Instance cursor_eq_dec : EqDecision cursor.
Proof. solve_decision. Defined.

(** A [firebase.firestore.Query]: a collection with the clauses layered on
    it, in the order they were applied. *)
Inductive clause :=
| OrderBy (f : string) (d : direction)
| Limit (n : number)
| StartAfter (c : cursor)
| Where (fieldName operator : string) (v : value).

#[global] Instance clause_eq_dec : EqDecision clause.
Proof. solve_decision. Defined.

Record fs_query := { q_collection : string; q_clauses : list clause }.

#[global] Instance fs_query_eq_dec : EqDecision fs_query.
Proof. solve_decision. Defined.

Definition collection (collectionPath : string) : fs_query :=
  {| q_collection := collectionPath; q_clauses := [] |}.

Definition with_clause (q : fs_query) (c : clause) : fs_query :=
  {| q_collection := q_collection q; q_clauses := q_clauses q ++ [c] |}.

(** A document snapshot: where the document was located and its data
    ([None] when there is no document). *)
Record snapshot := { snap_ref : doc_ref; snap_data : option doc }.

(** A document of a query result: it always has data. *)
Record query_doc := { qd_ref : doc_ref; qd_data : doc }.

(** [x.id] *)
Definition qd_id (x : query_doc) : string := ref_id (qd_ref x).

(** ** The Firestore client *)

(** A write staged on a backend transaction. *)
Inductive staged_write :=
| WSet (p : string) (d : doc)
| WUpdate (p : string) (d : doc)
| WDelete (p : string).

#[global] Instance staged_write_eq_dec : EqDecision staged_write.
Proof. solve_decision. Defined.

(** The requests this layer issues to the client. *)
Inductive backend_op :=
| BGet (p : string)
| BSet (p : string) (d : doc) (merge : bool)
| BAdd (collectionPath id : string) (d : doc)
| BDelete (p : string)
| BQueryGet (q : fs_query)
| BTxGet (p : string)
| BTxStage (w : staged_write)
| BTxCommit (ws : list staged_write).

#[global] Instance backend_op_eq_dec : EqDecision backend_op.
Proof. solve_decision. Defined.

(** When a client reads the fields of an object it is given to [set] on a
    transaction: as the write is requested, or as the transaction is
    committed. *)
Inductive timing := OnRequest | OnCommit.

(** The client handle ([this.firestore]): shared and read-only.
    - [auto_id n] is the n-th id the client generates for a new document;
    - [deny op] is the error the client answers [op] with, if it fails it;
    - [run_query q docs] is the result set of [q] over the documents;
    - [reads_payload] is when it reads the object of a staged [set]. *)
Record Firestore := {
  auto_id : nat -> string;
  deny : backend_op -> option error;
  run_query : fs_query -> gmap string doc -> list query_doc;
  reads_payload : timing;
}.

(** What a transaction keeps of a write staged on it: the write, with the
    fields its payload had when it was requested, and the object that was
    given as payload, where the caller holds it too. *)
Record pending := {
  pending_write : staged_write;
  pending_object : option loc;
}.

(** One line written to the console: text, an error object, or a payload. *)
Inductive console_entry :=
| Text (s : string)
| ErrorObject (e : error)
| DataObject (d : option doc).

#[global] Instance console_entry_eq_dec : EqDecision console_entry.
Proof. solve_decision. Defined.

(** The world an operation runs in. *)
Record world := {
  heap : gmap loc doc;          (* JavaScript objects, by reference *)
  docs : gmap string doc;       (* the stored documents, by path *)
  drawn : nat;                  (* ids generated so far *)
  staged : list pending;        (* writes staged on the open transaction *)
  trace : list backend_op;      (* requests issued, oldest first *)
  console : list console_entry; (* console output, oldest first *)
}.

Definition set_heap (h : gmap loc doc) (w : world) : world :=
  {| heap := h; docs := docs w; drawn := drawn w; staged := staged w;
     trace := trace w; console := console w |}.
Definition set_docs (d : gmap string doc) (w : world) : world :=
  {| heap := heap w; docs := d; drawn := drawn w; staged := staged w;
     trace := trace w; console := console w |}.
Definition set_drawn (n : nat) (w : world) : world :=
  {| heap := heap w; docs := docs w; drawn := n; staged := staged w;
     trace := trace w; console := console w |}.
Definition set_staged (s : list pending) (w : world) : world :=
  {| heap := heap w; docs := docs w; drawn := drawn w; staged := s;
     trace := trace w; console := console w |}.
Definition set_trace (t : list backend_op) (w : world) : world :=
  {| heap := heap w; docs := docs w; drawn := drawn w; staged := staged w;
     trace := t; console := console w |}.
Definition set_console (c : list console_entry) (w : world) : world :=
  {| heap := heap w; docs := docs w; drawn := drawn w; staged := staged w;
     trace := trace w; console := c |}.

(** ** Promises *)

Inductive outcome (A : Type) :=
| Resolved (a : A)
| Rejected (e : error).
Arguments Resolved {A} a.
Arguments Rejected {A} e.

(** An async computation. *)
Definition promise (A : Type) : Type := world -> outcome A * world.

Definition ret {A} (a : A) : promise A := fun w => (Resolved a, w).

Definition throw {A} (e : error) : promise A := fun w => (Rejected e, w).

Definition bind {A B} (m : promise A) (k : A -> promise B) : promise B :=
  fun w =>
    match m w with
    | (Resolved a, w') => k a w'
    | (Rejected e, w') => (Rejected e, w')
    end.

(** [try { m } catch (e) { handler e }] *)
Definition try_catch {A} (m : promise A) (handler : error -> promise A)
  : promise A :=
  fun w =>
    match m w with
    | (Resolved a, w') => (Resolved a, w')
    | (Rejected e, w') => handler e w'
    end.

Declare Scope promise_scope.
Delimit Scope promise_scope with promise.
Notation "'let!' x ':=' m 'in' k" := (bind m (fun x => k))
  (at level 10, x pattern, m at level 100, k at level 200) : promise_scope.
Notation "m ';;' k" := (bind m (fun _ => k))
  (at level 100, k at level 200, right associativity) : promise_scope.
Open Scope promise_scope.

Definition get_world : promise world := fun w => (Resolved w, w).
Definition modify (f : world -> world) : promise unit :=
  fun w => (Resolved tt, f w).

(** [Promise.all(tasks)]: every task is started and settles, whatever the
    others do; the result rejects with the first rejection, and resolves
    with all the values otherwise.  Tasks are taken to settle in the order
    they were started. *)
Fixpoint promise_all {A} (tasks : list (promise A)) : promise (list A) :=
  match tasks with
  | [] => ret []
  | t :: rest =>
      fun w =>
        match t w with
        | (Resolved a, w1) =>
            match promise_all rest w1 with
            | (Resolved l, w2) => (Resolved (a :: l), w2)
            | (Rejected e, w2) => (Rejected e, w2)
            end
        | (Rejected e, w1) => (Rejected e, snd (promise_all rest w1))
        end
  end.

Definition console_out (lines : list console_entry) : promise unit :=
  modify (fun w => set_console (console w ++ lines) w).

(** The fields of the object behind a reference, as they are now. *)
Definition deref (l : loc) : promise doc :=
  fun w => (Resolved (default ∅ (heap w !! l)), w).

(** [obj.id = id] *)
Definition assign_id (l : loc) (id : string) : promise unit :=
  modify (fun w =>
    set_heap (<[l := <["id" := VStr id]> (default ∅ (heap w !! l))]> (heap w)) w).

(** *** Requests to the client *)

(** Send [op]: it is recorded, and fails when the client denies it. *)
Definition issue (fs : Firestore) (op : backend_op) : promise unit :=
  fun w =>
    let w' := set_trace (trace w ++ [op]) w in
    match deny fs op with
    | Some e => (Rejected e, w')
    | None => (Resolved tt, w')
    end.

(** [docRef.get()] *)
Definition doc_get (fs : Firestore) (r : doc_ref) : promise snapshot :=
  issue fs (BGet (ref_path r));;
  let! w := get_world in
  ret {| snap_ref := r; snap_data := docs w !! ref_path r |}.

(** [docRef.set(data)] and [docRef.set(data, { merge: true })]: the fields
    given replace the document, or are laid over it when merging. *)
Definition write_doc (merge : bool) (d : doc) (old : option doc) : doc :=
  if merge then d ∪ default ∅ old else d.

Definition doc_set (fs : Firestore) (r : doc_ref) (d : doc) (merge : bool)
  : promise unit :=
  issue fs (BSet (ref_path r) d merge);;
  modify (fun w =>
    set_docs (<[ref_path r := write_doc merge d (docs w !! ref_path r)]> (docs w)) w).

(** [docRef.delete()] *)
Definition doc_delete (fs : Firestore) (r : doc_ref) : promise unit :=
  issue fs (BDelete (ref_path r));;
  modify (fun w => set_docs (delete (ref_path r) (docs w)) w).

(** [collection(path).doc()]: a reference with a fresh id; nothing is sent. *)
Definition new_doc_ref (fs : Firestore) (collectionPath : string)
  : promise doc_ref :=
  fun w =>
    let id := auto_id fs (drawn w) in
    (Resolved {| ref_path := child_path collectionPath id; ref_id := id |},
     set_drawn (S (drawn w)) w).

(** [colRef.add(data)] *)
Definition col_add (fs : Firestore) (collectionPath : string) (d : doc)
  : promise doc_ref :=
  let! r := new_doc_ref fs collectionPath in
  issue fs (BAdd collectionPath (ref_id r) d);;
  modify (fun w => set_docs (<[ref_path r := d]> (docs w)) w);;
  ret r.

(** [query.get()] *)
Definition query_get (fs : Firestore) (q : fs_query) : promise (list query_doc) :=
  issue fs (BQueryGet q);;
  let! w := get_world in
  ret (run_query fs q (docs w)).

(** [txn.get(docRef)] *)
Definition txn_get (fs : Firestore) (r : doc_ref) : promise snapshot :=
  issue fs (BTxGet (ref_path r));;
  let! w := get_world in
  ret {| snap_ref := r; snap_data := docs w !! ref_path r |}.

(** [txn.set], [txn.update], [txn.delete]: the write is staged, with the
    object it was given. *)
Definition txn_stage (fs : Firestore) (wr : staged_write) (object : option loc)
  : promise unit :=
  issue fs (BTxStage wr);;
  modify (fun w =>
    set_staged
      (staged w ++ [{| pending_write := wr; pending_object := object |}]) w).

(** The write a commit sends for a staged one.  A client that reads its
    payloads at the commit takes, for a [set], the fields the object has by
    then; the fields of an [update] are taken one by one as it is
    requested, by either client. *)
Definition committed_write (fs : Firestore) (h : gmap loc doc) (pw : pending)
  : staged_write :=
  match reads_payload fs, pending_write pw, pending_object pw with
  | OnCommit, WSet p _, Some l => WSet p (default ∅ (h !! l))
  | _, _, _ => pending_write pw
  end.

(** What a committed write does to the documents.  An update of a document
    that is not there fails the commit. *)
Definition apply_write (wr : staged_write) (ds : gmap string doc)
  : option (gmap string doc) :=
  match wr with
  | WSet p d => Some (<[p := d]> ds)
  | WUpdate p d =>
      match ds !! p with
      | Some old => Some (<[p := d ∪ old]> ds)
      | None => None
      end
  | WDelete p => Some (delete p ds)
  end.

Fixpoint apply_writes (ws : list staged_write) (ds : gmap string doc)
  : option (gmap string doc) :=
  match ws with
  | [] => Some ds
  | wr :: rest =>
      match apply_write wr ds with
      | Some ds' => apply_writes rest ds'
      | None => None
      end
  end.

Definition not_found : error :=
  FirestoreError "not-found" "No document to update".

(** [firestore.runTransaction(updateFunction)]: when the function rejects
    nothing is written; when it resolves the staged writes are committed
    together, or none of them is. *)
Definition runTransaction {A} (fs : Firestore) (updateFunction : promise A)
  : promise A :=
  fun w =>
    match updateFunction (set_staged [] w) with
    | (Rejected e, w1) => (Rejected e, set_staged [] w1)
    | (Resolved a, w1) =>
        let ws := map (committed_write fs (heap w1)) (staged w1) in
        let w2 := set_staged [] (set_trace (trace w1 ++ [BTxCommit ws]) w1) in
        match deny fs (BTxCommit ws) with
        | Some e => (Rejected e, w2)
        | None =>
            match apply_writes ws (docs w1) with
            | Some ds => (Resolved a, set_docs ds w2)
            | None => (Rejected not_found, w2)
            end
        end
    end.

(** ** The bindings *)

(** The two implementations of [FbDataStore]. *)
Inductive binding := Browser | Server.

Record FbDataStore := { flavour : binding; firestore : Firestore }.

Definition quoted (s : string) : string := "'" +:+ s +:+ "'".

(** [`${keys.length} keys: ${keys.join(', ')}`] *)
Definition keys_text (keys : list string) : string :=
  pretty (length keys) +:+ " keys: " +:+ String.concat ", " keys.

(** [printError], as each binding has it: the lines it writes. *)
Definition printError_lines (b : binding) (e : error) (operationName : string)
    (data : option doc) : list console_entry :=
  match b with
  | Browser =>
      [Text ("Error " +:+ quoted (error_message e) +:+ " during " +:+ operationName);
       Text "Details:";
       ErrorObject e]
      ++ match data with
         | Some d => [Text "Data:"; DataObject (Some d)]
         | None => []
         end
  | Server =>
      [Text ("* Caught error during " +:+ operationName +:+ ":");
       ErrorObject e;
       Text "* Debug information";
       Text "* Object view of error:";
       ErrorObject e;
       Text "* Data being set:";
       DataObject data;
       Text ""]
  end.

Definition printError (b : binding) (e : error) (operationName : string)
    (data : option doc) : promise unit :=
  console_out (printError_lines b e operationName data).

Definition handleError {A} (b : binding) (e : error) (operationName : string)
    (data : option doc) : promise A :=
  printError b e operationName data;;
  throw e.

(** *** [FbTransaction] *)

Record FbTransaction := { store : FbDataStore }.

(** An object in hand: one the caller holds, by reference, or one this
    layer has just been given by the client (the document a read resolved
    with), which nothing else refers to. *)
Inductive payload :=
| Held (l : loc)
| Fresh (d : doc).

Definition payload_fields (x : payload) : promise doc :=
  match x with
  | Held l => deref l
  | Fresh d => ret d
  end.

Definition payload_object (x : payload) : option loc :=
  match x with
  | Held l => Some l
  | Fresh _ => None
  end.

(** [txn.set(docRef, data)] is handed the caller's object, and [data.id]
    is assigned after it, before the transaction is committed. *)
Definition FbTransaction_create (this : FbTransaction) (collectionPath : string)
    (data : loc) : promise loc :=
  let fs := firestore (store this) in
  let! docRef := new_doc_ref fs collectionPath in
  try_catch
    (let! o := deref data in
     txn_stage fs (WSet (ref_path docRef) o) (Some data))
    (fun e =>
       let! o := deref data in
       match flavour (store this) with
       | Browser =>
           handleError Browser e
             ("datastoreTransaction.create(" +:+ quoted collectionPath +:+ ", ...)")
             (Some o)
       | Server =>
           console_out
             [Text ("Caught error during datastore transaction.create("
                    +:+ quoted collectionPath +:+ ", ...)");
              ErrorObject e;
              Text "Debug information";
              Text "Data being saved:";
              DataObject (Some o)];;
           throw e
       end);;
  assign_id data (ref_id docRef);;
  ret data.

Definition FbTransaction_read (this : FbTransaction) (docPath : string)
  : promise (option doc) :=
  let fs := firestore (store this) in
  match flavour (store this) with
  | Browser =>
      try_catch
        (let! snap := txn_get fs (DocRef docPath) in ret (snap_data snap))
        (fun e =>
           handleError Browser e
             ("datastoreTransaction.read(" +:+ quoted docPath +:+ ")") None)
  | Server =>
      let docRef := DocRef docPath in
      let! snapshot :=
        try_catch (txn_get fs docRef)
          (fun e =>
             console_out
               [Text ("Caught error during datastore transaction.read("
                      +:+ quoted docPath +:+ ")");
                ErrorObject e;
                Text "Debug Details";
                Text "Object view of error:";
                ErrorObject e];;
             throw e) in
      ret (snap_data snapshot)
  end.

Definition FbTransaction_update (this : FbTransaction) (docPath : string)
    (data : loc) : promise unit :=
  let fs := firestore (store this) in
  try_catch
    (let! o := deref data in txn_stage fs (WUpdate docPath o) (Some data))
    (fun e =>
       let! o := deref data in
       match flavour (store this) with
       | Browser =>
           handleError Browser e
             ("datastoreTransaction.update(" +:+ quoted docPath +:+ ", ...)")
             (Some o)
       | Server =>
           console_out
             [Text ("Caught error during datastore transaction.update("
                    +:+ quoted docPath +:+ ", ...)");
              ErrorObject e;
              Text "Debug information";
              Text "Object view of error:";
              ErrorObject e;
              Text "Data being updated:";
              DataObject (Some o)];;
           throw e
       end).

(** [mirrorInTransaction] passes [set] either the caller's object or the
    document it has just read. *)
Definition FbTransaction_set (this : FbTransaction) (docPath : string)
    (data : payload) : promise unit :=
  let fs := firestore (store this) in
  try_catch
    (let! o := payload_fields data in
     txn_stage fs (WSet docPath o) (payload_object data))
    (fun e =>
       let! o := payload_fields data in
       match flavour (store this) with
       | Browser =>
           handleError Browser e
             ("datastoreTransaction.set(" +:+ quoted docPath +:+ ", ...)")
             (Some o)
       | Server =>
           console_out
             [Text ("Caught error during datastore transaction.set("
                    +:+ quoted docPath +:+ ", ...)");
              ErrorObject e;
              Text "Debug information";
              Text "Object view of error:";
              ErrorObject e;
              Text "Data being set:";
              DataObject (Some o)];;
           throw e
       end).

Definition FbTransaction_delete (this : FbTransaction) (docPath : string)
  : promise unit :=
  let fs := firestore (store this) in
  match flavour (store this) with
  | Browser =>
      try_catch
        (txn_stage fs (WDelete docPath) None)
        (fun e =>
           handleError Browser e
             ("datastoreTransaction.delete(" +:+ quoted docPath +:+ ", ...)") None)
  | Server => txn_stage fs (WDelete docPath) None
  end.

Definition FbTransaction_readAll (this : FbTransaction) (docPaths : list string)
  : promise (list (option doc)) :=
  let fs := firestore (store this) in
  let docRefs := map DocRef docPaths in
  let! snapshots := promise_all (map (fun x => txn_get fs x) docRefs) in
  ret (map snap_data snapshots).

(** *** [FbQuery] *)

Record FbQuery := { _query : fs_query }.

Definition FbQuery_where (this : FbQuery) (fieldName operator : string)
    (v : value) : FbQuery :=
  {| _query := with_clause (_query this) (Where fieldName operator v) |}.

Definition FbQuery_get (fs : Firestore) (this : FbQuery) : promise (list doc) :=
  let! snapshot := query_get fs (_query this) in
  ret (map qd_data snapshot).

(** *** [FbDataStore] *)

Definition FbDataStore_set (this : FbDataStore) (docPath : string) (data : loc)
  : promise unit :=
  try_catch
    (let! o := deref data in doc_set (firestore this) (DocRef docPath) o false)
    (fun e =>
       let! o := deref data in
       handleError (flavour this) e
         ("datastore.set(" +:+ quoted docPath +:+ ", ...)") (Some o)).

Definition FbDataStore_create (this : FbDataStore) (collectionPath : string)
    (data : loc) : promise loc :=
  let colRef := collectionPath in
  let! docRef :=
    try_catch
      (let! o := deref data in col_add (firestore this) colRef o)
      (fun e =>
         let! o := deref data in
         handleError (flavour this) e
           ("datastore.create(" +:+ quoted collectionPath +:+ ", ...)") (Some o)) in
  assign_id data (ref_id docRef);;
  ret data.

Definition FbDataStore_transact {A} (this : FbDataStore)
    (handler : FbTransaction -> promise A) : promise A :=
  runTransaction (firestore this) (handler {| store := this |}).

Definition FbDataStore_read (this : FbDataStore) (docPath : string)
  : promise (option doc) :=
  let docRef := DocRef docPath in
  let! snap :=
    try_catch (doc_get (firestore this) docRef)
      (fun e =>
         handleError (flavour this) e
           (match flavour this with
            | Browser => "datastore.read(" +:+ quoted docPath +:+ ")"
            | Server => "datastore.read(" +:+ quoted docPath +:+ ", ...)"
            end) None) in
  match snap_data snap with
  | Some t => ret (Some (<["id" := VStr (ref_id docRef)]> t))
  | None => ret None
  end.

Definition FbDataStore_query (this : FbDataStore) (collectionPath : string)
  : FbQuery :=
  {| _query := collection collectionPath |}.

(** [params?.order], [params?.limit], [params?.startAfter] *)
Definition params_order (params : option CollectionParams) : option Order :=
  params ≫= order.
Definition params_limit (params : option CollectionParams) : option number :=
  params ≫= limit.
Definition params_startAfter (params : option CollectionParams) : option string :=
  params ≫= startAfter.

(** The clause [if (params?.order) collection = collection.orderBy(...)]. *)
Definition apply_order (params : option CollectionParams) (q : fs_query)
  : fs_query :=
  match params_order params with
  | Some o => with_clause q (OrderBy (field o) (direction_of o))
  | None => q
  end.

(** [if (params?.limit)]: a falsy limit is not applied. *)
Definition apply_limit_truthy (params : option CollectionParams) (q : fs_query)
  : fs_query :=
  match params_limit params with
  | Some n => if falsy n then q else with_clause q (Limit n)
  | None => q
  end.

(** [if (params?.limit !== undefined && params?.limit !== null)]: every
    number is applied, the falsy ones too. *)
Definition apply_limit_defined (params : option CollectionParams) (q : fs_query)
  : fs_query :=
  match params_limit params with
  | Some n => with_clause q (Limit n)
  | None => q
  end.

(** [if (params?.startAfter)]: the empty string is falsy. *)
Definition apply_startAfter (mk : string -> cursor)
    (params : option CollectionParams) (q : fs_query) : fs_query :=
  match params_startAfter params with
  | Some s => if String.eqb s "" then q else with_clause q (StartAfter (mk s))
  | None => q
  end.

(** The query [listAll] builds, in each binding. *)
Definition listAll_query (b : binding) (collectionPath : string)
    (params : option CollectionParams) : fs_query :=
  match b with
  | Browser =>
      apply_startAfter CursorValue params
        (apply_limit_truthy params
           (apply_order params (collection collectionPath)))
  | Server =>
      apply_startAfter (fun s => CursorRef (DocRef s)) params
        (apply_limit_defined params
           (apply_order params (collection collectionPath)))
  end.

(** The query [watchAll] and [watchForChanges] build, in both bindings. *)
Definition watch_query (collectionPath : string)
    (params : option CollectionParams) : fs_query :=
  apply_startAfter CursorValue params
    (apply_limit_truthy params
       (apply_order params (collection collectionPath))).

Definition FbDataStore_listAll (this : FbDataStore) (collectionPath : string)
    (params : option CollectionParams) : promise (list doc) :=
  let collection := listAll_query (flavour this) collectionPath params in
  let! snap :=
    try_catch (query_get (firestore this) collection)
      (fun e =>
         handleError (flavour this) e
           (match flavour this with
            | Browser => "datastore.listAll(" +:+ quoted collectionPath +:+ ")"
            | Server => "datastore.listAll(" +:+ quoted collectionPath +:+ ", ...)"
            end) None) in
  ret (map (fun x => <["id" := VStr (qd_id x)]> (qd_data x)) snap).

Definition FbDataStore_update (this : FbDataStore) (docPath : string)
    (data : loc) : promise unit :=
  let docRef := DocRef docPath in
  try_catch
    (let! o := deref data in doc_set (firestore this) docRef o true)
    (fun e =>
       handleError (flavour this) e
         (match flavour this with
          | Browser => "datastore.update(" +:+ quoted docPath +:+ ")"
          | Server => "datastore.update(" +:+ quoted docPath +:+ ", ...)"
          end) None).

Definition FbDataStore_delete (this : FbDataStore) (docPath : string)
  : promise unit :=
  let docRef := DocRef docPath in
  try_catch
    (doc_delete (firestore this) docRef)
    (fun e =>
       handleError (flavour this) e
         ("datastore.delete(" +:+ quoted docPath +:+ ")") None).

(** The console output of the catch blocks of the composite operations. *)
Definition fetch_failed (primaryKey : string) (mirrorKeys : list string)
    (e : error) : list console_entry :=
  [Text ("Caught error while fetching content for mirroring from "
         +:+ quoted primaryKey +:+ " (would have mirrored to "
         +:+ keys_text mirrorKeys +:+ ")");
   ErrorObject e;
   Text "Debug Details";
   Text "Object view of error:";
   ErrorObject e].

Definition mirror_failed (primaryKey : string) (mirrorKeys : list string)
    (e : error) (data : doc) : list console_entry :=
  [Text ("Caught error while mirroring content from " +:+ quoted primaryKey
         +:+ " to " +:+ keys_text mirrorKeys);
   ErrorObject e;
   Text "Debug Details";
   Text "Object view of error:";
   ErrorObject e;
   Text "The data being mirrored:";
   DataObject (Some data)].

Definition create_failed (collectionPath : string) (mirrorKeys : list string)
    (e : error) (data : doc) : list console_entry :=
  [Text ("Caught error while creating entry in " +:+ quoted collectionPath
         +:+ " (and mirroring to " +:+ keys_text mirrorKeys +:+ ")");
   ErrorObject e;
   Text "Debug Details";
   Text "Object view of error:";
   ErrorObject e;
   Text "The data being written:";
   DataObject (Some data)].

Definition multiUpdate_failed (docPaths : list string) (e : error) (data : doc)
  : list console_entry :=
  [Text ("Caught error during multi-update to " +:+ keys_text docPaths +:+ ")");
   ErrorObject e;
   Text "Debug Details";
   Text "Object view of error:";
   ErrorObject e;
   Text "The data being written:";
   DataObject (Some data)].

(** [new Error(`No such object ${primaryKey}`)] *)
Definition no_such_object (primaryKey : string) : error :=
  JsError ("No such object " +:+ primaryKey).

(** [data] is optional: the caller's object, or nothing. *)
Definition FbDataStore_mirrorInTransaction (this : FbDataStore)
    (txn : FbTransaction) (primaryKey : string) (mirrorKeys : list string)
    (data : option loc) : promise unit :=
  let! data :=
    try_catch
      (match data with
       | Some l => ret (Some (Held l))
       | None =>
           let! d := FbTransaction_read txn primaryKey in ret (Fresh <$> d)
       end)
      (fun e => console_out (fetch_failed primaryKey mirrorKeys e);; throw e) in
  match data with
  | None => throw (no_such_object primaryKey)
  | Some data =>
      try_catch
        (promise_all (map (fun key => FbTransaction_set txn key data) mirrorKeys);;
         ret tt)
        (fun e =>
           let! o := payload_fields data in
           console_out (mirror_failed primaryKey mirrorKeys e o);; throw e)
  end.

Definition FbDataStore_mirror (this : FbDataStore) (primaryKey : string)
    (mirrorKeys : list string) (data : option loc) : promise unit :=
  let primaryRef := DocRef primaryKey in
  let mirrorRefs := map DocRef mirrorKeys in
  let! data :=
    try_catch
      (match data with
       | Some l => let! o := deref l in ret (Some o)
       | None =>
           let! snap := doc_get (firestore this) primaryRef in
           ret (snap_data snap)
       end)
      (fun e => console_out (fetch_failed primaryKey mirrorKeys e);; throw e) in
  match data with
  | None => throw (no_such_object primaryKey)
  | Some data =>
      try_catch
        (promise_all
           (map (fun ref => doc_set (firestore this) ref data false) mirrorRefs);;
         ret tt)
        (fun e =>
           console_out (mirror_failed primaryKey mirrorKeys e data);; throw e)
  end.

(** [`${v}`] for a field that may be missing. *)
Definition field_text (v : option value) : string :=
  match v with
  | Some (VStr s) => s
  | Some (VNum n) => pretty n
  | Some (VBool true) => "true"
  | Some (VBool false) => "false"
  | None => "undefined"
  end.

(** [record.id], read from the object as it is now. *)
Definition record_id (record : loc) : promise string :=
  let! o := deref record in ret (field_text (o !! "id")).

(** What [String.prototype.replace] puts in place of one match, given a
    replacement text: in it [$$] stands for a dollar, [$&] for the text
    matched, [$`] for what precedes the match in the string searched and
    [$'] for what follows it.  The expression [/:id/g] has no groups, so
    that every other [$] stands for itself. *)
Fixpoint expand_replacement (replacement matched before after : string)
  : string :=
  match replacement with
  | EmptyString => EmptyString
  | String c rest =>
      if Ascii.eqb c "$" then
        match rest with
        | String d rest' =>
            if Ascii.eqb d "$" then
              String "$" (expand_replacement rest' matched before after)
            else if Ascii.eqb d "&" then
              matched +:+ expand_replacement rest' matched before after
            else if Ascii.eqb d "`" then
              before +:+ expand_replacement rest' matched before after
            else if Ascii.eqb d "'" then
              after +:+ expand_replacement rest' matched before after
            else String c (expand_replacement rest matched before after)
        | EmptyString => String c EmptyString
        end
      else String c (expand_replacement rest matched before after)
  end.

(** A string without its first [n] characters. *)
Fixpoint string_drop (n : nat) (s : string) : string :=
  match n, s with
  | S k, String _ rest => string_drop k rest
  | _, _ => s
  end.

(** [key.replace(/:id/g, id)]: every occurrence of [:id], left to right,
    gives way to the expansion of [id].  [before] is the part of the key
    already gone through; [skip] counts the characters of a match still to
    be dropped. *)
Fixpoint replace_id_from (skip : nat) (before key id : string) : string :=
  match key with
  | EmptyString => EmptyString
  | String c rest =>
      match skip with
      | S k => replace_id_from k (before +:+ String c EmptyString) rest id
      | O =>
          if String.prefix ":id" key
          then expand_replacement id ":id" before (string_drop 2 rest)
               +:+ replace_id_from 2 (before +:+ String c EmptyString) rest id
          else String c
                 (replace_id_from 0 (before +:+ String c EmptyString) rest id)
      end
  end.

Definition replace_id (key id : string) : string :=
  replace_id_from 0 EmptyString key id.

(** The transaction [createAndMirror] awaits first. *)
Definition createAndMirror_transaction (this : FbDataStore)
    (collectionPath : string) (data : loc) (mirrorKeys : list string)
  : promise loc :=
  FbDataStore_transact this (fun txn =>
    let! record :=
      try_catch (FbTransaction_create txn collectionPath data)
        (fun e =>
           let! o := deref data in
           console_out (create_failed collectionPath mirrorKeys e o);;
           throw e) in
    let! id := record_id record in
    FbDataStore_mirrorInTransaction this txn
      (child_path collectionPath id)
      (map (fun key => replace_id key id) mirrorKeys)
      (Some record);;
    ret record).

(** [createAndMirror]: the transaction, and then the statements that
    follow it.  In the last call, [record] is inside the parentheses of
    [map], so [mirror] is given no data. *)
Definition FbDataStore_createAndMirror (this : FbDataStore)
    (collectionPath : string) (data : loc) (mirrorKeys : list string)
  : promise loc :=
  let! record :=
    createAndMirror_transaction this collectionPath data mirrorKeys in
  let! record :=
    try_catch (FbDataStore_create this collectionPath data)
      (fun e =>
         let! o := deref data in
         console_out (create_failed collectionPath mirrorKeys e o);;
         throw e) in
  let! id := record_id record in
  FbDataStore_mirror this
    (child_path collectionPath id)
    (map (fun key => replace_id key id) mirrorKeys)
    None;;
  ret record.

Definition FbDataStore_multiUpdate (this : FbDataStore)
    (docPaths : list string) (data : loc) : promise unit :=
  try_catch
    (promise_all (map (fun path => FbDataStore_update this path data) docPaths);;
     ret tt)
    (fun e =>
       let! o := deref data in
       console_out (multiUpdate_failed docPaths e o);;
       throw e).

(** A call of [create]: on the facade, or on a transaction handle. *)
Inductive create_call :=
| OnStore (this : FbDataStore)
| OnTransaction (txn : FbTransaction).

Definition call_create (via : create_call) (collectionPath : string)
    (data : loc) : promise loc :=
  match via with
  | OnStore this => FbDataStore_create this collectionPath data
  | OnTransaction txn => FbTransaction_create txn collectionPath data
  end.

Definition client_of (via : create_call) : Firestore :=
  match via with
  | OnStore this => firestore this
  | OnTransaction txn => firestore (store txn)
  end.



(** [createDataStore], of each binding, over a client. *)
Definition createDataStore (b : binding) (fs : Firestore) : FbDataStore :=
  {| flavour := b; firestore := fs |}.

(** ** The interface, call by call *)

(** What a call resolves with. *)
Inductive answer :=
| Nothing
| Object (l : loc)
| Document (d : option doc)
| Documents (ds : list doc)
| DocumentsOrNot (ds : list (option doc)).

(** A call on a transaction handle, made by the handler given to
    [transact]. *)
Inductive txn_call :=
| TxCreate (collectionPath : string) (data : loc)
| TxRead (docPath : string)
| TxUpdate (docPath : string) (data : loc)
| TxSet (docPath : string) (data : loc)
| TxDelete (docPath : string)
| TxReadAll (docPaths : list string)
| TxMirror (primaryKey : string) (mirrorKeys : list string) (data : option loc).

Definition perform_txn (this : FbDataStore) (txn : FbTransaction)
    (c : txn_call) : promise answer :=
  match c with
  | TxCreate collectionPath data =>
      let! r := FbTransaction_create txn collectionPath data in ret (Object r)
  | TxRead docPath =>
      let! d := FbTransaction_read txn docPath in ret (Document d)
  | TxUpdate docPath data => FbTransaction_update txn docPath data;; ret Nothing
  | TxSet docPath data =>
      FbTransaction_set txn docPath (Held data);; ret Nothing
  | TxDelete docPath => FbTransaction_delete txn docPath;; ret Nothing
  | TxReadAll docPaths =>
      let! ds := FbTransaction_readAll txn docPaths in ret (DocumentsOrNot ds)
  | TxMirror primaryKey mirrorKeys data =>
      FbDataStore_mirrorInTransaction this txn primaryKey mirrorKeys data;;
      ret Nothing
  end.

(** A handler that makes the given calls in turn and returns their
    answers. *)
Fixpoint handler_of (this : FbDataStore) (calls : list txn_call)
    (txn : FbTransaction) : promise (list answer) :=
  match calls with
  | [] => ret []
  | c :: rest =>
      let! a := perform_txn this txn c in
      let! others := handler_of this rest txn in
      ret (a :: others)
  end.

(** A call of the [DataStore] interface. *)
Inductive call :=
| CallSet (docPath : string) (data : loc)
| CallCreate (collectionPath : string) (data : loc)
| CallTransact (calls : list txn_call)
| CallRead (docPath : string)
| CallQueryGet (collectionPath : string) (filters : list (string * string * value))
| CallListAll (collectionPath : string) (params : option CollectionParams)
| CallUpdate (docPath : string) (data : loc)
| CallDelete (docPath : string)
| CallMirror (primaryKey : string) (mirrorKeys : list string) (data : option loc)
| CallCreateAndMirror (collectionPath : string) (data : loc)
    (mirrorKeys : list string)
| CallMultiUpdate (docPaths : list string) (data : loc).

Definition perform (this : FbDataStore) (c : call)
  : promise (answer + list answer) :=
  match c with
  | CallSet docPath data =>
      FbDataStore_set this docPath data;; ret (inl Nothing)
  | CallCreate collectionPath data =>
      let! r := FbDataStore_create this collectionPath data in
      ret (inl (Object r))
  | CallTransact calls =>
      let! answers := FbDataStore_transact this (handler_of this calls) in
      ret (inr answers)
  | CallRead docPath =>
      let! d := FbDataStore_read this docPath in ret (inl (Document d))
  | CallQueryGet collectionPath filters =>
      let! ds :=
        FbQuery_get (firestore this)
          (foldl (fun q '(f, op, v) => FbQuery_where q f op v)
             (FbDataStore_query this collectionPath) filters) in
      ret (inl (Documents ds))
  | CallListAll collectionPath params =>
      let! ds := FbDataStore_listAll this collectionPath params in
      ret (inl (Documents ds))
  | CallUpdate docPath data =>
      FbDataStore_update this docPath data;; ret (inl Nothing)
  | CallDelete docPath =>
      FbDataStore_delete this docPath;; ret (inl Nothing)
  | CallMirror primaryKey mirrorKeys data =>
      FbDataStore_mirror this primaryKey mirrorKeys data;; ret (inl Nothing)
  | CallCreateAndMirror collectionPath data mirrorKeys =>
      let! r := FbDataStore_createAndMirror this collectionPath data mirrorKeys in
      ret (inl (Object r))
  | CallMultiUpdate docPaths data =>
      FbDataStore_multiUpdate this docPaths data;; ret (inl Nothing)
  end.

(** Two worlds that differ at most in what is on the console. *)
Definition agree (w1 w2 : world) : Prop :=
  heap w1 = heap w2 /\ docs w1 = docs w2 /\ drawn w1 = drawn w2 /\
  staged w1 = staged w2 /\ trace w1 = trace w2.

(** Two computations that settle alike and send the same requests. *)
Definition alike {A} (m1 m2 : promise A) : Prop :=
  forall w1 w2, agree w1 w2 ->
    fst (m1 w1) = fst (m2 w2) /\ agree (snd (m1 w1)) (snd (m2 w2)).

(** The parameters of [listAll] on which the bindings build one query: no
    limit or a truthy one, and no cursor to start after. *)
Definition same_listAll_query (params : option CollectionParams) : Prop :=
  (forall n, params_limit params = Some n -> falsy n = false) /\
  (params_startAfter params = None \/ params_startAfter params = Some "").

Definition bindings_comparable (c : call) : Prop :=
  match c with
  | CallListAll _ params => same_listAll_query params
  | _ => True
  end.

(** ** The catch blocks *)

(** A text that contains another. *)
Definition mentions (text part : string) : Prop :=
  exists before after, text = before +:+ part +:+ after.

(** The fields of the object behind a reference, and of an object in
    hand. *)
Definition object_at (w : world) (l : loc) : doc := default ∅ (heap w !! l).

Definition fields_at (w : world) (x : payload) : doc :=
  match x with
  | Held l => object_at w l
  | Fresh d => d
  end.

(** What a mirroring writes: the object given, or else the document the
    read of the primary is answered with. *)
Definition mirror_source (fs : Firestore) (read : backend_op)
    (primaryKey : string) (data : option loc) (w : world) : option doc :=
  match data with
  | Some l => Some (object_at w l)
  | None =>
      match deny fs read with
      | None => docs w !! primaryKey
      | Some _ => None
      end
  end.

(** The catch blocks of the two classes, each with the call it is in and
    the arguments of that call.  For the blocks around a fan-out, the keys
    are split at the first one the client refuses. *)
Inductive catch_block :=
| InSet (docPath : string) (data : loc)
| InCreate (collectionPath : string) (data : loc)
| InRead (docPath : string)
| InListAll (collectionPath : string) (params : option CollectionParams)
| InUpdate (docPath : string) (data : loc)
| InDelete (docPath : string)
| InTxCreate (collectionPath : string) (data : loc)
| InTxRead (docPath : string)
| InTxUpdate (docPath : string) (data : loc)
| InTxSet (docPath : string) (data : loc)
| InTxDelete (docPath : string)
| InMirrorFetch (primaryKey : string) (mirrorKeys : list string)
| InMirrorWrite (primaryKey : string) (before : list string) (key : string)
    (after : list string) (data : option loc)
| InTxMirrorFetch (primaryKey : string) (mirrorKeys : list string)
| InTxMirrorWrite (primaryKey : string) (before : list string) (key : string)
    (after : list string) (data : option loc)
| InCreateAndMirrorFirst (collectionPath : string) (data : loc)
    (mirrorKeys : list string)
| InCreateAndMirrorSecond (collectionPath : string) (data : loc)
    (mirrorKeys : list string)
| InMultiUpdate (before : list string) (docPath : string)
    (after : list string) (data : loc).

(** The call a block is in, its value dropped. *)
Definition block_call (this : FbDataStore) (blk : catch_block) : promise unit :=
  let txn := {| store := this |} in
  match blk with
  | InSet docPath data => FbDataStore_set this docPath data
  | InCreate collectionPath data =>
      FbDataStore_create this collectionPath data;; ret tt
  | InRead docPath => FbDataStore_read this docPath;; ret tt
  | InListAll collectionPath params =>
      FbDataStore_listAll this collectionPath params;; ret tt
  | InUpdate docPath data => FbDataStore_update this docPath data
  | InDelete docPath => FbDataStore_delete this docPath
  | InTxCreate collectionPath data =>
      FbTransaction_create txn collectionPath data;; ret tt
  | InTxRead docPath => FbTransaction_read txn docPath;; ret tt
  | InTxUpdate docPath data => FbTransaction_update txn docPath data
  | InTxSet docPath data => FbTransaction_set txn docPath (Held data)
  | InTxDelete docPath => FbTransaction_delete txn docPath
  | InMirrorFetch primaryKey mirrorKeys =>
      FbDataStore_mirror this primaryKey mirrorKeys None
  | InMirrorWrite primaryKey before key after data =>
      FbDataStore_mirror this primaryKey (before ++ key :: after) data
  | InTxMirrorFetch primaryKey mirrorKeys =>
      FbDataStore_mirrorInTransaction this txn primaryKey mirrorKeys None
  | InTxMirrorWrite primaryKey before key after data =>
      FbDataStore_mirrorInTransaction this txn primaryKey
        (before ++ key :: after) data
  | InCreateAndMirrorFirst collectionPath data mirrorKeys
  | InCreateAndMirrorSecond collectionPath data mirrorKeys =>
      FbDataStore_createAndMirror this collectionPath data mirrorKeys;; ret tt
  | InMultiUpdate before docPath after data =>
      FbDataStore_multiUpdate this (before ++ docPath :: after) data
  end.

(** The client raises [e] in the try block: it answers with [e] the
    request the block guards (the first it refuses, for a fan-out). *)
Definition block_raises (this : FbDataStore) (blk : catch_block) (w : world)
    (e : error) : Prop :=
  let fs := firestore this in
  match blk with
  | InSet docPath data =>
      deny fs (BSet docPath (object_at w data) false) = Some e
  | InCreate collectionPath data =>
      deny fs (BAdd collectionPath (auto_id fs (drawn w)) (object_at w data))
      = Some e
  | InRead docPath => deny fs (BGet docPath) = Some e
  | InListAll collectionPath params =>
      deny fs (BQueryGet (listAll_query (flavour this) collectionPath params))
      = Some e
  | InUpdate docPath data =>
      deny fs (BSet docPath (object_at w data) true) = Some e
  | InDelete docPath => deny fs (BDelete docPath) = Some e
  | InTxCreate collectionPath data
  | InCreateAndMirrorFirst collectionPath data _ =>
      deny fs
        (BTxStage
           (WSet (child_path collectionPath (auto_id fs (drawn w)))
              (object_at w data)))
      = Some e
  | InTxRead docPath => deny fs (BTxGet docPath) = Some e
  | InTxUpdate docPath data =>
      deny fs (BTxStage (WUpdate docPath (object_at w data))) = Some e
  | InTxSet docPath data =>
      deny fs (BTxStage (WSet docPath (object_at w data))) = Some e
  | InTxDelete docPath =>
      flavour this = Browser /\ deny fs (BTxStage (WDelete docPath)) = Some e
  | InMirrorFetch primaryKey _ => deny fs (BGet primaryKey) = Some e
  | InMirrorWrite primaryKey before key _ data =>
      exists d,
        mirror_source fs (BGet primaryKey) primaryKey data w = Some d /\
        (forall q, q ∈ before -> deny fs (BSet q d false) = None) /\
        deny fs (BSet key d false) = Some e
  | InTxMirrorFetch primaryKey _ => deny fs (BTxGet primaryKey) = Some e
  | InTxMirrorWrite primaryKey before key _ data =>
      exists d,
        mirror_source fs (BTxGet primaryKey) primaryKey data w = Some d /\
        (forall q, q ∈ before -> deny fs (BTxStage (WSet q d)) = None) /\
        deny fs (BTxStage (WSet key d)) = Some e
  | InCreateAndMirrorSecond collectionPath data mirrorKeys =>
      let after_txn :=
        createAndMirror_transaction this collectionPath data mirrorKeys w in
      (exists r, fst after_txn = Resolved r) /\
      deny fs
        (BAdd collectionPath (auto_id fs (drawn (snd after_txn)))
           (object_at (snd after_txn) data))
      = Some e
  | InMultiUpdate before docPath _ data =>
      (forall q, q ∈ before -> deny fs (BSet q (object_at w data) true) = None) /\
      deny fs (BSet docPath (object_at w data) true) = Some e
  end.

(** How the block names the operation in what it prints. *)
Definition block_label (b : binding) (blk : catch_block) : string :=
  match blk with
  | InSet _ _ => "datastore.set("
  | InCreate _ _ => "datastore.create("
  | InRead _ => "datastore.read("
  | InListAll _ _ => "datastore.listAll("
  | InUpdate _ _ => "datastore.update("
  | InDelete _ => "datastore.delete("
  | InTxCreate _ _ =>
      match b with
      | Browser => "datastoreTransaction.create("
      | Server => "datastore transaction.create("
      end
  | InTxRead _ =>
      match b with
      | Browser => "datastoreTransaction.read("
      | Server => "datastore transaction.read("
      end
  | InTxUpdate _ _ =>
      match b with
      | Browser => "datastoreTransaction.update("
      | Server => "datastore transaction.update("
      end
  | InTxSet _ _ =>
      match b with
      | Browser => "datastoreTransaction.set("
      | Server => "datastore transaction.set("
      end
  | InTxDelete _ => "datastoreTransaction.delete("
  | InMirrorFetch _ _ | InTxMirrorFetch _ _ =>
      "fetching content for mirroring"
  | InMirrorWrite _ _ _ _ _ | InTxMirrorWrite _ _ _ _ _ => "mirroring content"
  | InCreateAndMirrorFirst _ _ _ | InCreateAndMirrorSecond _ _ _ =>
      "creating entry"
  | InMultiUpdate _ _ _ _ => "multi-update"
  end.

(** The path it names. *)
Definition block_path (blk : catch_block) : string :=
  match blk with
  | InSet p _ | InCreate p _ | InRead p | InListAll p _ | InUpdate p _
  | InDelete p | InTxCreate p _ | InTxRead p | InTxUpdate p _ | InTxSet p _
  | InTxDelete p | InMirrorFetch p _ | InMirrorWrite p _ _ _ _
  | InTxMirrorFetch p _ | InTxMirrorWrite p _ _ _ _
  | InCreateAndMirrorFirst p _ _ | InCreateAndMirrorSecond p _ _
  | InMultiUpdate _ p _ _ => p
  end.

(** The payload of the call the block is in: the data the call was given
    to write, or the data it has read to write, for the calls that write
    data; none for the reads, the deletes and the fetch of a mirroring. *)
Definition block_payload (this : FbDataStore) (blk : catch_block) (w : world)
  : option doc :=
  match blk with
  | InSet _ data | InCreate _ data | InUpdate _ data | InTxCreate _ data
  | InTxUpdate _ data | InTxSet _ data | InCreateAndMirrorFirst _ data _
  | InMultiUpdate _ _ _ data =>
      Some (object_at w data)
  | InMirrorWrite primaryKey _ _ _ data =>
      mirror_source (firestore this) (BGet primaryKey) primaryKey data w
  | InTxMirrorWrite primaryKey _ _ _ data =>
      mirror_source (firestore this) (BTxGet primaryKey) primaryKey data w
  | InCreateAndMirrorSecond collectionPath data mirrorKeys =>
      Some (object_at
              (snd (createAndMirror_transaction this collectionPath data
                      mirrorKeys w)) data)
  | InRead _ | InListAll _ _ | InDelete _ | InTxRead _
  | InTxDelete _ | InMirrorFetch _ _ | InTxMirrorFetch _ _ => None
  end.

(** A computation that leaves the stored documents as they are. *)
Definition keeps_docs {A} (m : promise A) : Prop :=
  forall w, docs (snd (m w)) = docs w.

(** A computation that only ever adds to the console. *)
Definition grows {A} (m : promise A) : Prop :=
  forall w, exists lines, console (snd (m w)) = console w ++ lines.

(** ** A small client to run the operations on *)

Definition no_docs : gmap string doc := ∅.

Definition new_world (h : gmap loc doc) (ds : gmap string doc) : world :=
  {| heap := h; docs := ds; drawn := 0; staged := []; trace := [];
     console := [] |}.

(** The documents right under a collection, as a query would list them. *)
Definition has_slash (s : string) : bool :=
  bool_decide ("/"%char ∈ String.list_ascii_of_string s).

Definition in_collection (collectionPath path : string) : bool :=
  String.prefix (collectionPath +:+ "/") path
  && negb (has_slash
             (String.substring (String.length collectionPath + 1)
                (String.length path) path)).

Definition collection_docs (collectionPath : string) (ds : gmap string doc)
  : list query_doc :=
  omap
    (fun '(path, d) =>
       if in_collection collectionPath path
       then Some {| qd_ref := DocRef path; qd_data := d |}
       else None)
    (map_to_list ds).

(** Clients that generate the ids [X], [Y], [Z2], ... and answer every
    query with all the documents of its collection, whatever its clauses:
    [client] reads the payload of a staged write when the write is
    requested, as the web client does that the browser binding is built
    on, and [admin_client] when the transaction is committed, as the
    client of the server binding does. *)
Definition letter_id (n : nat) : string :=
  match n with
  | 0 => "X"
  | 1 => "Y"
  | _ => "Z" +:+ pretty n
  end.

Definition client_reading (t : timing) (denied : backend_op -> option error)
  : Firestore :=
  {| auto_id := letter_id; deny := denied;
     run_query := fun q ds => collection_docs (q_collection q) ds;
     reads_payload := t |}.

Definition client : (backend_op -> option error) -> Firestore :=
  client_reading OnRequest.

Definition admin_client : (backend_op -> option error) -> Firestore :=
  client_reading OnCommit.

Definition permissive : backend_op -> option error := fun _ => None.

Definition permission_denied : error :=
  FirestoreError "permission-denied" "Missing or insufficient permissions.".

(** ** Live feeds *)

(** [lazyConnection] wraps, in [publish()] and [refCount()], an observable
    that on connection makes a fresh [Subject], subscribes the connection to
    it, and calls [options.start(subject)]; its teardown unsubscribes that
    subscription and calls [options.stop()].  The feed is followed here as
    a state machine over the calls that reach it: consumers subscribing and
    unsubscribing, and the backend invoking the callbacks of a listener it
    was given, which it may still do after the listener was removed. *)
Module Feed.
Section LazyConnection.
Context {N T : Type}.

(** What [options.start] hands to [onSnapshot]: the [next] callback gives
    [on_next n] to the subject; the [error] callback, where there is one,
    prints and gives the error to the subject. *)
Record listener := {
  on_next : N -> T;
  on_error : option (error -> list console_entry);
}.

Record feed := {
  consumers : list nat;       (* subscribers of the published subject *)
  failed : option error;      (* the published subject has errored *)
  subjects : nat;             (* subjects made so far *)
  open_subject : option nat;  (* the subject whose subscription is open *)
  unsub : option nat;         (* the variable [unsub]: the listener
                                 registered last *)
  listeners : list nat;       (* the listeners the backend holds *)
}.

Definition idle : feed :=
  {| consumers := []; failed := None; subjects := 0; open_subject := None;
     unsub := None; listeners := [] |}.

Inductive event :=
| Subscribe (c : nat)
| Unsubscribe (c : nat)
| BackendNext (g : nat) (n : N)      (* the [next] callback of listener g *)
| BackendError (g : nat) (e : error) (* its [error] callback *).

Inductive effect :=
| Emit (c : nat) (v : T)
| EmitError (c : nat) (e : error)
| OnSnapshot (g : nat)               (* a listener is registered *)
| Unsub (g : nat)                    (* its removal is requested *)
| Console (lines : list console_entry).

Definition is_emission (x : effect) : bool :=
  match x with
  | Emit _ _ | EmitError _ _ => true
  | _ => false
  end.

Variable L : listener.

(** The observable's subscribe function: a new subject, the connection
    subscribed to it, [options.start(subject)]. *)
Definition connect (s : feed) : feed * list effect :=
  let g := subjects s in
  ({| consumers := consumers s; failed := failed s; subjects := S g;
      open_subject := Some g; unsub := Some g;
      listeners := listeners s ++ [g] |},
   [OnSnapshot g]).

(** Its teardown: [subscription.unsubscribe(); options.stop()]. *)
Definition teardown (s : feed) : feed * list effect :=
  match unsub s with
  | Some h =>
      ({| consumers := consumers s; failed := failed s;
          subjects := subjects s; open_subject := None; unsub := unsub s;
          listeners := List.remove Nat.eq_dec h (listeners s) |},
       [Unsub h])
  | None =>
      ({| consumers := consumers s; failed := failed s;
          subjects := subjects s; open_subject := None; unsub := unsub s;
          listeners := listeners s |}, [])
  end.

Definition with_consumers (cs : list nat) (s : feed) : feed :=
  {| consumers := cs; failed := failed s; subjects := subjects s;
     open_subject := open_subject s; unsub := unsub s;
     listeners := listeners s |}.

Definition with_failed (e : error) (s : feed) : feed :=
  {| consumers := consumers s; failed := Some e; subjects := subjects s;
     open_subject := open_subject s; unsub := unsub s;
     listeners := listeners s |}.

Definition step (s : feed) (ev : event) : feed * list effect :=
  match ev with
  | Subscribe c =>
      match failed s with
      | Some e => (s, [EmitError c e])
      | None =>
          if bool_decide (c ∈ consumers s) then (s, [])
          else
            let s1 := with_consumers (consumers s ++ [c]) s in
            match consumers s with
            | [] => connect s1
            | _ => (s1, [])
            end
      end
  | Unsubscribe c =>
      if bool_decide (c ∈ consumers s) then
        let s1 := with_consumers (List.remove Nat.eq_dec c (consumers s)) s in
        match consumers s1 with
        | [] => teardown s1
        | _ => (s1, [])
        end
      else (s, [])
  | BackendNext g n =>
      if bool_decide (open_subject s = Some g)
      then (s, map (fun c => Emit c (on_next L n)) (consumers s))
      else (s, [])
  | BackendError g e =>
      match on_error L with
      | None => (s, [])
      | Some print =>
          if bool_decide (open_subject s = Some g) then
            let '(s1, torn) := teardown s in
            (with_failed e (with_consumers [] s1),
             (Console (print e) :: torn
              ++ map (fun c => EmitError c e) (consumers s))%list)
          else (s, [Console (print e)])
      end
  end.

Fixpoint run (s : feed) (evs : list event) : feed * list effect :=
  match evs with
  | [] => (s, [])
  | ev :: rest =>
      let '(s1, out1) := step s ev in
      let '(s2, out2) := run s1 rest in
      (s2, (out1 ++ out2)%list)
  end.

(** The feeds a sequence of calls can lead to. *)
Inductive reachable : feed -> Prop :=
| reachable_idle : reachable idle
| reachable_step s ev : reachable s -> reachable (fst (step s ev)).

Definition is_subscribe (ev : event) : bool :=
  match ev with
  | Subscribe _ => true
  | _ => false
  end.
End LazyConnection.
Arguments listener : clear implicits.
Arguments event : clear implicits.
Arguments effect : clear implicits.
End Feed.

(** What the backend notifies a query listener with. *)
Inductive change_type := added | modified | removed.

Record doc_change := { dc_type : change_type; dc_doc : query_doc }.

Record query_snapshot := {
  qs_docs : list query_doc;
  qs_docChanges : list doc_change;
}.

Record CollectionChange := { type : change_type; document : doc }.

(** The listeners of the three feeds. *)
Definition FbDataStore_watch (this : FbDataStore) (docPath : string)
  : Feed.listener snapshot (option doc) :=
  {| Feed.on_next := snap_data;
     Feed.on_error :=
       match flavour this with
       | Browser =>
           Some (fun e =>
             printError_lines Browser e ("watch(" +:+ quoted docPath +:+ ")") None)
       | Server => None
       end |}.

Definition FbDataStore_watchAll (this : FbDataStore) (collectionPath : string)
  : Feed.listener query_snapshot (list doc) :=
  {| Feed.on_next := fun snap => map qd_data (qs_docs snap);
     Feed.on_error :=
       match flavour this with
       | Browser =>
           Some (fun e =>
             printError_lines Browser e
               ("watchAll(" +:+ quoted collectionPath +:+ ")") None)
       | Server => None
       end |}.

Definition FbDataStore_watchForChanges (this : FbDataStore)
    (collectionPath : string)
  : Feed.listener query_snapshot (list CollectionChange) :=
  {| Feed.on_next := fun snap =>
       map (fun x => {| type := dc_type x; document := qd_data (dc_doc x) |})
         (qs_docChanges snap);
     Feed.on_error := None |}.

(** What a feed hands its listener to: [watch] to the document at
    [docPath], [watchForChanges] and [watchAll] to the query they build
    from the parameters. *)
Inductive feed_call :=
| Watch (docPath : string)
| WatchForChanges (collectionPath : string) (params : option CollectionParams)
| WatchAll (collectionPath : string) (params : option CollectionParams).

Inductive listened :=
| ListenDocument (r : doc_ref)
| ListenQuery (q : fs_query).

Definition listens_on (this : FbDataStore) (f : feed_call) : listened :=
  match f with
  | Watch docPath => ListenDocument (DocRef docPath)
  | WatchForChanges collectionPath params
  | WatchAll collectionPath params =>
      ListenQuery (watch_query collectionPath params)
  end.

Definition browser_store (denied : backend_op -> option error) : FbDataStore :=
  {| flavour := Browser; firestore := client denied |}.

Definition server_store (denied : backend_op -> option error) : FbDataStore :=
  {| flavour := Server; firestore := admin_client denied |}.

(** The object [{name: 'A'}], and a heap that holds it at reference 7. *)
Definition record_A : doc := {["name" := VStr "A"]}.

Definition heap_A : gmap loc doc := {[7 := record_A]}.



(** The object [{x: 1}]. *)
Definition record_x : doc := {["x" := VNum 1]}.

Definition heap_x : gmap loc doc := {[7 := record_x]}.

(** A client that refuses every write to one path, whatever the payload,
    and answers everything else. *)
Definition written_path (op : backend_op) : option string :=
  match op with
  | BSet p _ _ => Some p
  | BAdd c id _ => Some (child_path c id)
  | BDelete p => Some p
  | BTxStage (WSet p _) | BTxStage (WUpdate p _) | BTxStage (WDelete p) => Some p
  | BGet _ | BQueryGet _ | BTxGet _ | BTxCommit _ => None
  end.

Definition deny_writes_to (path : string) : backend_op -> option error :=
  fun op =>
    if bool_decide (written_path op = Some path)
    then Some permission_denied else None.

(** The documents after the same merging update was sent to each of
    [docPaths]: the ones the client allowed have been applied. *)
Definition updates_applied (fs : Firestore) (o : doc) (docPaths : list string)
    (ds : gmap string doc) : gmap string doc :=
  foldl
    (fun ds path =>
       match deny fs (BSet path o true) with
       | None => <[path := o ∪ default ∅ (ds !! path)]> ds
       | Some _ => ds
       end)
    ds docPaths.

(** A store that holds [{name: 'A'}] at [users/u1]. *)
Definition docs_u1 : gmap string doc := {["users/u1" := record_A]}.

(** What holds of every feed a sequence of calls can lead to: while a
    subject is open there are consumers, and the one listener the backend
    holds is the one [unsub] removes; otherwise there is neither consumer
    nor listener. *)
Definition feed_wf (s : Feed.feed) : Prop :=
  match Feed.open_subject s with
  | Some g =>
      Feed.consumers s <> [] /\ Feed.failed s = None /\
      Feed.unsub s = Some g /\ Feed.listeners s = [g] /\ g < Feed.subjects s
  | None => Feed.consumers s = [] /\ Feed.listeners s = []
  end.

(** Every subject still open was made at or after the [k]-th. *)
Definition feed_newer (k : nat) (s : Feed.feed) : Prop :=
  k <= Feed.subjects s /\
  forall g, Feed.open_subject s = Some g -> k <= g.

(** No consumer is given anything. *)
Definition silent {T} (out : list (Feed.effect T)) : Prop :=
  Forall (fun x => Feed.is_emission x = false) out.

(** ** Further vocabulary for the properties *)

(** A text with a colon in it, and one with a dollar. *)
Definition has_colon (s : string) : bool :=
  bool_decide (":"%char ∈ String.list_ascii_of_string s).

Definition has_dollar (s : string) : bool :=
  bool_decide ("$"%char ∈ String.list_ascii_of_string s).

(** The documents after the same payload was set at each of [keys]: the
    writes the client allowed have been applied. *)
Definition mirrors_written (fs : Firestore) (d : doc) (keys : list string)
    (ds : gmap string doc) : gmap string doc :=
  foldl
    (fun ds key =>
       match deny fs (BSet key d false) with
       | None => <[key := d]> ds
       | Some _ => ds
       end)
    ds keys.

(** The calls of the facade that send one write. *)
Definition is_single_write (c : call) : bool :=
  match c with
  | CallSet _ _ | CallCreate _ _ | CallUpdate _ _ | CallDelete _ => true
  | _ => false
  end.

(** The calls of the facade that only read. *)
Definition is_read (c : call) : bool :=
  match c with
  | CallRead _ | CallQueryGet _ _ | CallListAll _ _ => true
  | _ => false
  end.

(** The one request a reading call sends. *)
Definition read_request (this : FbDataStore) (c : call) : list backend_op :=
  match c with
  | CallRead docPath => [BGet docPath]
  | CallQueryGet collectionPath filters =>
      [BQueryGet
         {| q_collection := collectionPath;
            q_clauses := map (fun '(f, op, v) => Where f op v) filters |}]
  | CallListAll collectionPath params =>
      [BQueryGet (listAll_query (flavour this) collectionPath params)]
  | _ => []
  end.

(** The backend invoking the [error] callback of a listener, and a
    sequence of events in which it never does. *)
Definition is_listener_error {N} (ev : Feed.event N) : bool :=
  match ev with
  | Feed.BackendError _ _ => true
  | _ => false
  end.

Definition no_listener_error {N} (evs : list (Feed.event N)) : Prop :=
  Forall (fun ev => is_listener_error ev = false) evs.

(** An effect that hands an error to a consumer. *)
Definition is_error_emission {T} (x : Feed.effect T) : bool :=
  match x with
  | Feed.EmitError _ _ => true
  | _ => false
  end.

(** * Properties *)

(** ** Requests *)

Lemma issue_allowed fs op w :
  deny fs op = None ->
  issue fs op w = (Resolved tt, set_trace (trace w ++ [op]) w).
Proof. intros H. unfold issue. now rewrite H. Qed.

Lemma issue_denied fs op e w :
  deny fs op = Some e ->
  issue fs op w = (Rejected e, set_trace (trace w ++ [op]) w).
Proof. intros H. unfold issue. now rewrite H. Qed.

(** Unfolds the plumbing of promises. *)
Ltac step_promise :=
  unfold try_catch, bind, ret, throw, get_world, modify, deref, assign_id,
    console_out, handleError, printError; simpl.

(** ** [create] *)

(** What the facade [create] does, in full. *)
Lemma FbDataStore_create_run this collectionPath data w :
  let fs := firestore this in
  let o := default ∅ (heap w !! data) in
  let id := auto_id fs (drawn w) in
  FbDataStore_create this collectionPath data w =
    match deny fs (BAdd collectionPath id o) with
    | None =>
        (Resolved data,
         {| heap := <[data := <["id" := VStr id]> o]> (heap w);
            docs := <[child_path collectionPath id := o]> (docs w);
            drawn := S (drawn w);
            staged := staged w;
            trace := trace w ++ [BAdd collectionPath id o];
            console := console w |})
    | Some e =>
        (Rejected e,
         {| heap := heap w;
            docs := docs w;
            drawn := S (drawn w);
            staged := staged w;
            trace := trace w ++ [BAdd collectionPath id o];
            console := console w ++
              printError_lines (flavour this) e
                ("datastore.create(" +:+ quoted collectionPath +:+ ", ...)")
                (Some o) |})
    end.
Proof.
  intros fs o id.
  unfold FbDataStore_create, col_add, new_doc_ref, issue. step_promise.
  fold fs o id. destruct (deny fs (BAdd collectionPath id o)); reflexivity.
Qed.

(** What the transactional [create] does, in full. *)
Lemma FbTransaction_create_run this collectionPath data w :
  let fs := firestore (store this) in
  let o := default ∅ (heap w !! data) in
  let id := auto_id fs (drawn w) in
  let wr := WSet (child_path collectionPath id) o in
  FbTransaction_create this collectionPath data w =
    match deny fs (BTxStage wr) with
    | None =>
        (Resolved data,
         {| heap := <[data := <["id" := VStr id]> o]> (heap w);
            docs := docs w;
            drawn := S (drawn w);
            staged := staged w
                      ++ [{| pending_write := wr; pending_object := Some data |}];
            trace := trace w ++ [BTxStage wr];
            console := console w |})
    | Some e =>
        (Rejected e,
         {| heap := heap w;
            docs := docs w;
            drawn := S (drawn w);
            staged := staged w;
            trace := trace w ++ [BTxStage wr];
            console := console w ++
              match flavour (store this) with
              | Browser =>
                  printError_lines Browser e
                    ("datastoreTransaction.create(" +:+ quoted collectionPath
                     +:+ ", ...)") (Some o)
              | Server =>
                  [Text ("Caught error during datastore transaction.create("
                         +:+ quoted collectionPath +:+ ", ...)");
                   ErrorObject e;
                   Text "Debug information";
                   Text "Data being saved:";
                   DataObject (Some o)]
              end |})
    end.
Proof.
  intros fs o id wr.
  unfold FbTransaction_create, txn_stage, new_doc_ref, issue. step_promise.
  fold fs o id wr. destruct (deny fs (BTxStage wr)); [|reflexivity].
  destruct (flavour (store this)); reflexivity.
Qed.

(** The fields of an object in hand depend on the heap alone. *)
Lemma fields_at_heap w1 w2 x :
  heap w1 = heap w2 -> fields_at w1 x = fields_at w2 x.
Proof.
  intros H. destruct x; [|reflexivity].
  unfold fields_at, object_at. now rewrite H.
Qed.

(** What the transactional [set] does, in full. *)
Lemma FbTransaction_set_run this p x w :
  let fs := firestore (store this) in
  let d := fields_at w x in
  FbTransaction_set this p x w =
    match deny fs (BTxStage (WSet p d)) with
    | None =>
        (Resolved tt,
         set_staged
           (staged w ++ [{| pending_write := WSet p d;
                            pending_object := payload_object x |}])
           (set_trace (trace w ++ [BTxStage (WSet p d)]) w))
    | Some e =>
        (Rejected e,
         set_console
           (console w ++
            match flavour (store this) with
            | Browser =>
                printError_lines Browser e
                  ("datastoreTransaction.set(" +:+ quoted p +:+ ", ...)") (Some d)
            | Server =>
                [Text ("Caught error during datastore transaction.set("
                       +:+ quoted p +:+ ", ...)");
                 ErrorObject e;
                 Text "Debug information";
                 Text "Object view of error:";
                 ErrorObject e;
                 Text "Data being set:";
                 DataObject (Some d)]
            end)
           (set_trace (trace w ++ [BTxStage (WSet p d)]) w))
    end.
Proof.
  intros fs d. subst d.
  unfold FbTransaction_set, txn_stage, issue, payload_fields, fields_at,
    object_at.
  destruct x as [l|d0]; step_promise; fold fs;
    (match goal with |- context [deny fs ?op] => destruct (deny fs op) end;
     [|reflexivity]);
    now destruct (flavour (store this)).
Qed.

Lemma call_create_resolved via collectionPath data w r w' :
  call_create via collectionPath data w = (Resolved r, w') ->
  let o := default ∅ (heap w !! data) in
  let id := auto_id (client_of via) (drawn w) in
  r = data /\
  heap w' = <[data := <["id" := VStr id]> o]> (heap w).
Proof.
  destruct via as [this|txn]; simpl; intros Hrun.
  - rewrite FbDataStore_create_run in Hrun.
    destruct (deny _ _); inversion Hrun; subst; simpl. auto.
  - rewrite FbTransaction_create_run in Hrun.
    destruct (deny _ _); inversion Hrun; subst; simpl. auto.
Qed.

(** C10. A successful [create], on the facade or on a transaction handle,
    returns the reference it was given; of the objects in the heap only
    that one has changed, and of its fields only [id], which now holds the
    id the client generated. *)
Theorem create_returns_the_callers_object
    via collectionPath (data : loc) (o : doc) w r w' :
  heap w !! data = Some o ->
  call_create via collectionPath data w = (Resolved r, w') ->
  r = data /\
  (exists o' : doc,
     heap w' !! data = Some o' /\
     o' !! "id" = Some (VStr (auto_id (client_of via) (drawn w))) /\
     forall k : string, k ≠ "id" -> o' !! k = o !! k) /\
  (forall l : loc, l ≠ data -> heap w' !! l = heap w !! l).
Proof.
  intros Ho Hrun.
  destruct (call_create_resolved _ _ _ _ _ _ Hrun) as (-> & Hheap).
  rewrite Ho in Hheap. simpl in Hheap. rewrite Hheap.
  split; [reflexivity|]. split.
  - eexists. split; [apply lookup_insert_eq|]. split.
    + apply lookup_insert_eq.
    + intros k Hk. now apply lookup_insert_ne.
  - intros l Hl. now apply lookup_insert_ne.
Qed.

Lemma create_returns_the_callers_object_witness :
  heap (new_world heap_A no_docs) !! 7 = Some record_A /\
  7 = 7 /\
  (exists o' : doc,
     heap (snd (FbDataStore_create (browser_store permissive) "users" 7
                  (new_world heap_A no_docs))) !! 7 = Some o' /\
     o' !! "id" = Some (VStr "X") /\
     forall k : string, k ≠ "id" -> o' !! k = record_A !! k) /\
  (forall l : loc, l ≠ 7 ->
     heap (snd (FbDataStore_create (browser_store permissive) "users" 7
                  (new_world heap_A no_docs))) !! l
     = heap (new_world heap_A no_docs) !! l).
Proof.
  split; [reflexivity|].
  apply (create_returns_the_callers_object
           (OnStore (browser_store permissive)) "users" 7 record_A
           (new_world heap_A no_docs) 7); reflexivity.
Defined.




(** ** [mirror] *)

(** C2. With [data] omitted and no document at [primaryKey], [mirror]
    rejects with the error [No such object <primaryKey>], once the client
    has answered the read; the documents are as they were and the only
    request sent is that read. *)
Theorem mirror_of_missing_primary
    this primaryKey (mirrorKeys : list string) w :
  docs w !! primaryKey = None ->
  deny (firestore this) (BGet primaryKey) = None ->
  exists w',
    FbDataStore_mirror this primaryKey mirrorKeys None w
      = (Rejected (JsError ("No such object " +:+ primaryKey)), w') /\
    docs w' = docs w /\
    trace w' = trace w ++ [BGet primaryKey].
Proof.
  intros Hmissing Hallowed.
  unfold FbDataStore_mirror, doc_get, issue. step_promise.
  rewrite Hallowed. simpl. rewrite Hmissing.
  eexists. split; [reflexivity|]. split; reflexivity.
Qed.

Lemma mirror_of_missing_primary_witness :
  docs (new_world heap_A no_docs) !! "users/u1" = None /\
  deny (firestore (server_store permissive)) (BGet "users/u1") = None /\
  exists w',
    FbDataStore_mirror (server_store permissive) "users/u1"
      ["index/u1"; "byName/A"] None (new_world heap_A no_docs)
      = (Rejected (JsError "No such object users/u1"), w') /\
    docs w' = docs (new_world heap_A no_docs) /\
    trace w' = trace (new_world heap_A no_docs) ++ [BGet "users/u1"].
Proof.
  split; [reflexivity|]. split; [reflexivity|].
  apply (mirror_of_missing_primary (server_store permissive) "users/u1"
           ["index/u1"; "byName/A"] (new_world heap_A no_docs));
    reflexivity.
Defined.

(** ** [update] and [multiUpdate] *)

Lemma FbDataStore_update_run this docPath data w :
  let fs := firestore this in
  let o := default ∅ (heap w !! data) in
  FbDataStore_update this docPath data w =
    match deny fs (BSet docPath o true) with
    | None =>
        (Resolved tt,
         {| heap := heap w;
            docs := <[docPath := o ∪ default ∅ (docs w !! docPath)]> (docs w);
            drawn := drawn w;
            staged := staged w;
            trace := trace w ++ [BSet docPath o true];
            console := console w |})
    | Some e =>
        (Rejected e,
         {| heap := heap w;
            docs := docs w;
            drawn := drawn w;
            staged := staged w;
            trace := trace w ++ [BSet docPath o true];
            console := console w ++
              printError_lines (flavour this) e
                (match flavour this with
                 | Browser => "datastore.update(" +:+ quoted docPath +:+ ")"
                 | Server => "datastore.update(" +:+ quoted docPath +:+ ", ...)"
                 end) None |})
    end.
Proof.
  intros fs o.
  unfold FbDataStore_update, doc_set, issue. step_promise.
  fold fs o. destruct (deny fs (BSet docPath o true)); reflexivity.
Qed.

(** The fan-out of [multiUpdate]: every update is sent; the heap is not
    touched, and the documents are the allowed updates applied. *)
Lemma updates_fan_out this docPaths data w :
  let fs := firestore this in
  let o := default ∅ (heap w !! data) in
  let w' := snd (promise_all
                   (map (fun path => FbDataStore_update this path data) docPaths) w) in
  heap w' = heap w /\
  docs w' = updates_applied fs o docPaths (docs w).
Proof.
  revert w. induction docPaths as [|p rest IH]; intros w; [now split|].
  cbn [map promise_all updates_applied foldl].
  rewrite FbDataStore_update_run.
  destruct (deny (firestore this) (BSet p _ true)) as [e|] eqn:Hdeny.
  - cbn [snd]. set (w1 := Build_world _ _ _ _ _ _).
    destruct (IH w1) as [Hheap Hdocs]. split; [exact Hheap|exact Hdocs].
  - set (w1 := Build_world _ _ _ _ _ _).
    destruct (IH w1) as [Hheap Hdocs].
    destruct (promise_all _ w1) as [[l|e] w2]; cbn [snd] in *;
      (split; [exact Hheap|exact Hdocs]).
Qed.

(** Its result: the error of the first update the client refused. *)
Lemma updates_first_rejection this before p after data e w :
  let fs := firestore this in
  let o := default ∅ (heap w !! data) in
  (forall q, q ∈ before -> deny fs (BSet q o true) = None) ->
  deny fs (BSet p o true) = Some e ->
  fst (promise_all
         (map (fun path => FbDataStore_update this path data)
            (before ++ p :: after)) w) = Rejected e.
Proof.
  revert w. induction before as [|q before IH]; intros w fs o Hbefore Hp.
  - cbn [app map promise_all]. rewrite FbDataStore_update_run.
    fold fs o. now rewrite Hp.
  - cbn [app map promise_all]. rewrite FbDataStore_update_run.
    fold fs o. rewrite (Hbefore q) by apply list_elem_of_here.
    set (w1 := Build_world _ _ _ _ _ _).
    assert (H : fst (promise_all
                       (map (fun path => FbDataStore_update this path data)
                          (before ++ p :: after)) w1) = Rejected e).
    { apply (IH w1); [|exact Hp].
      intros q' Hq'. apply Hbefore. now apply list_elem_of_further. }
    destruct (promise_all _ w1) as [[l|e'] w2]; simpl in H;
      [discriminate|exact H].
Qed.

Lemma updates_applied_cons fs (o : doc) p rest (ds : gmap string doc) :
  updates_applied fs o (p :: rest) ds =
    updates_applied fs o rest
      match deny fs (BSet p o true) with
      | None => <[p := o ∪ default ∅ (ds !! p)]> ds
      | Some _ => ds
      end.
Proof. reflexivity. Qed.

Lemma updates_applied_lookup fs (o : doc) docPaths (ds : gmap string doc) q :
  updates_applied fs o docPaths ds !! q =
    if bool_decide (q ∈ docPaths) && bool_decide (deny fs (BSet q o true) = None)
    then Some (o ∪ default ∅ (ds !! q))
    else ds !! q.
Proof.
  revert ds. induction docPaths as [|p rest IH]; intros ds; [reflexivity|].
  rewrite updates_applied_cons, IH. clear IH.
  destruct (decide (q = p)) as [->|Hne].
  - rewrite (bool_decide_eq_true_2 (p ∈ p :: rest)) by apply list_elem_of_here.
    destruct (deny fs (BSet p o true)) as [e|] eqn:Hdeny.
    + rewrite (bool_decide_eq_false_2 (Some e = None)) by discriminate.
      now rewrite !andb_false_r.
    + rewrite (bool_decide_eq_true_2 (None = None)) by reflexivity.
      rewrite lookup_insert_eq. cbn [from_option id andb]. unfold id.
      rewrite (assoc_L (∪) o o), (idemp_L (∪) o).
      now destruct (bool_decide (p ∈ rest)).
  - assert (Hmem : bool_decide (q ∈ p :: rest) = bool_decide (q ∈ rest)).
    { apply bool_decide_ext. rewrite elem_of_cons. tauto. }
    rewrite Hmem.
    destruct (deny fs (BSet p o true)); [reflexivity|].
    now rewrite lookup_insert_ne by congruence.
Qed.




(** ** Reads *)

(** The facade [read] stamps the final segment of the path as [id]. *)
Lemma FbDataStore_read_sets_id this docPath w (d : doc) w' :
  FbDataStore_read this docPath w = (Resolved (Some d), w') ->
  d !! "id" = Some (VStr (last_segment docPath)).
Proof.
  unfold FbDataStore_read, doc_get, issue. step_promise.
  destruct (deny _ _); [discriminate|]. simpl.
  destruct (docs w !! docPath); intros H; inversion H; subst.
  apply lookup_insert_eq.
Qed.

(** X27. [listAll] stamps on each document the id of the snapshot it came
    from, in place of any [id] among the stored fields; the list it
    resolves with follows the snapshot's documents one for one. *)
Lemma FbDataStore_listAll_sets_id this collectionPath params w l w' :
  FbDataStore_listAll this collectionPath params w = (Resolved l, w') ->
  Forall2 (fun (d : doc) x => d !! "id" = Some (VStr (qd_id x))) l
    (run_query (firestore this)
       (listAll_query (flavour this) collectionPath params) (docs w)).
Proof.
  unfold FbDataStore_listAll, query_get, issue. step_promise.
  destruct (deny _ _); [discriminate|]. simpl.
  intros H; inversion H; subst. clear H.
  induction (run_query _ _ _) as [|x xs IH]; constructor; [|exact IH].
  apply lookup_insert_eq.
Qed.

(** C5 at [users/u1], which holds [{name: 'A'}].  The facade [read] and
    [listAll] return the document with [id: 'u1']; the transactional
    [read] and [readAll] and the query's [get] return it as stored, with no
    [id]. *)
Theorem transaction_and_query_reads_leave_id_unset :
  fst (FbDataStore_read (browser_store permissive) "users/u1"
         (new_world heap_A docs_u1))
  = Resolved (Some (<["id" := VStr "u1"]> record_A)) /\
  fst (FbDataStore_listAll (browser_store permissive) "users" None
         (new_world heap_A docs_u1))
  = Resolved [<["id" := VStr "u1"]> record_A] /\
  record_A !! "id" = None /\
  (forall b,
     fst (FbDataStore_transact {| flavour := b; firestore := client permissive |}
            (fun txn => FbTransaction_read txn "users/u1")
            (new_world heap_A docs_u1))
     = Resolved (Some record_A)) /\
  (forall b,
     fst (FbDataStore_transact {| flavour := b; firestore := client permissive |}
            (fun txn => FbTransaction_readAll txn ["users/u1"])
            (new_world heap_A docs_u1))
     = Resolved [Some record_A]) /\
  fst (FbQuery_get (client permissive)
         (FbDataStore_query (browser_store permissive) "users")
         (new_world heap_A docs_u1))
  = Resolved [record_A].
Proof.
  repeat split; try (intros []); vm_compute; reflexivity.
Qed.

(** ** [createAndMirror] *)

(** C3 at [createAndMirror('users', {name:'A'}, ['index/:id'])], with a
    client that allows everything and generates the ids [X], then [Y].
    After the transaction has written [users/X] and [index/X], the create
    and the mirroring run a second time outside it: [users] holds two
    documents, the record returned carries the id [Y], and [index/Y] holds
    [id: 'X'].  ([users/X] holds the object as the client read it: without
    an id where it reads the payload when the write is requested, with
    [id: 'X'] where it reads it at the commit.) *)
Theorem createAndMirror_creates_two_documents (b : binding) (t : timing) :
  let this := {| flavour := b; firestore := client_reading t permissive |} in
  let result :=
    FbDataStore_createAndMirror this "users" 7 ["index/:id"]
      (new_world heap_A no_docs) in
  let first :=
    match t with
    | OnRequest => record_A
    | OnCommit => <["id" := VStr "X"]> record_A
    end in
  fst result = Resolved 7 /\
  heap (snd result) !! 7 = Some (<["id" := VStr "Y"]> record_A) /\
  docs (snd result) =
    <["users/X" := first]>
      (<["index/X" := <["id" := VStr "X"]> record_A]>
         (<["users/Y" := <["id" := VStr "X"]> record_A]>
            (<["index/Y" := <["id" := VStr "X"]> record_A]> no_docs))) /\
  length (collection_docs "users" (docs (snd result))) = 2.
Proof. destruct b, t; repeat split; vm_compute; reflexivity. Qed.

(** C1 at the same call.  The requests sent after the commit of the
    transaction are writes outside it; and when the client refuses the
    write of [index/Y], the call rejects while [users/X] and [users/Y] both
    exist. *)
Theorem createAndMirror_writes_outside_the_transaction
    (b : binding) (t : timing) :
  let result :=
    FbDataStore_createAndMirror
      {| flavour := b; firestore := client_reading t permissive |}
      "users" 7 ["index/:id"] (new_world heap_A no_docs) in
  let refused :=
    FbDataStore_createAndMirror
      {| flavour := b;
         firestore := client_reading t (deny_writes_to "index/Y") |}
      "users" 7 ["index/:id"] (new_world heap_A no_docs) in
  let first :=
    match t with
    | OnRequest => record_A
    | OnCommit => <["id" := VStr "X"]> record_A
    end in
  trace (snd result) =
    [BTxStage (WSet "users/X" record_A);
     BTxStage (WSet "index/X" (<["id" := VStr "X"]> record_A));
     BTxCommit [WSet "users/X" first;
                WSet "index/X" (<["id" := VStr "X"]> record_A)];
     BAdd "users" "Y" (<["id" := VStr "X"]> record_A);
     BGet "users/Y";
     BSet "index/Y" (<["id" := VStr "X"]> record_A) false] /\
  fst refused = Rejected permission_denied /\
  docs (snd refused) !! "users/X" = Some first /\
  docs (snd refused) !! "users/Y" = Some (<["id" := VStr "X"]> record_A) /\
  docs (snd refused) !! "index/Y" = None.
Proof. destruct b, t; repeat split; vm_compute; reflexivity. Qed.

(** The handler of the transaction only stages writes. *)
Lemma keeps_docs_bind {A B} (m : promise A) (k : A -> promise B) :
  keeps_docs m -> (forall a, keeps_docs (k a)) -> keeps_docs (bind m k).
Proof.
  intros Hm Hk w. unfold bind. pose proof (Hm w) as H1.
  destruct (m w) as [[a|e] w1]; cbn [snd] in *; [|exact H1].
  now rewrite (Hk a w1).
Qed.

Lemma keeps_docs_try_catch {A} (m : promise A) (h : error -> promise A) :
  keeps_docs m -> (forall e, keeps_docs (h e)) -> keeps_docs (try_catch m h).
Proof.
  intros Hm Hh w. unfold try_catch. pose proof (Hm w) as H1.
  destruct (m w) as [[a|e] w1]; cbn [snd] in *; [exact H1|].
  now rewrite (Hh e w1).
Qed.

Lemma keeps_docs_promise_all {A} (tasks : list (promise A)) :
  Forall keeps_docs tasks -> keeps_docs (promise_all tasks).
Proof.
  induction 1 as [|t rest Ht _ IH]; [easy|].
  intros w. cbn [promise_all]. pose proof (Ht w) as H1.
  destruct (t w) as [[a|e] w1]; cbn [snd] in *;
    pose proof (IH w1) as H2;
    destruct (promise_all rest w1) as [[r|e'] w2]; cbn [snd] in *; congruence.
Qed.

Lemma keeps_docs_FbTransaction_create txn c data :
  keeps_docs (FbTransaction_create txn c data).
Proof.
  intros w. rewrite FbTransaction_create_run. now destruct (deny _ _).
Qed.

Lemma keeps_docs_FbTransaction_set txn p d :
  keeps_docs (FbTransaction_set txn p d).
Proof.
  intros w. rewrite FbTransaction_set_run. now destruct (deny _ _).
Qed.

Lemma keeps_docs_createAndMirror_handler this txn c data keys :
  keeps_docs
    (let! record :=
       try_catch (FbTransaction_create txn c data)
         (fun e =>
            let! o := deref data in
            console_out (create_failed c keys e o);; throw e) in
     let! id := record_id record in
     FbDataStore_mirrorInTransaction this txn (child_path c id)
       (map (fun key => replace_id key id) keys) (Some record);;
     ret record).
Proof.
  apply keeps_docs_bind.
  - apply keeps_docs_try_catch; [apply keeps_docs_FbTransaction_create|easy].
  - intros r. apply keeps_docs_bind; [easy|]. intros id.
    apply keeps_docs_bind; [|easy].
    unfold FbDataStore_mirrorInTransaction.
    apply keeps_docs_bind; [easy|]. intros [d|]; [|easy].
    apply keeps_docs_try_catch; [|intros e0 w0; now destruct d].
    apply keeps_docs_bind; [|easy].
    apply keeps_docs_promise_all.
    induction (map (fun key => replace_id key id) keys) as [|k l IH];
      constructor; [apply keeps_docs_FbTransaction_set|exact IH].
Qed.

(** X26. The transaction of [createAndMirror] is atomic: when it rejects,
    at staging or at the commit, no document has changed, and
    [createAndMirror] rejects there with the same error. *)
Theorem createAndMirror_transaction_is_atomic this c data keys w e w' :
  createAndMirror_transaction this c data keys w = (Rejected e, w') ->
  docs w' = docs w /\
  FbDataStore_createAndMirror this c data keys w = (Rejected e, w').
Proof.
  intros Htxn. split.
  - unfold createAndMirror_transaction, FbDataStore_transact, runTransaction
      in Htxn.
    pose proof (keeps_docs_createAndMirror_handler this {| store := this |}
                  c data keys (set_staged [] w)) as Hdocs.
    destruct (bind _ _ (set_staged [] w)) as [[r|e1] w1]; cbn [snd] in Hdocs.
    + destruct (deny _ _).
      * inversion Htxn; subst. exact Hdocs.
      * destruct (apply_writes _ _); inversion Htxn; subst. exact Hdocs.
    + inversion Htxn; subst. exact Hdocs.
  - unfold FbDataStore_createAndMirror. unfold bind at 1. now rewrite Htxn.
Qed.


(** ** The two bindings, compared *)

Section Alike.
Context {A B : Type}.

Lemma alike_ret (a : A) : alike (ret a) (ret a).
Proof. intros w1 w2 H. now split. Qed.

Lemma alike_throw (e : error) : alike (@throw A e) (throw e).
Proof. intros w1 w2 H. now split. Qed.

Lemma alike_bind (m1 m2 : promise A) (k1 k2 : A -> promise B) :
  alike m1 m2 -> (forall a, alike (k1 a) (k2 a)) ->
  alike (bind m1 k1) (bind m2 k2).
Proof.
  intros Hm Hk w1 w2 Hw. unfold bind.
  destruct (Hm w1 w2 Hw) as [Hfst Hsnd].
  destruct (m1 w1) as [[a1|e1] w1'], (m2 w2) as [[a2|e2] w2'];
    simpl in Hfst, Hsnd; try discriminate; inversion Hfst; subst.
  - now apply Hk.
  - now split.
Qed.

Lemma alike_try_catch (m1 m2 : promise A) (h1 h2 : error -> promise A) :
  alike m1 m2 -> (forall e, alike (h1 e) (h2 e)) ->
  alike (try_catch m1 h1) (try_catch m2 h2).
Proof.
  intros Hm Hh w1 w2 Hw. unfold try_catch.
  destruct (Hm w1 w2 Hw) as [Hfst Hsnd].
  destruct (m1 w1) as [[a1|e1] w1'], (m2 w2) as [[a2|e2] w2'];
    simpl in Hfst, Hsnd; try discriminate; inversion Hfst; subst.
  - now split.
  - now apply Hh.
Qed.

(** A catch block that only rethrows, against no catch block at all. *)
Lemma alike_try_catch_left (m1 m2 : promise A) (h1 : error -> promise A) :
  alike m1 m2 -> (forall e, alike (h1 e) (throw e)) ->
  alike (try_catch m1 h1) m2.
Proof.
  intros Hm Hh w1 w2 Hw. unfold try_catch.
  destruct (Hm w1 w2 Hw) as [Hfst Hsnd].
  destruct (m1 w1) as [[a1|e1] w1'], (m2 w2) as [[a2|e2] w2'];
    simpl in Hfst, Hsnd; try discriminate; inversion Hfst; subst.
  - now split.
  - apply (Hh e2 w1' w2' Hsnd).
Qed.

Lemma alike_promise_all (l1 l2 : list (promise A)) :
  Forall2 alike l1 l2 -> alike (promise_all l1) (promise_all l2).
Proof.
  induction 1 as [|t1 t2 l1 l2 Ht Hl IH]; [intros w1 w2 Hw; now split|].
  intros w1 w2 Hw. cbn [promise_all].
  destruct (Ht w1 w2 Hw) as [Hfst Hsnd].
  destruct (t1 w1) as [[a1|e1] w1'], (t2 w2) as [[a2|e2] w2'];
    simpl in Hfst, Hsnd; try discriminate; inversion Hfst; subst;
    destruct (IH w1' w2' Hsnd) as [Hfst' Hsnd'];
    destruct (promise_all l1 w1') as [[r1|e1] w1''],
             (promise_all l2 w2') as [[r2|e2'] w2''];
    simpl in *; try discriminate; try inversion Hfst'; subst; now split.
Qed.

Lemma alike_runTransaction fs (m1 m2 : promise A) :
  alike m1 m2 -> alike (runTransaction fs m1) (runTransaction fs m2).
Proof.
  intros Hm w1 w2 Hw. unfold runTransaction.
  assert (Hw0 : agree (set_staged [] w1) (set_staged [] w2)).
  { destruct Hw as (?&?&?&?&?). now repeat split. }
  destruct (Hm _ _ Hw0) as [Hfst Hsnd].
  destruct (m1 _) as [[a1|e1] w1'], (m2 _) as [[a2|e2] w2'];
    simpl in Hfst, Hsnd; try discriminate; inversion Hfst; subst;
    destruct Hsnd as (Hh & Hd & Hn & Hs & Ht).
  - rewrite Hs, Hd, Hh. destruct (deny fs _).
    + split; [reflexivity|]. repeat split; simpl; congruence.
    + destruct (apply_writes _ _);
        (split; [reflexivity|]); repeat split; simpl; congruence.
  - split; [reflexivity|]. now repeat split.
Qed.
End Alike.

Lemma alike_console_out l1 l2 : alike (console_out l1) (console_out l2).
Proof. intros w1 w2 (?&?&?&?&?). split; [reflexivity|]. now repeat split. Qed.

(** The requests, which never look at the console. *)
Ltac alike_request :=
  let H := fresh in
  intros [? ? ? ? ? ?] [? ? ? ? ? ?] H; unfold agree in H; simpl in H;
  destruct H as (-> & -> & -> & -> & ->);
  unfold doc_get, doc_set, doc_delete, new_doc_ref, col_add, query_get,
    txn_get, txn_stage, record_id, issue;
  step_promise;
  repeat match goal with |- context [deny ?fs ?op] => destruct (deny fs op) end;
  simpl; (split; [reflexivity|]); repeat split.

Lemma alike_deref l : alike (deref l) (deref l).
Proof. alike_request. Qed.

Lemma alike_assign_id l id : alike (assign_id l id) (assign_id l id).
Proof. alike_request. Qed.

Lemma alike_record_id l : alike (record_id l) (record_id l).
Proof. alike_request. Qed.

Lemma alike_doc_get fs r : alike (doc_get fs r) (doc_get fs r).
Proof. alike_request. Qed.

Lemma alike_doc_set fs r d merge :
  alike (doc_set fs r d merge) (doc_set fs r d merge).
Proof. alike_request. Qed.

Lemma alike_doc_delete fs r : alike (doc_delete fs r) (doc_delete fs r).
Proof. alike_request. Qed.

Lemma alike_new_doc_ref fs c : alike (new_doc_ref fs c) (new_doc_ref fs c).
Proof. alike_request. Qed.

Lemma alike_col_add fs c d : alike (col_add fs c d) (col_add fs c d).
Proof. alike_request. Qed.

Lemma alike_query_get fs q : alike (query_get fs q) (query_get fs q).
Proof. alike_request. Qed.

Lemma alike_txn_get fs r : alike (txn_get fs r) (txn_get fs r).
Proof. alike_request. Qed.

Lemma alike_txn_stage fs wr object :
  alike (txn_stage fs wr object) (txn_stage fs wr object).
Proof. alike_request. Qed.

Lemma alike_payload_fields x : alike (payload_fields x) (payload_fields x).
Proof. destruct x; [apply alike_deref|apply alike_ret]. Qed.

Lemma alike_handleError {A} b1 b2 e op1 op2 d1 d2 :
  alike (@handleError A b1 e op1 d1) (handleError b2 e op2 d2).
Proof.
  unfold handleError, printError.
  apply alike_bind; [apply alike_console_out|intros _; apply alike_throw].
Qed.

Lemma alike_log_and_throw {A} l1 l2 e :
  alike (console_out l1;; @throw A e) (console_out l2;; throw e).
Proof. apply alike_bind; [apply alike_console_out|intros _; apply alike_throw]. Qed.

Lemma alike_log_and_throw_left {A} l1 e :
  alike (console_out l1;; @throw A e) (throw e).
Proof. intros w1 w2 (?&?&?&?&?). split; [reflexivity|]. now repeat split. Qed.

Lemma alike_map {A B} (f1 f2 : A -> promise B) (l : list A) :
  (forall x, alike (f1 x) (f2 x)) -> Forall2 alike (map f1 l) (map f2 l).
Proof. intros H. induction l; constructor; auto. Qed.

(** Follows the structure of two computations written the same way. *)
Ltac alike_steps :=
  unfold handleError, printError;
  repeat first
    [ apply alike_ret | apply alike_throw | apply alike_console_out
    | apply alike_log_and_throw
    | apply alike_deref | apply alike_payload_fields
    | apply alike_assign_id | apply alike_record_id
    | apply alike_doc_get | apply alike_doc_set | apply alike_doc_delete
    | apply alike_new_doc_ref | apply alike_col_add | apply alike_query_get
    | apply alike_txn_get | apply alike_txn_stage
    | apply alike_runTransaction
    | apply alike_promise_all; apply alike_map; intros ?
    | apply alike_try_catch; [|intros ?]
    | apply alike_bind; [|intros ?] ].

Section Bindings.
Variable fs : Firestore.
Let browser := createDataStore Browser fs.
Let server := createDataStore Server fs.

Lemma alike_FbTransaction_create c data :
  alike (FbTransaction_create {| store := browser |} c data)
        (FbTransaction_create {| store := server |} c data).
Proof. unfold FbTransaction_create; simpl. alike_steps. Qed.

Lemma alike_FbTransaction_read p :
  alike (FbTransaction_read {| store := browser |} p)
        (FbTransaction_read {| store := server |} p).
Proof.
  intros [? ? ? ? ? ?] [? ? ? ? ? ?] H; unfold agree in H; simpl in H.
  destruct H as (-> & -> & -> & -> & ->).
  unfold FbTransaction_read, txn_get, issue; simpl. step_promise.
  destruct (deny fs _); simpl; (split; [reflexivity|]); repeat split.
Qed.

Lemma alike_FbTransaction_update p data :
  alike (FbTransaction_update {| store := browser |} p data)
        (FbTransaction_update {| store := server |} p data).
Proof. unfold FbTransaction_update; simpl. alike_steps. Qed.

Lemma alike_FbTransaction_set p d :
  alike (FbTransaction_set {| store := browser |} p d)
        (FbTransaction_set {| store := server |} p d).
Proof. unfold FbTransaction_set; simpl. alike_steps. Qed.

Lemma alike_FbTransaction_delete p :
  alike (FbTransaction_delete {| store := browser |} p)
        (FbTransaction_delete {| store := server |} p).
Proof.
  unfold FbTransaction_delete; simpl.
  apply alike_try_catch_left; [apply alike_txn_stage|].
  intros e. unfold handleError, printError. apply alike_log_and_throw_left.
Qed.

Lemma alike_FbTransaction_readAll ps :
  alike (FbTransaction_readAll {| store := browser |} ps)
        (FbTransaction_readAll {| store := server |} ps).
Proof. unfold FbTransaction_readAll; simpl. alike_steps. Qed.

Lemma alike_mirrorInTransaction pk keys data :
  alike (FbDataStore_mirrorInTransaction browser {| store := browser |} pk keys data)
        (FbDataStore_mirrorInTransaction server {| store := server |} pk keys data).
Proof.
  unfold FbDataStore_mirrorInTransaction.
  apply alike_bind.
  - apply alike_try_catch; [|intros e; alike_steps].
    destruct data; [alike_steps|].
    apply alike_bind; [apply alike_FbTransaction_read|intros ?; apply alike_ret].
  - intros [d|]; [|apply alike_throw].
    apply alike_try_catch; [|intros e; alike_steps].
    apply alike_bind; [|intros ?; apply alike_ret].
    apply alike_promise_all, alike_map. intros key.
    apply alike_FbTransaction_set.
Qed.

Lemma alike_FbDataStore_set p data :
  alike (FbDataStore_set browser p data) (FbDataStore_set server p data).
Proof. unfold FbDataStore_set; simpl. alike_steps. Qed.

Lemma alike_FbDataStore_create c data :
  alike (FbDataStore_create browser c data) (FbDataStore_create server c data).
Proof. unfold FbDataStore_create; simpl. alike_steps. Qed.

Lemma alike_FbDataStore_read p :
  alike (FbDataStore_read browser p) (FbDataStore_read server p).
Proof.
  unfold FbDataStore_read; simpl.
  apply alike_bind; [alike_steps|].
  intros snap. destruct (snap_data snap); apply alike_ret.
Qed.

Lemma alike_FbQuery_get q : alike (FbQuery_get fs q) (FbQuery_get fs q).
Proof. unfold FbQuery_get. alike_steps. Qed.

Lemma listAll_query_same c params :
  same_listAll_query params ->
  listAll_query Browser c params = listAll_query Server c params.
Proof.
  intros [Hlimit Hstart]. unfold listAll_query.
  assert (Hs : forall mk1 mk2 q,
            apply_startAfter mk1 params q = apply_startAfter mk2 params q).
  { intros mk1 mk2 q. unfold apply_startAfter.
    destruct Hstart as [-> | ->]; reflexivity. }
  rewrite (Hs CursorValue (fun s => CursorRef (DocRef s))). f_equal.
  unfold apply_limit_truthy, apply_limit_defined.
  destruct (params_limit params) as [n|]; [|reflexivity].
  now rewrite (Hlimit n eq_refl).
Qed.

Lemma alike_FbDataStore_listAll c params :
  same_listAll_query params ->
  alike (FbDataStore_listAll browser c params)
        (FbDataStore_listAll server c params).
Proof.
  intros Hsame.
  unfold FbDataStore_listAll, browser, server, createDataStore.
  cbn [flavour firestore].
  rewrite (listAll_query_same c params Hsame). alike_steps.
Qed.

Lemma alike_FbDataStore_update p data :
  alike (FbDataStore_update browser p data) (FbDataStore_update server p data).
Proof. unfold FbDataStore_update; simpl. alike_steps. Qed.

Lemma alike_FbDataStore_delete p :
  alike (FbDataStore_delete browser p) (FbDataStore_delete server p).
Proof. unfold FbDataStore_delete; simpl. alike_steps. Qed.

Lemma alike_FbDataStore_mirror pk keys data :
  alike (FbDataStore_mirror browser pk keys data)
        (FbDataStore_mirror server pk keys data).
Proof.
  unfold FbDataStore_mirror; simpl.
  apply alike_bind.
  - apply alike_try_catch; [|intros e; alike_steps].
    destruct data; alike_steps.
  - intros [d|]; [|apply alike_throw]. rewrite !map_map. alike_steps.
Qed.

Lemma alike_FbDataStore_multiUpdate ps data :
  alike (FbDataStore_multiUpdate browser ps data)
        (FbDataStore_multiUpdate server ps data).
Proof.
  unfold FbDataStore_multiUpdate.
  apply alike_try_catch; [|intros e; alike_steps].
  apply alike_bind; [|intros ?; apply alike_ret].
  apply alike_promise_all, alike_map. intros p. apply alike_FbDataStore_update.
Qed.

Lemma alike_FbDataStore_createAndMirror c data keys :
  alike (FbDataStore_createAndMirror browser c data keys)
        (FbDataStore_createAndMirror server c data keys).
Proof.
  unfold FbDataStore_createAndMirror, createAndMirror_transaction,
    FbDataStore_transact; simpl.
  apply alike_bind.
  - apply alike_runTransaction.
    apply alike_bind.
    + apply alike_try_catch; [apply alike_FbTransaction_create|].
      intros e. alike_steps.
    + intros r. apply alike_bind; [apply alike_record_id|]. intros id.
      apply alike_bind; [apply alike_mirrorInTransaction|].
      intros _. apply alike_ret.
  - intros _. apply alike_bind.
    + apply alike_try_catch; [apply alike_FbDataStore_create|].
      intros e. alike_steps.
    + intros r. apply alike_bind; [apply alike_record_id|]. intros id.
      apply alike_bind; [apply alike_FbDataStore_mirror|].
      intros _. apply alike_ret.
Qed.

Lemma alike_perform_txn c :
  alike (perform_txn browser {| store := browser |} c)
        (perform_txn server {| store := server |} c).
Proof.
  destruct c; cbn [perform_txn].
  - apply alike_bind; [apply alike_FbTransaction_create|intros ?; apply alike_ret].
  - apply alike_bind; [apply alike_FbTransaction_read|intros ?; apply alike_ret].
  - apply alike_bind; [apply alike_FbTransaction_update|intros ?; apply alike_ret].
  - apply alike_bind; [apply alike_FbTransaction_set|intros ?; apply alike_ret].
  - apply alike_bind; [apply alike_FbTransaction_delete|intros ?; apply alike_ret].
  - apply alike_bind; [apply alike_FbTransaction_readAll|intros ?; apply alike_ret].
  - apply alike_bind; [apply alike_mirrorInTransaction|intros ?; apply alike_ret].
Qed.

Lemma alike_handler_of calls :
  alike (handler_of browser calls {| store := browser |})
        (handler_of server calls {| store := server |}).
Proof.
  induction calls as [|c rest IH]; cbn [handler_of]; [apply alike_ret|].
  apply alike_bind; [apply alike_perform_txn|intros a].
  apply alike_bind; [apply IH|intros ?; apply alike_ret].
Qed.

Lemma alike_perform c :
  bindings_comparable c -> alike (perform browser c) (perform server c).
Proof.
  destruct c; cbn [perform bindings_comparable]; intros Hc;
    (apply alike_bind; [|intros ?; apply alike_ret]).
  - apply alike_FbDataStore_set.
  - apply alike_FbDataStore_create.
  - apply alike_runTransaction, alike_handler_of.
  - apply alike_FbDataStore_read.
  - apply alike_FbQuery_get.
  - now apply alike_FbDataStore_listAll.
  - apply alike_FbDataStore_update.
  - apply alike_FbDataStore_delete.
  - apply alike_FbDataStore_mirror.
  - apply alike_FbDataStore_createAndMirror.
  - apply alike_FbDataStore_multiUpdate.
Qed.
End Bindings.

(** Two listeners with the same [next] callback run alike for as long as
    the backend reports no error to them. *)
Lemma feed_run_without_errors {N T} (L1 L2 : Feed.listener N T)
    (evs : list (Feed.event N)) :
  (forall n, Feed.on_next L1 n = Feed.on_next L2 n) ->
  no_listener_error evs ->
  forall s, Feed.run L1 s evs = Feed.run L2 s evs.
Proof.
  intros Hnext. induction 1 as [|ev evs Hev _ IH]; intros s; [reflexivity|].
  cbn [Feed.run].
  assert (Hstep : Feed.step L1 s ev = Feed.step L2 s ev).
  { destruct ev as [c|c|g n|g e]; cbn [Feed.step]; try reflexivity.
    - now rewrite (Hnext n).
    - discriminate. }
  rewrite Hstep. destruct (Feed.step L2 s ev) as [s1 out1]. now rewrite IH.
Qed.

(** C8, as the code has it.  On every call of the interface that returns a
    promise, except [listAll] with a falsy limit or with a cursor to start
    after, the two bindings settle alike, send the same requests with the
    same arguments in the same order, and leave the same documents and the
    same objects; they differ only in what they print.  The feeds listen on
    the same document or query in both.  The feed of [watchForChanges] is
    the same in both.  Those of [watch] and [watchAll] register and remove
    the same listeners and give their consumers the same for as long as the
    backend reports no error to a listener: the browser binding hands
    [onSnapshot] an [error] callback and the server binding does not. *)
Theorem bindings_send_the_same_requests fs :
  (forall (c : call) w,
     bindings_comparable c ->
     fst (perform (createDataStore Browser fs) c w)
     = fst (perform (createDataStore Server fs) c w) /\
     trace (snd (perform (createDataStore Browser fs) c w))
     = trace (snd (perform (createDataStore Server fs) c w)) /\
     docs (snd (perform (createDataStore Browser fs) c w))
     = docs (snd (perform (createDataStore Server fs) c w)) /\
     heap (snd (perform (createDataStore Browser fs) c w))
     = heap (snd (perform (createDataStore Server fs) c w))) /\
  (forall f,
     listens_on (createDataStore Browser fs) f
     = listens_on (createDataStore Server fs) f) /\
  (forall collectionPath,
     FbDataStore_watchForChanges (createDataStore Browser fs) collectionPath
     = FbDataStore_watchForChanges (createDataStore Server fs) collectionPath) /\
  (forall docPath evs s,
     no_listener_error evs ->
     Feed.run (FbDataStore_watch (createDataStore Browser fs) docPath) s evs
     = Feed.run (FbDataStore_watch (createDataStore Server fs) docPath) s evs) /\
  (forall collectionPath evs s,
     no_listener_error evs ->
     Feed.run (FbDataStore_watchAll (createDataStore Browser fs) collectionPath)
       s evs
     = Feed.run (FbDataStore_watchAll (createDataStore Server fs) collectionPath)
         s evs).
Proof.
  split; [|split; [|split; [|split]]].
  - intros c w Hc.
    destruct (alike_perform fs c Hc w w) as (Hfst & Hh & Hd & _ & _ & Ht).
    { now repeat split. }
    auto.
  - reflexivity.
  - reflexivity.
  - intros docPath evs s Hevs. now apply feed_run_without_errors.
  - intros collectionPath evs s Hevs. now apply feed_run_without_errors.
Qed.

Lemma bindings_send_the_same_requests_witness :
  bindings_comparable
    (CallListAll "users"
       (Some {| order := Some {| field := "name"; direction_of := Desc |};
                limit := Some (Num 2); startAfter := None |})) /\
  trace (snd (perform (createDataStore Browser (client permissive))
                (CallListAll "users"
                   (Some {| order := Some {| field := "name"; direction_of := Desc |};
                            limit := Some (Num 2); startAfter := None |}))
                (new_world heap_A docs_u1)))
  = trace (snd (perform (createDataStore Server (client permissive))
                  (CallListAll "users"
                     (Some {| order := Some {| field := "name"; direction_of := Desc |};
                              limit := Some (Num 2); startAfter := None |}))
                  (new_world heap_A docs_u1))) /\
  no_listener_error
    [Feed.Subscribe 1;
     Feed.BackendNext 0
       {| snap_ref := DocRef "users/u1"; snap_data := Some record_A |};
     Feed.Unsubscribe 1] /\
  Feed.run (FbDataStore_watch (createDataStore Browser (client permissive))
              "users/u1") Feed.idle
    [Feed.Subscribe 1;
     Feed.BackendNext 0
       {| snap_ref := DocRef "users/u1"; snap_data := Some record_A |};
     Feed.Unsubscribe 1]
  = Feed.run (FbDataStore_watch (createDataStore Server (client permissive))
                "users/u1") Feed.idle
      [Feed.Subscribe 1;
       Feed.BackendNext 0
         {| snap_ref := DocRef "users/u1"; snap_data := Some record_A |};
       Feed.Unsubscribe 1].
Proof.
  assert (Hc : bindings_comparable
            (CallListAll "users"
               (Some {| order := Some {| field := "name"; direction_of := Desc |};
                        limit := Some (Num 2); startAfter := None |}))).
  { split; [intros n [= <-]; reflexivity|now left]. }
  assert (Hevs : no_listener_error
            [Feed.Subscribe 1;
             Feed.BackendNext 0
               {| snap_ref := DocRef "users/u1"; snap_data := Some record_A |};
             Feed.Unsubscribe 1]).
  { repeat constructor. }
  split; [exact Hc|].
  split.
  - exact (proj1 (proj2
      (proj1 (bindings_send_the_same_requests (client permissive)) _
         (new_world heap_A docs_u1) Hc))).
  - split; [exact Hevs|].
    exact (proj1 (proj2 (proj2 (proj2
      (bindings_send_the_same_requests (client permissive)))))
      "users/u1" _ Feed.idle Hevs).
Defined.

(** C8, as stated, fails on [listAll] and on the feeds.  With [limit: 0]
    the browser binding sends the query without a limit and the server
    binding with [limit(0)]; with [limit: NaN] the browser binding builds
    the query without a limit and the server binding calls [limit(NaN)] on
    it; with [startAfter: 'users/u1'] the browser binding starts after the
    string and the server binding after a document reference.  When the
    backend reports an error to the listener of [watch], the browser
    binding prints it, removes the listener and gives the error to the
    consumer; the server binding does nothing. *)
Lemma bindings_differ_on_listAll_and_on_listener_errors :
  trace (snd (FbDataStore_listAll (createDataStore Browser (client permissive))
                "users"
                (Some {| order := None; limit := Some (Num 0); startAfter := None |})
                (new_world heap_A docs_u1)))
  = [BQueryGet {| q_collection := "users"; q_clauses := [] |}] /\
  trace (snd (FbDataStore_listAll (createDataStore Server (client permissive))
                "users"
                (Some {| order := None; limit := Some (Num 0); startAfter := None |})
                (new_world heap_A docs_u1)))
  = [BQueryGet {| q_collection := "users"; q_clauses := [Limit (Num 0)] |}] /\
  listAll_query Browser "users"
    (Some {| order := None; limit := Some NaN; startAfter := None |})
  = {| q_collection := "users"; q_clauses := [] |} /\
  listAll_query Server "users"
    (Some {| order := None; limit := Some NaN; startAfter := None |})
  = {| q_collection := "users"; q_clauses := [Limit NaN] |} /\
  trace (snd (FbDataStore_listAll (createDataStore Browser (client permissive))
                "users"
                (Some {| order := None; limit := None;
                         startAfter := Some "users/u1" |})
                (new_world heap_A docs_u1)))
  = [BQueryGet {| q_collection := "users";
                  q_clauses := [StartAfter (CursorValue "users/u1")] |}] /\
  trace (snd (FbDataStore_listAll (createDataStore Server (client permissive))
                "users"
                (Some {| order := None; limit := None;
                         startAfter := Some "users/u1" |})
                (new_world heap_A docs_u1)))
  = [BQueryGet {| q_collection := "users";
                  q_clauses := [StartAfter (CursorRef (DocRef "users/u1"))] |}] /\
  snd (Feed.run (FbDataStore_watch (createDataStore Browser (client permissive))
                   "users/u1") Feed.idle
         [Feed.Subscribe 1; Feed.BackendError 0 permission_denied])
  = [Feed.OnSnapshot 0;
     Feed.Console
       (printError_lines Browser permission_denied "watch('users/u1')" None);
     Feed.Unsub 0;
     Feed.EmitError 1 permission_denied] /\
  snd (Feed.run (FbDataStore_watch (createDataStore Server (client permissive))
                   "users/u1") Feed.idle
         [Feed.Subscribe 1; Feed.BackendError 0 permission_denied])
  = [Feed.OnSnapshot 0].
Proof. repeat split. Qed.

(** ** Live feeds *)

Section FeedFacts.
Context {N T : Type} (L : Feed.listener N T).

Lemma feed_wf_idle : feed_wf Feed.idle.
Proof. now split. Qed.

Lemma feed_wf_step s ev : feed_wf s -> feed_wf (fst (Feed.step L s ev)).
Proof.
  intros Hwf. destruct ev as [c|c|g n|g e]; cbn [Feed.step].
  - destruct (Feed.failed s) eqn:Hfailed; [exact Hwf|].
    destruct (bool_decide (c ∈ Feed.consumers s)); [exact Hwf|].
    unfold feed_wf in *.
    destruct (Feed.consumers s) as [|x l] eqn:Hcons.
    + destruct (Feed.open_subject s); [now destruct Hwf|].
      destruct Hwf as [_ Hl]. cbn. rewrite Hl.
      repeat split; auto.
    + cbn. destruct (Feed.open_subject s).
      * destruct Hwf as (_ & ? & ? & ? & ?). repeat split; auto.
      * now destruct Hwf.
  - destruct (bool_decide_reflect (c ∈ Feed.consumers s)) as [Hin|]; [|exact Hwf].
    unfold feed_wf in *.
    cbn. destruct (List.remove Nat.eq_dec c (Feed.consumers s)) eqn:Hrem.
    + destruct (Feed.open_subject s) as [g|].
      * destruct Hwf as (_ & _ & Hu & Hl & _).
        unfold Feed.teardown. cbn. rewrite Hu. cbn. rewrite Hl. cbn.
        destruct (Nat.eq_dec g g); [now split|congruence].
      * destruct Hwf as [Hc _]. rewrite Hc in Hin. now apply elem_of_nil in Hin.
    + cbn. destruct (Feed.open_subject s).
      * destruct Hwf as (_ & ? & ? & ? & ?). repeat split; auto.
      * destruct Hwf as [Hc _]. rewrite Hc in Hin. now apply elem_of_nil in Hin.
  - destruct (bool_decide _); exact Hwf.
  - destruct (Feed.on_error L); [|exact Hwf].
    destruct (bool_decide_reflect (Feed.open_subject s = Some g)) as [Hopen|];
      [|exact Hwf].
    unfold feed_wf in *.
    rewrite Hopen in Hwf. destruct Hwf as (_ & _ & Hu & Hl & _).
    unfold Feed.teardown. rewrite Hu. cbn. rewrite Hl. cbn.
    destruct (Nat.eq_dec g g); [now split|congruence].
Qed.

Lemma feed_wf_reachable s : Feed.reachable L s -> feed_wf s.
Proof. induction 1; [apply feed_wf_idle|now apply feed_wf_step]. Qed.

(** With no consumer left and none arriving, nothing is emitted. *)
Lemma feed_silent_run s late :
  Feed.consumers s = [] -> Feed.open_subject s = None ->
  Forall (fun ev => Feed.is_subscribe ev = false) late ->
  silent (snd (Feed.run L s late)).
Proof.
  intros Hc Ho Hlate. revert s Hc Ho.
  induction Hlate as [|ev late Hev _ IH]; intros s Hc Ho; [constructor|].
  cbn [Feed.run].
  assert (Hstep : Feed.consumers (fst (Feed.step L s ev)) = [] /\
                  Feed.open_subject (fst (Feed.step L s ev)) = None /\
                  silent (snd (Feed.step L s ev))).
  { destruct ev as [c|c|g n|g e]; cbn [Feed.step]; [discriminate| | |].
    - rewrite Hc. rewrite bool_decide_eq_false_2 by apply not_elem_of_nil.
      repeat split; auto. constructor.
    - rewrite Ho. rewrite bool_decide_eq_false_2 by discriminate.
      repeat split; auto. constructor.
    - destruct (Feed.on_error L); [|repeat split; auto; constructor].
      rewrite Ho. rewrite bool_decide_eq_false_2 by discriminate.
      repeat split; auto. repeat constructor. }
  destruct (Feed.step L s ev) as [s1 out1]. cbn [fst snd] in Hstep.
  destruct Hstep as (Hc1 & Ho1 & Hsilent1).
  specialize (IH s1 Hc1 Ho1).
  destruct (Feed.run L s1 late) as [s2 out2]. cbn [snd] in *.
  apply Forall_app. now split.
Qed.

Lemma feed_newer_step k s ev :
  feed_newer k s -> feed_newer k (fst (Feed.step L s ev)).
Proof.
  intros [Hk Hopen]. destruct ev as [c|c|g n|g e]; cbn [Feed.step].
  - destruct (Feed.failed s); [now split|].
    destruct (bool_decide _); [now split|].
    destruct (Feed.consumers s); (split; cbn; [lia|]); [|exact Hopen].
    intros g Hg. inversion Hg; subst. exact Hk.
  - destruct (bool_decide _); [|now split].
    cbn. destruct (List.remove _ _ _); [|now split].
    unfold Feed.teardown. cbn.
    destruct (Feed.unsub s); (split; cbn; [exact Hk|discriminate]).
  - destruct (bool_decide _); now split.
  - destruct (Feed.on_error L); [|now split].
    destruct (bool_decide _); [|now split].
    unfold Feed.teardown.
    destruct (Feed.unsub s); (split; cbn; [exact Hk|discriminate]).
Qed.

Lemma feed_newer_run k s evs :
  feed_newer k s -> feed_newer k (fst (Feed.run L s evs)).
Proof.
  revert s. induction evs as [|ev rest IH]; intros s Hs; [exact Hs|].
  cbn [Feed.run]. pose proof (feed_newer_step k s ev Hs) as H1.
  destruct (Feed.step L s ev) as [s1 out1]. cbn [fst] in H1.
  specialize (IH s1 H1). now destruct (Feed.run L s1 rest).
Qed.

(** The [next] callback of a listener made before the [k]-th comes too
    late for a feed whose open subject is newer. *)
Lemma feed_late_callback k s g n :
  feed_newer k s -> g < k ->
  snd (Feed.step L s (Feed.BackendNext g n)) = [].
Proof.
  intros [_ Hopen] Hg. cbn [Feed.step].
  destruct (bool_decide_reflect (Feed.open_subject s = Some g)) as [Ho|];
    [|reflexivity].
  apply Hopen in Ho. lia.
Qed.

(** C7. When the last consumer of a feed unsubscribes, that very step asks
    the backend to remove the listener; from then on, whatever callbacks
    the backend still fires, no consumer is given anything until one
    subscribes again, and the [next] callback of the removed listener never
    again reaches a consumer, whatever happens to the feed later. *)
Theorem last_unsubscribe_tears_down_and_silences s (c : nat) :
  Feed.reachable L s ->
  Feed.consumers s = [c] ->
  exists g,
    Feed.listeners s = [g] /\
    snd (Feed.step L s (Feed.Unsubscribe c)) = [Feed.Unsub g] /\
    Feed.listeners (fst (Feed.step L s (Feed.Unsubscribe c))) = [] /\
    (forall late,
       Forall (fun ev => Feed.is_subscribe ev = false) late ->
       silent (snd (Feed.run L (fst (Feed.step L s (Feed.Unsubscribe c))) late))) /\
    (forall later n,
       snd (Feed.step L
              (fst (Feed.run L (fst (Feed.step L s (Feed.Unsubscribe c))) later))
              (Feed.BackendNext g n)) = []).
Proof.
  intros Hreach Hcons. pose proof (feed_wf_reachable s Hreach) as Hwf.
  unfold feed_wf in Hwf. destruct (Feed.open_subject s) as [g|] eqn:Hopen.
  2: { destruct Hwf as [Hnil _]. congruence. }
  destruct Hwf as (_ & _ & Hu & Hl & Hg). exists g.
  assert (Hstep : Feed.step L s (Feed.Unsubscribe c) =
            ({| Feed.consumers := []; Feed.failed := Feed.failed s;
                Feed.subjects := Feed.subjects s; Feed.open_subject := None;
                Feed.unsub := Some g; Feed.listeners := [] |},
             [Feed.Unsub g])).
  { cbn [Feed.step]. rewrite Hcons.
    rewrite bool_decide_eq_true_2 by apply list_elem_of_here.
    cbn. destruct (Nat.eq_dec c c); [|congruence]. cbn.
    unfold Feed.teardown. cbn. rewrite Hu, Hl. cbn.
    destruct (Nat.eq_dec g g); [reflexivity|congruence]. }
  rewrite Hstep. cbn [fst snd].
  split; [exact Hl|]. split; [reflexivity|]. split; [reflexivity|]. split.
  - intros late Hlate. now apply feed_silent_run.
  - intros later n. apply (feed_late_callback (Feed.subjects s)); [|exact Hg].
    apply feed_newer_run. split; [reflexivity|]. discriminate.
Qed.
End FeedFacts.

Lemma last_unsubscribe_tears_down_and_silences_witness :
  Feed.reachable (FbDataStore_watch (browser_store permissive) "users/u1")
    (fst (Feed.step (FbDataStore_watch (browser_store permissive) "users/u1")
            Feed.idle (Feed.Subscribe 1))) /\
  Feed.consumers
    (fst (Feed.step (FbDataStore_watch (browser_store permissive) "users/u1")
            Feed.idle (Feed.Subscribe 1))) = [1] /\
  exists g,
    Feed.listeners
      (fst (Feed.step (FbDataStore_watch (browser_store permissive) "users/u1")
              Feed.idle (Feed.Subscribe 1))) = [g] /\
    snd (Feed.step (FbDataStore_watch (browser_store permissive) "users/u1")
           (fst (Feed.step (FbDataStore_watch (browser_store permissive) "users/u1")
                   Feed.idle (Feed.Subscribe 1)))
           (Feed.Unsubscribe 1)) = [Feed.Unsub g].
Proof.
  assert (Hreach :
    Feed.reachable (FbDataStore_watch (browser_store permissive) "users/u1")
      (fst (Feed.step (FbDataStore_watch (browser_store permissive) "users/u1")
              Feed.idle (Feed.Subscribe 1)))).
  { apply Feed.reachable_step, Feed.reachable_idle. }
  split; [exact Hreach|]. split; [reflexivity|].
  destruct (last_unsubscribe_tears_down_and_silences
              (FbDataStore_watch (browser_store permissive) "users/u1")
              _ 1 Hreach eq_refl) as (g & Hl & Hout & _).
  exists g. split; [exact Hl|exact Hout].
Defined.

(** ** The catch blocks *)

(** *** Texts *)

Lemma append_assoc (a b c : string) : (a +:+ b) +:+ c = a +:+ (b +:+ c).
Proof.
  induction a as [|x a IH]; [reflexivity|].
  change (String x ((a +:+ b) +:+ c) = String x (a +:+ (b +:+ c))).
  now rewrite IH.
Qed.

Lemma append_empty_r (a : string) : a +:+ "" = a.
Proof.
  induction a as [|x a IH]; [reflexivity|].
  change (String x (a +:+ "") = String x a). now rewrite IH.
Qed.

Lemma mentions_refl t : mentions t t.
Proof. exists "", "". change (t = t +:+ ""). now rewrite append_empty_r. Qed.

Lemma mentions_prepend a t part : mentions t part -> mentions (a +:+ t) part.
Proof.
  intros (x & y & ->). exists (a +:+ x), y. now rewrite append_assoc.
Qed.

Lemma mentions_append t b part : mentions t part -> mentions (t +:+ b) part.
Proof.
  intros (x & y & ->). exists x, (y +:+ b). now rewrite !append_assoc.
Qed.

Lemma mentions_quoted t part : mentions t part -> mentions (quoted t) part.
Proof. intros H. unfold quoted. now apply mentions_prepend, mentions_append. Qed.

Lemma mentions_concat sep (l : list string) part :
  part ∈ l -> mentions (String.concat sep l) part.
Proof.
  induction l as [|x l IH]; intros Hin; [now apply elem_of_nil in Hin|].
  apply elem_of_cons in Hin as [->|Hin].
  - destruct l; [apply mentions_refl|].
    cbn [String.concat]. apply mentions_append, mentions_refl.
  - destruct l as [|y l]; [now apply elem_of_nil in Hin|].
    change (mentions (x +:+ sep +:+ String.concat sep (y :: l)) part).
    now apply mentions_prepend, mentions_prepend, IH.
Qed.

Lemma mentions_keys_text (l : list string) part :
  part ∈ l -> mentions (keys_text l) part.
Proof.
  intros H. unfold keys_text.
  now apply mentions_prepend, mentions_prepend, mentions_concat.
Qed.

Lemma mentions_fetching :
  mentions "Caught error while fetching content for mirroring from "
    "fetching content for mirroring".
Proof. now exists "Caught error while ", " from ". Qed.

Lemma mentions_mirroring :
  mentions "Caught error while mirroring content from " "mirroring content".
Proof. now exists "Caught error while ", " from ". Qed.

Lemma mentions_creating :
  mentions "Caught error while creating entry in " "creating entry".
Proof. now exists "Caught error while ", " in ". Qed.

Lemma mentions_multi_update :
  mentions "Caught error during multi-update to " "multi-update".
Proof. now exists "Caught error during ", " to ". Qed.

Lemma mentions_tx_create :
  mentions "Caught error during datastore transaction.create("
    "datastore transaction.create(".
Proof. now exists "Caught error during ", "". Qed.

Lemma mentions_tx_read :
  mentions "Caught error during datastore transaction.read("
    "datastore transaction.read(".
Proof. now exists "Caught error during ", "". Qed.

Lemma mentions_tx_update :
  mentions "Caught error during datastore transaction.update("
    "datastore transaction.update(".
Proof. now exists "Caught error during ", "". Qed.

Lemma mentions_tx_set :
  mentions "Caught error during datastore transaction.set("
    "datastore transaction.set(".
Proof. now exists "Caught error during ", "". Qed.

Create HintDb mentions.
#[local] Hint Resolve mentions_refl mentions_prepend mentions_append
  mentions_quoted mentions_keys_text mentions_fetching mentions_mirroring
  mentions_creating mentions_multi_update mentions_tx_create mentions_tx_read
  mentions_tx_update mentions_tx_set : mentions.

(** What [printError] writes, in either binding: the error object, a line
    that holds the name given for the operation, and the payload when one
    is given. *)
Lemma printError_lines_spec b e operationName data :
  ErrorObject e ∈ printError_lines b e operationName data /\
  (exists t, Text t ∈ printError_lines b e operationName data /\
             mentions t operationName) /\
  (forall d, data = Some d ->
             DataObject (Some d) ∈ printError_lines b e operationName data).
Proof.
  destruct b; cbn [printError_lines].
  - split; [|split].
    + apply elem_of_app. left. do 2 apply list_elem_of_further.
      apply list_elem_of_here.
    + eexists. split.
      * apply elem_of_app. left. apply list_elem_of_here.
      * auto 6 with mentions.
    + intros d ->. apply elem_of_app. right.
      apply list_elem_of_further, list_elem_of_here.
  - split; [|split].
    + apply list_elem_of_further, list_elem_of_here.
    + eexists. split; [apply list_elem_of_here|]. auto 6 with mentions.
    + intros d ->. do 6 apply list_elem_of_further. apply list_elem_of_here.
Qed.

(** *** The console only grows *)

Lemma grows_nothing {A} (m : promise A) :
  (forall w, console (snd (m w)) = console w) -> grows m.
Proof. intros H w. exists []. now rewrite H, app_nil_r. Qed.

Lemma grows_ret {A} (a : A) : grows (ret a).
Proof. now apply grows_nothing. Qed.

Lemma grows_throw {A} e : grows (@throw A e).
Proof. now apply grows_nothing. Qed.

Lemma grows_console_out lines : grows (console_out lines).
Proof. intros w. now exists lines. Qed.

Lemma grows_bind {A B} (m : promise A) (k : A -> promise B) :
  grows m -> (forall a, grows (k a)) -> grows (bind m k).
Proof.
  intros Hm Hk w. unfold bind. destruct (Hm w) as [l1 H1].
  destruct (m w) as [[a|e] w1]; cbn [snd] in *; [|now exists l1].
  destruct (Hk a w1) as [l2 H2]. exists (l1 ++ l2).
  now rewrite H2, H1, app_assoc.
Qed.

Lemma grows_try_catch {A} (m : promise A) (h : error -> promise A) :
  grows m -> (forall e, grows (h e)) -> grows (try_catch m h).
Proof.
  intros Hm Hh w. unfold try_catch. destruct (Hm w) as [l1 H1].
  destruct (m w) as [[a|e] w1]; cbn [snd] in *; [now exists l1|].
  destruct (Hh e w1) as [l2 H2]. exists (l1 ++ l2).
  now rewrite H2, H1, app_assoc.
Qed.

Lemma grows_promise_all {A} (tasks : list (promise A)) :
  Forall grows tasks -> grows (promise_all tasks).
Proof.
  induction 1 as [|t rest Ht _ IH]; [apply grows_ret|].
  intros w. cbn [promise_all]. destruct (Ht w) as [l1 H1].
  destruct (t w) as [[a|e] w1]; cbn [snd] in *;
    destruct (IH w1) as [l2 H2];
    destruct (promise_all rest w1) as [[r|e'] w2]; cbn [snd] in *;
    exists (l1 ++ l2); now rewrite H2, H1, app_assoc.
Qed.

Lemma grows_map {A X} (f : X -> promise A) (l : list X) :
  (forall x, grows (f x)) -> Forall grows (map f l).
Proof. intros H. induction l; constructor; auto. Qed.

Lemma grows_runTransaction {A} fs (m : promise A) :
  grows m -> grows (runTransaction fs m).
Proof.
  intros Hm w. unfold runTransaction. destruct (Hm (set_staged [] w)) as [l H].
  destruct (m _) as [[a|e] w1]; cbn [snd console set_staged] in *.
  - destruct (deny fs _); [now exists l|].
    destruct (apply_writes _ _); now exists l.
  - now exists l.
Qed.

Ltac grows_request :=
  apply grows_nothing; intros ?;
  unfold doc_get, doc_set, doc_delete, new_doc_ref, col_add, query_get,
    txn_get, txn_stage, record_id, issue;
  step_promise;
  repeat match goal with |- context [deny ?fs ?op] => destruct (deny fs op) end;
  reflexivity.

Lemma grows_deref l : grows (deref l).
Proof. grows_request. Qed.

Lemma grows_assign_id l id : grows (assign_id l id).
Proof. grows_request. Qed.

Lemma grows_record_id l : grows (record_id l).
Proof. grows_request. Qed.

Lemma grows_doc_get fs r : grows (doc_get fs r).
Proof. grows_request. Qed.

Lemma grows_doc_set fs r d merge : grows (doc_set fs r d merge).
Proof. grows_request. Qed.

Lemma grows_col_add fs c d : grows (col_add fs c d).
Proof. grows_request. Qed.

Lemma grows_new_doc_ref fs c : grows (new_doc_ref fs c).
Proof. grows_request. Qed.

Lemma grows_txn_get fs r : grows (txn_get fs r).
Proof. grows_request. Qed.

Lemma grows_txn_stage fs wr object : grows (txn_stage fs wr object).
Proof. grows_request. Qed.

Lemma grows_payload_fields x : grows (payload_fields x).
Proof. destruct x; [apply grows_deref|apply grows_ret]. Qed.

Ltac grows_steps :=
  unfold handleError, printError;
  repeat first
    [ apply grows_ret | apply grows_throw | apply grows_console_out
    | apply grows_deref | apply grows_payload_fields
    | apply grows_assign_id | apply grows_record_id
    | apply grows_doc_get | apply grows_doc_set | apply grows_col_add
    | apply grows_new_doc_ref | apply grows_txn_get | apply grows_txn_stage
    | apply grows_runTransaction
    | apply grows_promise_all; apply grows_map; intros ?
    | apply grows_try_catch; [|intros ?]
    | apply grows_bind; [|intros ?]
    | match goal with |- grows (match ?x with _ => _ end) => destruct x end ].

Lemma grows_FbTransaction_create txn c data :
  grows (FbTransaction_create txn c data).
Proof. unfold FbTransaction_create. grows_steps. Qed.

Lemma grows_FbTransaction_read txn p : grows (FbTransaction_read txn p).
Proof. unfold FbTransaction_read. grows_steps. Qed.

Lemma grows_FbTransaction_set txn p d : grows (FbTransaction_set txn p d).
Proof. unfold FbTransaction_set. grows_steps. Qed.

Lemma grows_mirrorInTransaction this txn pk keys data :
  grows (FbDataStore_mirrorInTransaction this txn pk keys data).
Proof.
  unfold FbDataStore_mirrorInTransaction.
  apply grows_bind.
  - apply grows_try_catch; [|intros e; grows_steps].
    destruct data; [grows_steps|].
    apply grows_bind; [apply grows_FbTransaction_read|intros ?; apply grows_ret].
  - intros [d|]; [|apply grows_throw].
    apply grows_try_catch; [|intros e; grows_steps].
    apply grows_bind; [|intros ?; apply grows_ret].
    apply grows_promise_all, grows_map. intros key.
    apply grows_FbTransaction_set.
Qed.

Lemma grows_createAndMirror_transaction this c data keys :
  grows (createAndMirror_transaction this c data keys).
Proof.
  unfold createAndMirror_transaction, FbDataStore_transact.
  apply grows_runTransaction. apply grows_bind.
  - apply grows_try_catch; [apply grows_FbTransaction_create|].
    intros e. grows_steps.
  - intros r. apply grows_bind; [apply grows_record_id|]. intros id.
    apply grows_bind; [apply grows_mirrorInTransaction|].
    intros _. apply grows_ret.
Qed.

Lemma grows_FbDataStore_update this p data :
  grows (FbDataStore_update this p data).
Proof. unfold FbDataStore_update. grows_steps. Qed.

(** *** Fan-outs *)

(** A fan-out of tasks that leave the heap alone leaves it alone. *)
Lemma fan_out_heap {A X} (f : X -> promise A) (h : gmap loc doc) (l : list X) :
  (forall y w, heap w = h -> heap (snd (f y w)) = h) ->
  forall w, heap w = h -> heap (snd (promise_all (map f l) w)) = h.
Proof.
  intros Hf. induction l as [|y l IH]; intros w Hw; [exact Hw|].
  cbn [map promise_all]. pose proof (Hf y w Hw) as H1.
  destruct (f y w) as [[a|e] w1]; cbn [snd] in *.
  - pose proof (IH w1 H1) as H2.
    now destruct (promise_all (map f l) w1) as [[r|e] w2].
  - now apply IH.
Qed.

(** It rejects with the error of the first task that rejects. *)
Lemma fan_out_rejects {A X} (f : X -> promise A) (h : gmap loc doc)
    before x after e :
  (forall y w, heap w = h -> heap (snd (f y w)) = h) ->
  (forall y w, heap w = h -> y ∈ before -> exists a, fst (f y w) = Resolved a) ->
  (forall w, heap w = h -> fst (f x w) = Rejected e) ->
  forall w, heap w = h ->
    fst (promise_all (map f (before ++ x :: after)) w) = Rejected e.
Proof.
  intros Hheap Hbefore Hx.
  induction before as [|y before IH]; intros w Hw; cbn [app map promise_all].
  - pose proof (Hx w Hw) as H1. destruct (f x w) as [[a|e'] w1]; cbn in H1.
    + discriminate.
    + now inversion H1.
  - destruct (Hbefore y w Hw (list_elem_of_here _ _)) as [a Ha].
    pose proof (Hheap y w Hw) as H1.
    destruct (f y w) as [[a'|e'] w1]; cbn [fst snd] in *; [|discriminate].
    assert (H2 : fst (promise_all (map f (before ++ x :: after)) w1)
                 = Rejected e).
    { apply IH; [|exact H1]. intros z w' Hw' Hz.
      apply Hbefore; [exact Hw'|now apply list_elem_of_further]. }
    destruct (promise_all _ w1) as [[r|e''] w2]; cbn [fst] in *;
      [discriminate|exact H2].
Qed.

Lemma doc_set_run fs r d merge w :
  doc_set fs r d merge w =
    match deny fs (BSet (ref_path r) d merge) with
    | None =>
        (Resolved tt,
         set_docs
           (<[ref_path r := write_doc merge d (docs w !! ref_path r)]> (docs w))
           (set_trace (trace w ++ [BSet (ref_path r) d merge]) w))
    | Some e =>
        (Rejected e, set_trace (trace w ++ [BSet (ref_path r) d merge]) w)
    end.
Proof.
  unfold doc_set, issue. step_promise. now destruct (deny fs _).
Qed.

(** *** The blocks *)

Ltac in_list :=
  repeat first [apply list_elem_of_here | apply list_elem_of_further].

Ltac printed :=
  split; [in_list|];
  split;
  [ eexists; split; [in_list|]; split; eauto 10 with mentions
  | intros ? Hd; inversion Hd; subst; in_list ].

Ltac not_in_list :=
  let Hin := fresh "Hin" in
  intros Hin;
  repeat (apply elem_of_cons in Hin as [Hin|Hin]; [discriminate|]);
  now apply elem_of_nil in Hin.

Ltac printed_without_payload :=
  split; [in_list|];
  split;
  [ eexists; split; [in_list|]; split; eauto 10 with mentions
  | intros ? _ ?; not_in_list ].

Ltac printed_after :=
  split; [apply elem_of_app; right; in_list|];
  split;
  [ eexists; split; [apply elem_of_app; right; in_list|];
    split; eauto 10 with mentions
  | intros ? Hd; inversion Hd; subst; apply elem_of_app; right; in_list ].

Ltac rejected_after l0 Hl0 :=
  eexists _, (l0 ++ _); split; [reflexivity|];
  split; [cbn [console set_console]; now rewrite Hl0, <- app_assoc|].

Ltac rejected :=
  eexists _, _; split; [reflexivity|]; split; [reflexivity|].

(** C6. In every catch block of the two classes, when the client raises
    [e] in the try block the call rejects with [e] itself, after printing
    the error object and a line that names the operation and the path.
    The payload of the call is printed too, except by the block of
    [update]: that one prints no payload at all. *)
Theorem catch_blocks_log_and_rethrow this blk w e :
  block_raises this blk w e ->
  exists w' lines,
    block_call this blk w = (Rejected e, w') /\
    console w' = console w ++ lines /\
    ErrorObject e ∈ lines /\
    (exists t, Text t ∈ lines /\
               mentions t (block_label (flavour this) blk) /\
               mentions t (block_path blk)) /\
    (forall d, block_payload this blk w = Some d ->
       match blk with
       | InUpdate _ _ => forall d', DataObject (Some d') ∉ lines
       | _ => DataObject (Some d) ∈ lines
       end).
Proof.
  destruct this as [b fs].
  destruct blk;
    cbn [block_raises block_call block_label block_path block_payload
         flavour firestore store]; unfold object_at; intros H.
  - unfold FbDataStore_set, doc_set, issue. step_promise. rewrite H.
    destruct b; simpl; rejected; printed.
  - unfold FbDataStore_create, col_add, new_doc_ref, issue. step_promise.
    rewrite H. destruct b; simpl; rejected; printed.
  - unfold FbDataStore_read, doc_get, issue. step_promise. rewrite H.
    destruct b; simpl; rejected; printed.
  - unfold FbDataStore_listAll, query_get, issue. step_promise. rewrite H.
    destruct b; simpl; rejected; printed.
  - unfold FbDataStore_update, doc_set, issue. step_promise. rewrite H.
    destruct b; simpl; rejected; printed_without_payload.
  - unfold FbDataStore_delete, doc_delete, issue. step_promise. rewrite H.
    destruct b; simpl; rejected; printed.
  - unfold FbTransaction_create, txn_stage, new_doc_ref, issue. step_promise.
    rewrite H. destruct b; simpl; rejected; printed.
  - unfold FbTransaction_read, txn_get, issue.
    destruct b; step_promise; rewrite H; simpl; rejected; printed.
  - unfold FbTransaction_update, txn_stage, issue. step_promise.
    rewrite H. destruct b; simpl; rejected; printed.
  - unfold FbTransaction_set, txn_stage, issue. step_promise.
    rewrite H. destruct b; simpl; rejected; printed.
  - destruct H as [-> H].
    unfold FbTransaction_delete, txn_stage, issue. step_promise.
    rewrite H. simpl; rejected; printed.
  - unfold FbDataStore_mirror, doc_get, issue. step_promise. rewrite H.
    simpl; rejected; printed.
  - destruct H as (d & Hsource & Hbefore & Hkey).
    unfold FbDataStore_mirror, mirror_source, object_at in *.
    assert (Hfan : forall w0, 
      fst (promise_all (map (fun ref => doc_set fs ref d false)
                         (map DocRef (before ++ key :: after))) w0) = Rejected e).
    { intros w0. rewrite map_map.
      apply (fan_out_rejects (fun k => doc_set fs (DocRef k) d false) (heap w0)).
      - intros y w1 Hw1. rewrite doc_set_run.
        match goal with |- context [deny fs ?op] => destruct (deny fs op) end;
          exact Hw1.
      - intros y w1 _ Hy. rewrite doc_set_run. cbn [DocRef ref_path].
        rewrite (Hbefore y Hy). now eexists.
      - intros w1 _. rewrite doc_set_run. cbn [DocRef ref_path].
        now rewrite Hkey.
      - reflexivity. }
    assert (Hgrows : grows (promise_all (map (fun ref => doc_set fs ref d false)
                         (map DocRef (before ++ key :: after))))).
    { apply grows_promise_all, grows_map. intros. apply grows_doc_set. }
    destruct data as [l|].
    + inversion Hsource; subst d. step_promise.
      specialize (Hfan w). destruct (Hgrows w) as [l0 Hl0].
      destruct (promise_all _ w) as [[r|e'] w1]; cbn [fst snd] in *;
        [discriminate|]. inversion Hfan; subst e'.
      rejected_after l0 Hl0. unfold mirror_failed. printed_after.
    + destruct (deny fs (BGet primaryKey)) eqn:Hget; [discriminate|].
      unfold doc_get, issue. step_promise. rewrite Hget. simpl.
      rewrite Hsource.
      set (w0 := set_trace _ w).
      specialize (Hfan w0). destruct (Hgrows w0) as [l0 Hl0].
      destruct (promise_all _ w0) as [[r|e'] w1]; cbn [fst snd] in *;
        [discriminate|]. inversion Hfan; subst e'.
      rejected_after l0 Hl0. unfold mirror_failed. printed_after.
  - unfold FbDataStore_mirrorInTransaction, FbTransaction_read, txn_get, issue.
    destruct b; step_promise; rewrite H; simpl;
      (eexists _, _; split; [reflexivity|];
       split; [cbn; now rewrite <- app_assoc|]);
      unfold fetch_failed; printed_after.
  - destruct H as (d & Hsource & Hbefore & Hkey).
    unfold FbDataStore_mirrorInTransaction, mirror_source in *.
    set (txn := {| store := {| flavour := b; firestore := fs |} |}).
    assert (Hheap : forall x k w1,
      heap w1 = heap w -> heap (snd (FbTransaction_set txn k x w1)) = heap w).
    { intros x k w1 Hw1. rewrite FbTransaction_set_run.
      match goal with |- context [deny ?c ?op] => destruct (deny c op) end;
        exact Hw1. }
    assert (Hfan : forall x w0, heap w0 = heap w -> fields_at w x = d ->
      fst (promise_all (map (fun k => FbTransaction_set txn k x)
                         (before ++ key :: after)) w0) = Rejected e /\
      heap (snd (promise_all (map (fun k => FbTransaction_set txn k x)
                                (before ++ key :: after)) w0)) = heap w).
    { intros x w0 Hw0 Hx. split.
      - apply (fan_out_rejects (fun k => FbTransaction_set txn k x) (heap w));
          [intros; now apply Hheap| | |exact Hw0].
        + intros y w1 Hw1 Hy. rewrite FbTransaction_set_run.
          cbn [txn store firestore].
          rewrite (fields_at_heap w1 w x Hw1), Hx, (Hbefore y Hy). now eexists.
        + intros w1 Hw1. rewrite FbTransaction_set_run.
          cbn [txn store firestore].
          now rewrite (fields_at_heap w1 w x Hw1), Hx, Hkey.
      - apply (fan_out_heap (fun k => FbTransaction_set txn k x) (heap w));
          [intros; now apply Hheap|exact Hw0]. }
    assert (Hgrows : forall x,
      grows (promise_all (map (fun k => FbTransaction_set txn k x)
                            (before ++ key :: after)))).
    { intros x. apply grows_promise_all, grows_map. intros.
      apply grows_FbTransaction_set. }
    destruct data as [l|].
    + inversion Hsource; subst d. step_promise.
      destruct (Hfan (Held l) w eq_refl eq_refl) as [Hfst Hsnd].
      destruct (Hgrows (Held l) w) as [l0 Hl0].
      destruct (promise_all _ w) as [[r|e'] w1]; cbn [fst snd] in *;
        [discriminate|]. inversion Hfst; subst e'. rewrite Hsnd.
      rejected_after l0 Hl0. unfold mirror_failed, object_at. printed_after.
    + destruct (deny fs (BTxGet primaryKey)) eqn:Hget; [discriminate|].
      unfold FbTransaction_read, txn_get, issue.
      destruct b; step_promise; rewrite Hget; simpl; rewrite Hsource;
        cbn [fmap option_fmap option_map];
        match goal with |- context [promise_all ?t ?w0] =>
          destruct (Hfan (Fresh d) w0 eq_refl eq_refl) as [Hfst _];
          destruct (Hgrows (Fresh d) w0) as [l0 Hl0];
          destruct (promise_all t w0) as [[r|e'] w1]
        end; cbn [fst snd] in *; try discriminate;
        inversion Hfst; subst e';
        rejected_after l0 Hl0; unfold mirror_failed; printed_after.
  - unfold FbDataStore_createAndMirror, createAndMirror_transaction,
      FbDataStore_transact, runTransaction.
    unfold bind at 1 2 3. unfold try_catch at 1.
    rewrite FbTransaction_create_run.
    cbn [store firestore flavour set_staged heap drawn]. rewrite H.
    destruct b; step_promise;
      (eexists _, _; split; [reflexivity|];
       split; [cbn; now rewrite <- app_assoc|]);
      unfold create_failed; printed_after.
  - destruct H as [[r Hr] Hadd].
    unfold FbDataStore_createAndMirror.
    destruct (grows_createAndMirror_transaction
                {| flavour := b; firestore := fs |} collectionPath data
                mirrorKeys w) as [l0 Hl0].
    destruct (createAndMirror_transaction _ _ _ _ w) as [[r'|e'] w1] eqn:Htxn;
      cbn [fst snd] in *; [|discriminate].
    unfold bind at 1 2. rewrite Htxn. unfold bind at 1. unfold try_catch at 1.
    rewrite FbDataStore_create_run. cbn [firestore flavour]. rewrite Hadd.
    lazy beta iota zeta delta [bind deref console_out modify throw set_console].
    cbn [heap console].
    eexists _, (l0 ++ printError_lines _ _ _ _ ++ create_failed _ _ _ _).
    split; [reflexivity|].
    split; [cbn [console]; rewrite Hl0, <- !app_assoc; reflexivity|].
    unfold create_failed.
    split; [apply elem_of_app; right; apply elem_of_app; right; in_list|].
    split.
    + eexists. split; [apply elem_of_app; right; apply elem_of_app; right; in_list|].
      split; eauto 10 with mentions.
    + intros ? Hd; inversion Hd; subst.
      apply elem_of_app; right; apply elem_of_app; right; in_list.
  - destruct H as [Hbefore Hp].
    assert (Hin : docPath ∈ before ++ docPath :: after).
    { apply elem_of_app. right. apply list_elem_of_here. }
    pose proof (updates_first_rejection {| flavour := b; firestore := fs |}
                  before docPath after data e w Hbefore Hp) as Hfst.
    destruct (updates_fan_out {| flavour := b; firestore := fs |}
                (before ++ docPath :: after) data w) as [Hheap _].
    assert (Hgrows : grows (promise_all
              (map (fun path => FbDataStore_update
                                  {| flavour := b; firestore := fs |} path data)
                 (before ++ docPath :: after)))).
    { apply grows_promise_all, grows_map. intros.
      apply grows_FbDataStore_update. }
    unfold FbDataStore_multiUpdate. step_promise.
    destruct (Hgrows w) as [l0 Hl0].
    destruct (promise_all _ w) as [[r|e'] w1]; cbn [fst snd] in *;
      [discriminate|]. inversion Hfst; subst e'. rewrite Hheap.
    rejected_after l0 Hl0. unfold multiUpdate_failed. printed_after.
Qed.


Lemma catch_blocks_log_and_rethrow_witness :
  block_raises (browser_store (deny_writes_to "users/u1"))
    (InUpdate "users/u1" 7) (new_world heap_A no_docs) permission_denied /\
  exists w' lines,
    block_call (browser_store (deny_writes_to "users/u1"))
      (InUpdate "users/u1" 7) (new_world heap_A no_docs)
    = (Rejected permission_denied, w') /\
    console w' = console (new_world heap_A no_docs) ++ lines /\
    ErrorObject permission_denied ∈ lines /\
    (exists t, Text t ∈ lines /\
               mentions t "datastore.update(" /\ mentions t "users/u1") /\
    (forall d, Some (object_at (new_world heap_A no_docs) 7) = Some d ->
               forall d', DataObject (Some d') ∉ lines).
Proof.
  split; [reflexivity|].
  apply (catch_blocks_log_and_rethrow
           (browser_store (deny_writes_to "users/u1")) (InUpdate "users/u1" 7)
           (new_world heap_A no_docs) permission_denied).
  reflexivity.
Defined.


(** * Further properties *)

(** ** Paths *)

Lemma has_slash_cons x s :
  has_slash (String x s) = false -> x <> "/"%char /\ has_slash s = false.
Proof.
  unfold has_slash. cbn [String.list_ascii_of_string].
  intros H. apply bool_decide_eq_false in H.
  apply not_elem_of_cons in H as [Hx Hs]. split; [congruence|].
  now apply bool_decide_eq_false.
Qed.

Lemma last_segment_from_no_slash acc s :
  has_slash s = false -> last_segment_from acc s = acc +:+ s.
Proof.
  revert acc. induction s as [|x s IH]; intros acc Hs; cbn [last_segment_from].
  - now rewrite append_empty_r.
  - apply has_slash_cons in Hs as [Hx Hs].
    destruct (Ascii.eqb_spec x "/"); [congruence|].
    rewrite (IH _ Hs). now rewrite append_assoc.
Qed.

Lemma last_segment_from_child acc c id :
  last_segment_from acc (child_path c id) = last_segment_from "" id.
Proof.
  unfold child_path. revert acc. induction c as [|x c IH]; intros acc.
  - reflexivity.
  - change (String x c +:+ "/" +:+ id) with (String x (c +:+ "/" +:+ id)).
    cbn [last_segment_from]. destruct (Ascii.eqb x "/"); apply IH.
Qed.

(** The id of [doc(`${collectionPath}/${id}`)] is [id]. *)
Lemma last_segment_child c id :
  has_slash id = false -> last_segment (child_path c id) = id.
Proof.
  intros H. unfold last_segment.
  now rewrite last_segment_from_child, last_segment_from_no_slash.
Qed.

(** ** Round trips through the facade *)

Lemma FbDataStore_read_run this docPath w :
  FbDataStore_read this docPath w =
    match deny (firestore this) (BGet docPath) with
    | None =>
        (Resolved
           ((fun t : doc => <["id" := VStr (last_segment docPath)]> t)
              <$> docs w !! docPath),
         set_trace (trace w ++ [BGet docPath]) w)
    | Some e =>
        (Rejected e,
         set_console
           (console w ++
            printError_lines (flavour this) e
              (match flavour this with
               | Browser => "datastore.read(" +:+ quoted docPath +:+ ")"
               | Server => "datastore.read(" +:+ quoted docPath +:+ ", ...)"
               end) None)
           (set_trace (trace w ++ [BGet docPath]) w))
    end.
Proof.
  unfold FbDataStore_read, doc_get, issue. step_promise.
  destruct (deny _ _); [reflexivity|]. simpl.
  now destruct (docs w !! docPath).
Qed.

Lemma FbDataStore_set_run this docPath data w :
  let o := default ∅ (heap w !! data) in
  FbDataStore_set this docPath data w =
    match deny (firestore this) (BSet docPath o false) with
    | None =>
        (Resolved tt,
         set_docs (<[docPath := o]> (docs w))
           (set_trace (trace w ++ [BSet docPath o false]) w))
    | Some e =>
        (Rejected e,
         set_console
           (console w ++
            printError_lines (flavour this) e
              ("datastore.set(" +:+ quoted docPath +:+ ", ...)") (Some o))
           (set_trace (trace w ++ [BSet docPath o false]) w))
    end.
Proof.
  intros o. unfold FbDataStore_set, doc_set, issue. step_promise. fold o.
  now destruct (deny _ _).
Qed.

Lemma FbDataStore_delete_run this docPath w :
  FbDataStore_delete this docPath w =
    match deny (firestore this) (BDelete docPath) with
    | None =>
        (Resolved tt,
         set_docs (delete docPath (docs w))
           (set_trace (trace w ++ [BDelete docPath]) w))
    | Some e =>
        (Rejected e,
         set_console
           (console w ++
            printError_lines (flavour this) e
              ("datastore.delete(" +:+ quoted docPath +:+ ")") None)
           (set_trace (trace w ++ [BDelete docPath]) w))
    end.
Proof.
  unfold FbDataStore_delete, doc_delete, issue. step_promise.
  now destruct (deny _ _).
Qed.

(** X1. A document just created reads back as the caller's fields with the
    generated id: [read] of [`${collectionPath}/${id}`] resolves with the
    object given to [create] plus [id], which is also what the returned
    record now holds. *)
Theorem create_then_read this collectionPath (data : loc) (o : doc) w r w1 :
  let id := auto_id (firestore this) (drawn w) in
  heap w !! data = Some o ->
  has_slash id = false ->
  FbDataStore_create this collectionPath data w = (Resolved r, w1) ->
  deny (firestore this) (BGet (child_path collectionPath id)) = None ->
  exists w2,
    FbDataStore_read this (child_path collectionPath id) w1
      = (Resolved (Some (<["id" := VStr id]> o)), w2) /\
    heap w2 !! r = Some (<["id" := VStr id]> o).
Proof.
  intros id Ho Hid Hcreate Hget.
  rewrite FbDataStore_create_run in Hcreate. rewrite Ho in Hcreate.
  cbn [default from_option id] in Hcreate. fold id in Hcreate.
  destruct (deny _ (BAdd _ _ _)); inversion Hcreate; subst r w1; clear Hcreate.
  rewrite FbDataStore_read_run, Hget. cbn [docs].
  rewrite lookup_insert_eq, (last_segment_child _ _ Hid).
  eexists. split; [reflexivity|]. cbn [heap set_trace]. apply lookup_insert_eq.
Qed.

Lemma create_then_read_witness :
  heap (new_world heap_A no_docs) !! 7 = Some record_A /\
  has_slash "X" = false /\
  deny (firestore (server_store permissive)) (BGet "users/X") = None /\
  exists w2,
    FbDataStore_read (server_store permissive) "users/X"
      (snd (FbDataStore_create (server_store permissive) "users" 7
              (new_world heap_A no_docs)))
    = (Resolved (Some (<["id" := VStr "X"]> record_A)), w2) /\
    heap w2 !! 7 = Some (<["id" := VStr "X"]> record_A).
Proof.
  split; [reflexivity|]. split; [reflexivity|]. split; [reflexivity|].
  apply (create_then_read (server_store permissive) "users" 7 record_A
           (new_world heap_A no_docs) 7); reflexivity.
Defined.

(** X2. [set] overwrites: whatever was stored at the path, a [read] after a
    successful [set] resolves with exactly the fields given, plus the id
    taken from the path. *)
Theorem set_then_read this docPath (data : loc) (o : doc) w w1 :
  heap w !! data = Some o ->
  FbDataStore_set this docPath data w = (Resolved tt, w1) ->
  deny (firestore this) (BGet docPath) = None ->
  fst (FbDataStore_read this docPath w1)
  = Resolved (Some (<["id" := VStr (last_segment docPath)]> o)).
Proof.
  intros Ho Hset Hget.
  rewrite FbDataStore_set_run in Hset. rewrite Ho in Hset.
  cbn [default from_option id] in Hset.
  destruct (deny _ (BSet _ _ _)); inversion Hset; subst w1; clear Hset.
  rewrite FbDataStore_read_run, Hget. cbn [docs set_docs fst].
  now rewrite lookup_insert_eq.
Qed.

Lemma set_then_read_witness :
  heap (new_world heap_x docs_u1) !! 7 = Some record_x /\
  deny (firestore (browser_store permissive)) (BGet "users/u1") = None /\
  fst (FbDataStore_read (browser_store permissive) "users/u1"
         (snd (FbDataStore_set (browser_store permissive) "users/u1" 7
                 (new_world heap_x docs_u1))))
  = Resolved (Some (<["id" := VStr "u1"]> record_x)).
Proof.
  split; [reflexivity|]. split; [reflexivity|].
  apply (set_then_read (browser_store permissive) "users/u1" 7 record_x
           (new_world heap_x docs_u1)); reflexivity.
Defined.

(** X3. [update] merges, and creates the document when there is none: a
    [read] after a successful [update] shows every field given with its new
    value and every other field of the old document as it was. *)
Theorem update_then_read this docPath (data : loc) (o : doc) w w1 :
  heap w !! data = Some o ->
  FbDataStore_update this docPath data w = (Resolved tt, w1) ->
  deny (firestore this) (BGet docPath) = None ->
  exists d : doc,
    fst (FbDataStore_read this docPath w1) = Resolved (Some d) /\
    d !! "id" = Some (VStr (last_segment docPath)) /\
    (forall k v, k <> "id" -> o !! k = Some v -> d !! k = Some v) /\
    (forall k, k <> "id" -> o !! k = None ->
       d !! k = docs w !! docPath ≫= (fun old : doc => old !! k)).
Proof.
  intros Ho Hupdate Hget.
  rewrite FbDataStore_update_run in Hupdate. rewrite Ho in Hupdate.
  cbn [default from_option id] in Hupdate.
  destruct (deny _ (BSet _ _ _)); inversion Hupdate; subst w1; clear Hupdate.
  rewrite FbDataStore_read_run, Hget. cbn [docs fst].
  rewrite lookup_insert_eq. eexists. split; [reflexivity|].
  split; [apply lookup_insert_eq|]. split.
  - intros k v Hk Hv. rewrite lookup_insert_ne by congruence.
    now apply lookup_union_Some_l.
  - intros k Hk Hv. rewrite lookup_insert_ne by congruence.
    rewrite lookup_union_r by exact Hv.
    destruct (docs w !! docPath); [reflexivity|]. apply lookup_empty.
Qed.

Lemma update_then_read_witness :
  heap (new_world heap_x docs_u1) !! 7 = Some record_x /\
  deny (firestore (browser_store permissive)) (BGet "users/u1") = None /\
  exists d : doc,
    fst (FbDataStore_read (browser_store permissive) "users/u1"
           (snd (FbDataStore_update (browser_store permissive) "users/u1" 7
                   (new_world heap_x docs_u1)))) = Resolved (Some d) /\
    d !! "id" = Some (VStr "u1") /\
    (forall k v, k <> "id" -> record_x !! k = Some v -> d !! k = Some v) /\
    (forall k, k <> "id" -> record_x !! k = None ->
       d !! k = docs (new_world heap_x docs_u1) !! "users/u1"
                  ≫= (fun old : doc => old !! k)).
Proof.
  split; [reflexivity|]. split; [reflexivity|].
  apply (update_then_read (browser_store permissive) "users/u1" 7 record_x
           (new_world heap_x docs_u1)); reflexivity.
Defined.

(** X4. After a successful [delete], [read] of the same path resolves with
    nothing ([undefined]); it does not reject and prints nothing. *)
Theorem delete_then_read this docPath w w1 :
  FbDataStore_delete this docPath w = (Resolved tt, w1) ->
  deny (firestore this) (BGet docPath) = None ->
  fst (FbDataStore_read this docPath w1) = Resolved None /\
  console (snd (FbDataStore_read this docPath w1)) = console w.
Proof.
  intros Hdelete Hget.
  rewrite FbDataStore_delete_run in Hdelete.
  destruct (deny _ (BDelete _)); inversion Hdelete; subst w1; clear Hdelete.
  rewrite FbDataStore_read_run, Hget. cbn [docs set_docs fst snd].
  now rewrite lookup_delete_eq.
Qed.

Lemma delete_then_read_witness :
  deny (firestore (server_store permissive)) (BGet "users/u1") = None /\
  fst (FbDataStore_read (server_store permissive) "users/u1"
         (snd (FbDataStore_delete (server_store permissive) "users/u1"
                 (new_world heap_A docs_u1)))) = Resolved None /\
  console (snd (FbDataStore_read (server_store permissive) "users/u1"
                  (snd (FbDataStore_delete (server_store permissive) "users/u1"
                          (new_world heap_A docs_u1)))))
  = console (new_world heap_A docs_u1).
Proof.
  split; [reflexivity|].
  apply (delete_then_read (server_store permissive) "users/u1"
           (new_world heap_A docs_u1)); reflexivity.
Defined.

(** X5. A write the client refuses changes nothing: when [set], [create],
    [update] or [delete] rejects, the documents are as they were and so are
    the caller's objects (a refused [create] assigns no id). *)
Theorem refused_write_changes_nothing this (c : call) w e w' :
  is_single_write c = true ->
  perform this c w = (Rejected e, w') ->
  docs w' = docs w /\ heap w' = heap w.
Proof.
  destruct c; try discriminate; intros _; cbn [perform]; unfold bind.
  - rewrite FbDataStore_set_run.
    destruct (deny _ _); intros H; inversion H; now subst.
  - rewrite FbDataStore_create_run.
    destruct (deny _ _); intros H; inversion H; now subst.
  - rewrite FbDataStore_update_run.
    destruct (deny _ _); intros H; inversion H; now subst.
  - rewrite FbDataStore_delete_run.
    destruct (deny _ _); intros H; inversion H; now subst.
Qed.

Lemma refused_write_changes_nothing_witness :
  is_single_write (CallCreate "users" 7) = true /\
  fst (perform (browser_store (deny_writes_to "users/X")) (CallCreate "users" 7)
         (new_world heap_A docs_u1)) = Rejected permission_denied /\
  docs (snd (perform (browser_store (deny_writes_to "users/X"))
               (CallCreate "users" 7) (new_world heap_A docs_u1)))
  = docs (new_world heap_A docs_u1) /\
  heap (snd (perform (browser_store (deny_writes_to "users/X"))
               (CallCreate "users" 7) (new_world heap_A docs_u1)))
  = heap (new_world heap_A docs_u1).
Proof.
  split; [reflexivity|]. split; [reflexivity|].
  apply (refused_write_changes_nothing
           (browser_store (deny_writes_to "users/X")) (CallCreate "users" 7)
           (new_world heap_A docs_u1) permission_denied).
  - reflexivity.
  - apply surjective_pairing.
Defined.

(** ** Reads *)

Lemma where_chain (q : FbQuery) (filters : list (string * string * value)) :
  _query (foldl (fun q '(f, op, v) => FbQuery_where q f op v) q filters)
  = {| q_collection := q_collection (_query q);
       q_clauses := q_clauses (_query q)
                    ++ map (fun '(f, op, v) => Where f op v) filters |}.
Proof.
  revert q. induction filters as [|[[f op] v] rest IH]; intros q; cbn [foldl map].
  - rewrite app_nil_r. now destruct q as [[]].
  - rewrite IH. cbn [FbQuery_where _query with_clause q_collection q_clauses].
    now rewrite <- app_assoc.
Qed.

Lemma FbQuery_get_run fs (q : FbQuery) w :
  FbQuery_get fs q w =
    match deny fs (BQueryGet (_query q)) with
    | None =>
        (Resolved (map qd_data (run_query fs (_query q) (docs w))),
         set_trace (trace w ++ [BQueryGet (_query q)]) w)
    | Some e => (Rejected e, set_trace (trace w ++ [BQueryGet (_query q)]) w)
    end.
Proof.
  unfold FbQuery_get, query_get, issue. step_promise. now destruct (deny _ _).
Qed.

Lemma FbDataStore_listAll_run this collectionPath params w :
  let q := listAll_query (flavour this) collectionPath params in
  FbDataStore_listAll this collectionPath params w =
    match deny (firestore this) (BQueryGet q) with
    | None =>
        (Resolved
           (map (fun x => <["id" := VStr (qd_id x)]> (qd_data x))
              (run_query (firestore this) q (docs w))),
         set_trace (trace w ++ [BQueryGet q]) w)
    | Some e =>
        (Rejected e,
         set_console
           (console w ++
            printError_lines (flavour this) e
              (match flavour this with
               | Browser => "datastore.listAll(" +:+ quoted collectionPath +:+ ")"
               | Server =>
                   "datastore.listAll(" +:+ quoted collectionPath +:+ ", ...)"
               end) None)
           (set_trace (trace w ++ [BQueryGet q]) w))
    end.
Proof.
  intros q. unfold FbDataStore_listAll, query_get, issue. step_promise. fold q.
  now destruct (deny _ _).
Qed.

(** X6. The reading calls of the facade never write: [read], [listAll] and
    a query's [get] leave every document and every object as they were,
    whether they resolve or reject, and send exactly one request; for a
    query that request carries the [where] filters in the order they were
    chained. *)
Theorem reads_change_nothing this (c : call) w :
  is_read c = true ->
  docs (snd (perform this c w)) = docs w /\
  heap (snd (perform this c w)) = heap w /\
  trace (snd (perform this c w)) = trace w ++ read_request this c.
Proof.
  destruct c; try discriminate; intros _; cbn [perform read_request];
    unfold bind.
  - rewrite FbDataStore_read_run. now destruct (deny _ _).
  - rewrite FbQuery_get_run, where_chain.
    cbn [FbDataStore_query _query collection q_collection q_clauses app].
    now destruct (deny _ _).
  - rewrite FbDataStore_listAll_run. now destruct (deny _ _).
Qed.

Lemma reads_change_nothing_witness :
  is_read (CallQueryGet "users" [("name", "==", VStr "A"); ("x", ">", VNum 1)])
  = true /\
  trace (snd (perform (browser_store permissive)
                (CallQueryGet "users"
                   [("name", "==", VStr "A"); ("x", ">", VNum 1)])
                (new_world heap_A docs_u1)))
  = trace (new_world heap_A docs_u1)
    ++ [BQueryGet {| q_collection := "users";
                     q_clauses := [Where "name" "==" (VStr "A");
                                   Where "x" ">" (VNum 1)] |}].
Proof.
  split; [reflexivity|].
  exact (proj2 (proj2
    (reads_change_nothing (browser_store permissive)
       (CallQueryGet "users" [("name", "==", VStr "A"); ("x", ">", VNum 1)])
       (new_world heap_A docs_u1) eq_refl))).
Defined.

(** The fan-out of [readAll] when every read is answered. *)
Lemma txn_gets_answered fs (docPaths : list string) w :
  (forall p, p ∈ docPaths -> deny fs (BTxGet p) = None) ->
  promise_all (map (fun x => txn_get fs x) (map DocRef docPaths)) w
  = (Resolved
       (map (fun p => {| snap_ref := DocRef p; snap_data := docs w !! p |})
          docPaths),
     set_trace (trace w ++ map BTxGet docPaths) w).
Proof.
  revert w. induction docPaths as [|p rest IH]; intros w Hall.
  - cbn [map promise_all]. unfold ret, set_trace.
    rewrite app_nil_r. now destruct w.
  - cbn [map promise_all]. unfold txn_get at 1, issue. step_promise.
    rewrite (Hall p) by apply list_elem_of_here.
    simpl. rewrite IH.
    + cbn [docs set_trace trace]. unfold set_trace. cbn.
      now rewrite <- app_assoc.
    + intros q Hq. apply Hall. now apply list_elem_of_further.
Qed.

(** X7. [readAll] is aligned with its input: when every read is answered it
    resolves with one entry per path, in the order given, each the document
    stored at that path or nothing; the entries are as stored, and nothing
    is written. *)
Theorem readAll_is_aligned (txn : FbTransaction) (docPaths : list string) w :
  (forall p, p ∈ docPaths -> deny (firestore (store txn)) (BTxGet p) = None) ->
  exists w',
    FbTransaction_readAll txn docPaths w
      = (Resolved (map (fun p => docs w !! p) docPaths), w') /\
    docs w' = docs w /\ staged w' = staged w.
Proof.
  intros Hall. unfold FbTransaction_readAll, bind.
  rewrite (txn_gets_answered _ _ _ Hall). unfold ret.
  rewrite map_map. eexists. split; [reflexivity|]. split; reflexivity.
Qed.

Lemma readAll_is_aligned_witness :
  (forall p, p ∈ ["users/u1"; "users/u2"] ->
     deny (firestore (store {| store := browser_store permissive |}))
       (BTxGet p) = None) /\
  exists w',
    FbTransaction_readAll {| store := browser_store permissive |}
      ["users/u1"; "users/u2"] (new_world heap_A docs_u1)
    = (Resolved
         (map (fun p => docs (new_world heap_A docs_u1) !! p)
            ["users/u1"; "users/u2"]), w') /\
    docs w' = docs (new_world heap_A docs_u1) /\
    staged w' = staged (new_world heap_A docs_u1).
Proof.
  assert (H : forall p, p ∈ ["users/u1"; "users/u2"] ->
            deny (firestore (store {| store := browser_store permissive |}))
              (BTxGet p) = None) by reflexivity.
  split; [exact H|].
  exact (readAll_is_aligned {| store := browser_store permissive |}
           ["users/u1"; "users/u2"] (new_world heap_A docs_u1) H).
Defined.

(** The calls that have no catch block print nothing. *)
Lemma quiet_promise_all {A} (tasks : list (promise A)) :
  Forall (fun t => forall w, console (snd (t w)) = console w) tasks ->
  forall w, console (snd (promise_all tasks w)) = console w.
Proof.
  induction 1 as [|t rest Ht _ IH]; intros w; [reflexivity|].
  cbn [promise_all]. pose proof (Ht w) as H1.
  destruct (t w) as [[a|e] w1]; cbn [snd] in *;
    pose proof (IH w1) as H2;
    destruct (promise_all rest w1) as [[r|e'] w2]; cbn [snd] in *; congruence.
Qed.

(** X8. The calls without a catch block are silent: a query's [get],
    [readAll], and the server binding's transactional [delete] never print
    anything, whether they resolve or reject. *)
Theorem uncaught_calls_print_nothing fs w :
  (forall q, console (snd (FbQuery_get fs q w)) = console w) /\
  (forall b docPaths,
     console (snd (FbTransaction_readAll
                     {| store := createDataStore b fs |} docPaths w))
     = console w) /\
  (forall docPath,
     console (snd (FbTransaction_delete
                     {| store := createDataStore Server fs |} docPath w))
     = console w).
Proof.
  split; [|split].
  - intros q. rewrite FbQuery_get_run. now destruct (deny _ _).
  - intros b docPaths. unfold FbTransaction_readAll, bind.
    cbn [store firestore createDataStore].
    assert (Hq : console (snd (promise_all
                   (map (fun x => txn_get fs x) (map DocRef docPaths)) w))
                 = console w).
    { apply quiet_promise_all, Forall_forall. intros t Ht.
      apply list_elem_of_fmap in Ht as (x & -> & _). intros w0.
      unfold txn_get, issue. step_promise. now destruct (deny _ _). }
    now destruct (promise_all _ w) as [[r|e] w1].
  - intros docPath. cbn. unfold txn_stage, issue. step_promise.
    now destruct (deny _ _).
Qed.

(** ** [mirror] *)

Lemma mirrors_written_cons fs (d : doc) k rest (ds : gmap string doc) :
  mirrors_written fs d (k :: rest) ds =
    mirrors_written fs d rest
      match deny fs (BSet k d false) with
      | None => <[k := d]> ds
      | Some _ => ds
      end.
Proof. reflexivity. Qed.

Lemma mirrors_written_lookup fs (d : doc) keys (ds : gmap string doc) q :
  mirrors_written fs d keys ds !! q =
    if bool_decide (q ∈ keys) && bool_decide (deny fs (BSet q d false) = None)
    then Some d
    else ds !! q.
Proof.
  revert ds. induction keys as [|k rest IH]; intros ds; [reflexivity|].
  rewrite mirrors_written_cons, IH. clear IH.
  destruct (decide (q = k)) as [->|Hne].
  - rewrite (bool_decide_eq_true_2 (k ∈ k :: rest)) by apply list_elem_of_here.
    destruct (deny fs (BSet k d false)) as [e|] eqn:Hdeny.
    + rewrite (bool_decide_eq_false_2 (Some e = None)) by discriminate.
      now rewrite !andb_false_r.
    + rewrite (bool_decide_eq_true_2 (None = None)) by reflexivity.
      rewrite lookup_insert_eq. now destruct (bool_decide (k ∈ rest)).
  - assert (Hmem : bool_decide (q ∈ k :: rest) = bool_decide (q ∈ rest)).
    { apply bool_decide_ext. rewrite elem_of_cons. tauto. }
    rewrite Hmem.
    destruct (deny fs (BSet k d false)); [reflexivity|].
    now rewrite lookup_insert_ne by congruence.
Qed.

(** The fan-out of [mirror]: every write is sent, in the order of the keys,
    whatever the client answers to the others. *)
Lemma sets_fan_out fs (d : doc) (keys : list string) w :
  snd (promise_all
         (map (fun ref => doc_set fs ref d false) (map DocRef keys)) w)
  = set_docs (mirrors_written fs d keys (docs w))
      (set_trace (trace w ++ map (fun k => BSet k d false) keys) w).
Proof.
  revert w. induction keys as [|k rest IH]; intros w.
  - cbn [map promise_all mirrors_written foldl]. unfold ret, set_docs, set_trace.
    cbn. rewrite app_nil_r. now destruct w.
  - cbn [map promise_all]. rewrite doc_set_run, mirrors_written_cons.
    cbn [DocRef ref_path write_doc].
    destruct (deny fs (BSet k d false)).
    + cbn [snd]. rewrite IH. unfold set_docs, set_trace. cbn.
      now rewrite <- app_assoc.
    + match goal with |- context [promise_all ?t ?w0] =>
        specialize (IH w0); destruct (promise_all t w0) as [[r|e] w2]
      end; cbn [snd] in *; rewrite IH; unfold set_docs, set_trace; cbn;
        now rewrite <- app_assoc.
Qed.

Lemma sets_all_resolved fs (d : doc) (keys : list string) w :
  (forall k, k ∈ keys -> deny fs (BSet k d false) = None) ->
  exists l,
    fst (promise_all
           (map (fun ref => doc_set fs ref d false) (map DocRef keys)) w)
    = Resolved l.
Proof.
  revert w. induction keys as [|k rest IH]; intros w Hall.
  - now eexists.
  - cbn [map promise_all]. rewrite doc_set_run. cbn [DocRef ref_path].
    rewrite (Hall k) by apply list_elem_of_here.
    match goal with |- context [promise_all ?t ?w0] =>
      destruct (IH w0) as [l Hl];
        [intros q Hq; apply Hall; now apply list_elem_of_further|];
      destruct (promise_all t w0) as [[r|e] w2]
    end; cbn [fst] in *; [now eexists|discriminate].
Qed.

(** [mirror] with the data omitted, when the primary exists and the client
    answers the read and allows every write. *)
Lemma FbDataStore_mirror_allowed this primaryKey (mirrorKeys : list string)
    (d : doc) w :
  docs w !! primaryKey = Some d ->
  deny (firestore this) (BGet primaryKey) = None ->
  (forall k, k ∈ mirrorKeys -> deny (firestore this) (BSet k d false) = None) ->
  FbDataStore_mirror this primaryKey mirrorKeys None w
  = (Resolved tt,
     set_docs (mirrors_written (firestore this) d mirrorKeys (docs w))
       (set_trace
          (trace w ++ BGet primaryKey
           :: map (fun k => BSet k d false) mirrorKeys) w)).
Proof.
  intros Hprimary Hget Hall.
  unfold FbDataStore_mirror, doc_get, issue. step_promise.
  rewrite Hget. simpl. rewrite Hprimary.
  match goal with |- context [promise_all ?t ?w0] =>
    pose proof (sets_fan_out (firestore this) d mirrorKeys w0) as Hsnd;
    destruct (sets_all_resolved (firestore this) d mirrorKeys w0 Hall)
      as [l Hfst];
    destruct (promise_all t w0) as [[r|e] w1]
  end; cbn [fst snd] in *; [|discriminate].
  subst w1. unfold set_docs, set_trace. cbn. now rewrite <- app_assoc.
Qed.

(** X9. [mirror] with the data omitted copies the primary: when the primary
    exists and the client answers the read and allows every write, the call
    resolves, every mirror path holds the primary's fields, and no other
    document has changed. *)
Theorem mirror_copies_the_primary this primaryKey (mirrorKeys : list string)
    (d : doc) w :
  docs w !! primaryKey = Some d ->
  deny (firestore this) (BGet primaryKey) = None ->
  (forall k, k ∈ mirrorKeys -> deny (firestore this) (BSet k d false) = None) ->
  exists w',
    FbDataStore_mirror this primaryKey mirrorKeys None w = (Resolved tt, w') /\
    (forall k, k ∈ mirrorKeys -> docs w' !! k = Some d) /\
    (forall p, p ∉ mirrorKeys -> docs w' !! p = docs w !! p).
Proof.
  intros Hprimary Hget Hall.
  rewrite (FbDataStore_mirror_allowed _ _ _ _ _ Hprimary Hget Hall).
  eexists. split; [reflexivity|]. cbn [docs set_docs]. split.
  - intros k Hk. rewrite mirrors_written_lookup.
    rewrite (bool_decide_eq_true_2 _ Hk).
    now rewrite (bool_decide_eq_true_2 _ (Hall k Hk)).
  - intros p Hp. rewrite mirrors_written_lookup.
    now rewrite (bool_decide_eq_false_2 _ Hp).
Qed.

Lemma mirror_copies_the_primary_witness :
  docs (new_world heap_A docs_u1) !! "users/u1" = Some record_A /\
  deny (firestore (browser_store permissive)) (BGet "users/u1") = None /\
  (forall k, k ∈ ["index/u1"; "byName/A"] ->
     deny (firestore (browser_store permissive)) (BSet k record_A false) = None) /\
  exists w',
    FbDataStore_mirror (browser_store permissive) "users/u1"
      ["index/u1"; "byName/A"] None (new_world heap_A docs_u1)
    = (Resolved tt, w') /\
    (forall k, k ∈ ["index/u1"; "byName/A"] -> docs w' !! k = Some record_A) /\
    (forall p, p ∉ ["index/u1"; "byName/A"] ->
       docs w' !! p = docs (new_world heap_A docs_u1) !! p).
Proof.
  assert (H : forall k, k ∈ ["index/u1"; "byName/A"] ->
            deny (firestore (browser_store permissive)) (BSet k record_A false)
            = None) by reflexivity.
  split; [reflexivity|]. split; [reflexivity|]. split; [exact H|].
  apply (mirror_copies_the_primary (browser_store permissive) "users/u1"
           ["index/u1"; "byName/A"] record_A (new_world heap_A docs_u1));
    [reflexivity|reflexivity|exact H].
Defined.

(** X10. A mirror read back through the facade carries its own id: after
    [mirror] has copied the primary, [read] of a mirror path resolves with
    the primary's fields and, as [id], the final segment of the mirror
    path, whatever id the primary's fields held. *)
Theorem mirror_reads_back_with_its_own_id
    this primaryKey (mirrorKeys : list string) (d : doc) key w :
  docs w !! primaryKey = Some d ->
  deny (firestore this) (BGet primaryKey) = None ->
  (forall k, k ∈ mirrorKeys -> deny (firestore this) (BSet k d false) = None) ->
  key ∈ mirrorKeys ->
  deny (firestore this) (BGet key) = None ->
  fst (FbDataStore_read this key
         (snd (FbDataStore_mirror this primaryKey mirrorKeys None w)))
  = Resolved (Some (<["id" := VStr (last_segment key)]> d)).
Proof.
  intros Hprimary Hget Hall Hkey Hread.
  rewrite (FbDataStore_mirror_allowed _ _ _ _ _ Hprimary Hget Hall).
  rewrite FbDataStore_read_run, Hread. cbn [snd fst docs set_docs].
  rewrite mirrors_written_lookup, (bool_decide_eq_true_2 _ Hkey).
  now rewrite (bool_decide_eq_true_2 _ (Hall key Hkey)).
Qed.

Lemma mirror_reads_back_with_its_own_id_witness :
  docs (new_world heap_A docs_u1) !! "users/u1" = Some record_A /\
  deny (firestore (browser_store permissive)) (BGet "users/u1") = None /\
  (forall k, k ∈ ["byName/A"] ->
     deny (firestore (browser_store permissive)) (BSet k record_A false) = None) /\
  "byName/A" ∈ ["byName/A"] /\
  deny (firestore (browser_store permissive)) (BGet "byName/A") = None /\
  fst (FbDataStore_read (browser_store permissive) "byName/A"
         (snd (FbDataStore_mirror (browser_store permissive) "users/u1"
                 ["byName/A"] None (new_world heap_A docs_u1))))
  = Resolved (Some (<["id" := VStr "A"]> record_A)).
Proof.
  assert (H : forall k, k ∈ ["byName/A"] ->
            deny (firestore (browser_store permissive)) (BSet k record_A false)
            = None) by reflexivity.
  assert (Hin : "byName/A" ∈ ["byName/A"]) by apply list_elem_of_here.
  split; [reflexivity|]. split; [reflexivity|]. split; [exact H|].
  split; [exact Hin|]. split; [reflexivity|].
  apply (mirror_reads_back_with_its_own_id (browser_store permissive)
           "users/u1" ["byName/A"] record_A "byName/A"
           (new_world heap_A docs_u1));
    [reflexivity|reflexivity|exact H|exact Hin|reflexivity].
Defined.

(** X11. Given the data, [mirror] never reads the primary: whatever the
    client answers, the requests it sends are one [set] per mirror key, in
    the order of the keys and each with the object's fields; a refusal does
    not stop the writes that follow. *)
Theorem mirror_with_data_sends_one_set_per_key
    this primaryKey (mirrorKeys : list string) (data : loc) (o : doc) w :
  heap w !! data = Some o ->
  trace (snd (FbDataStore_mirror this primaryKey mirrorKeys (Some data) w))
  = trace w ++ map (fun k => BSet k o false) mirrorKeys.
Proof.
  intros Ho. unfold FbDataStore_mirror. step_promise. rewrite Ho.
  cbn [default from_option id].
  pose proof (sets_fan_out (firestore this) o mirrorKeys w) as Hsnd.
  destruct (promise_all _ w) as [[r|e] w1]; cbn [snd] in *; now subst w1.
Qed.

Lemma mirror_with_data_sends_one_set_per_key_witness :
  heap (new_world heap_A no_docs) !! 7 = Some record_A /\
  trace (snd (FbDataStore_mirror (browser_store (deny_writes_to "index/u1"))
                "users/u1" ["index/u1"; "byName/A"] (Some 7)
                (new_world heap_A no_docs)))
  = trace (new_world heap_A no_docs)
    ++ map (fun k => BSet k record_A false) ["index/u1"; "byName/A"].
Proof.
  split; [reflexivity|].
  apply (mirror_with_data_sends_one_set_per_key
           (browser_store (deny_writes_to "index/u1")) "users/u1"
           ["index/u1"; "byName/A"] 7 record_A (new_world heap_A no_docs)).
  reflexivity.
Defined.

(** X12. [mirror] is not atomic: when the client refuses one of the writes,
    the call rejects with the error of the first write refused, and every
    mirror whose write the client allowed holds the data all the same. *)
Theorem mirror_keeps_successful_writes
    this primaryKey (before : list string) key (after : list string)
    (data : loc) (o : doc) e w :
  heap w !! data = Some o ->
  (forall q, q ∈ before -> deny (firestore this) (BSet q o false) = None) ->
  deny (firestore this) (BSet key o false) = Some e ->
  exists w',
    FbDataStore_mirror this primaryKey (before ++ key :: after) (Some data) w
      = (Rejected e, w') /\
    (forall q, q ∈ before ++ key :: after ->
       deny (firestore this) (BSet q o false) = None ->
       docs w' !! q = Some o) /\
    (forall q, deny (firestore this) (BSet q o false) <> None ->
       docs w' !! q = docs w !! q).
Proof.
  intros Ho Hbefore Hkey.
  assert (Hfst :
    fst (promise_all (map (fun ref => doc_set (firestore this) ref o false)
                        (map DocRef (before ++ key :: after))) w) = Rejected e).
  { rewrite map_map.
    apply (fan_out_rejects
             (fun k => doc_set (firestore this) (DocRef k) o false) (heap w)).
    - intros y w1 Hw1. rewrite doc_set_run.
      match goal with |- context [deny ?c ?op] => destruct (deny c op) end;
        exact Hw1.
    - intros y w1 _ Hy. rewrite doc_set_run. cbn [DocRef ref_path].
      rewrite (Hbefore y Hy). now eexists.
    - intros w1 _. rewrite doc_set_run. cbn [DocRef ref_path].
      now rewrite Hkey.
    - reflexivity. }
  pose proof (sets_fan_out (firestore this) o (before ++ key :: after) w)
    as Hsnd.
  unfold FbDataStore_mirror. step_promise. rewrite Ho.
  cbn [default from_option id].
  destruct (promise_all _ w) as [[r|e'] w1]; cbn [fst snd] in *;
    [discriminate|]. inversion Hfst; subst e' w1.
  eexists. split; [reflexivity|]. cbn [docs set_console set_docs]. split.
  - intros q Hq Hallowed. rewrite mirrors_written_lookup.
    now rewrite (bool_decide_eq_true_2 _ Hq), (bool_decide_eq_true_2 _ Hallowed).
  - intros q Hrefused. rewrite mirrors_written_lookup.
    rewrite (bool_decide_eq_false_2 _ Hrefused). now rewrite andb_false_r.
Qed.

Lemma mirror_keeps_successful_writes_witness :
  heap (new_world heap_A no_docs) !! 7 = Some record_A /\
  (forall q, q ∈ ["index/u1"] ->
     deny (firestore (server_store (deny_writes_to "byName/A")))
       (BSet q record_A false) = None) /\
  deny (firestore (server_store (deny_writes_to "byName/A")))
    (BSet "byName/A" record_A false) = Some permission_denied /\
  exists w',
    FbDataStore_mirror (server_store (deny_writes_to "byName/A")) "users/u1"
      (["index/u1"] ++ "byName/A" :: ["recent/u1"]) (Some 7)
      (new_world heap_A no_docs)
    = (Rejected permission_denied, w') /\
    (forall q, q ∈ ["index/u1"] ++ "byName/A" :: ["recent/u1"] ->
       deny (firestore (server_store (deny_writes_to "byName/A")))
         (BSet q record_A false) = None ->
       docs w' !! q = Some record_A) /\
    (forall q,
       deny (firestore (server_store (deny_writes_to "byName/A")))
         (BSet q record_A false) <> None ->
       docs w' !! q = docs (new_world heap_A no_docs) !! q).
Proof.
  assert (Hbefore : forall q, q ∈ ["index/u1"] ->
            deny (firestore (server_store (deny_writes_to "byName/A")))
              (BSet q record_A false) = None).
  { intros q Hq. apply list_elem_of_singleton in Hq. now subst q. }
  split; [reflexivity|]. split; [exact Hbefore|]. split; [reflexivity|].
  apply (mirror_keeps_successful_writes
           (server_store (deny_writes_to "byName/A")) "users/u1"
           ["index/u1"] "byName/A" ["recent/u1"] 7 record_A permission_denied
           (new_world heap_A no_docs)); [reflexivity|exact Hbefore|reflexivity].
Defined.

(** ** [multiUpdate] *)

(** The fan-out of [multiUpdate] when the client allows every update. *)
Lemma updates_all_allowed this (docPaths : list string) (data : loc) w :
  let o := default ∅ (heap w !! data) in
  (forall p, p ∈ docPaths -> deny (firestore this) (BSet p o true) = None) ->
  exists l w',
    promise_all (map (fun path => FbDataStore_update this path data) docPaths) w
    = (Resolved l, w') /\
    console w' = console w /\
    trace w' = trace w ++ map (fun p => BSet p o true) docPaths.
Proof.
  revert w. induction docPaths as [|p rest IH]; intros w o Hall.
  - exists [], w. cbn. now rewrite app_nil_r.
  - cbn [map promise_all]. rewrite FbDataStore_update_run. fold o.
    rewrite (Hall p) by apply list_elem_of_here.
    match goal with |- context [promise_all ?t ?w0] =>
      destruct (IH w0) as (l & w' & Hrun & Hconsole & Htrace);
        [intros q Hq; apply Hall; now apply list_elem_of_further|];
      rewrite Hrun
    end.
    eexists _, _. split; [reflexivity|]. split; [exact Hconsole|].
    rewrite Htrace. cbn. now rewrite <- app_assoc.
Qed.

(** X13. When the client allows every update, [multiUpdate] resolves: each
    path holds the given fields laid over what it held, no other document
    has changed, one merging [set] was sent per path in the order given,
    and nothing was printed.  With no path at all it resolves without
    sending anything. *)
Theorem multiUpdate_applies_every_update
    this (docPaths : list string) (data : loc) (o : doc) w :
  heap w !! data = Some o ->
  (forall p, p ∈ docPaths -> deny (firestore this) (BSet p o true) = None) ->
  exists w',
    FbDataStore_multiUpdate this docPaths data w = (Resolved tt, w') /\
    (forall p, p ∈ docPaths ->
       docs w' !! p = Some (o ∪ default ∅ (docs w !! p))) /\
    (forall p, p ∉ docPaths -> docs w' !! p = docs w !! p) /\
    trace w' = trace w ++ map (fun p => BSet p o true) docPaths /\
    console w' = console w.
Proof.
  intros Ho Hall.
  pose proof (updates_all_allowed this docPaths data w) as Hrun.
  pose proof (updates_fan_out this docPaths data w) as Hsnd.
  cbn zeta in Hrun, Hsnd. rewrite Ho in Hrun, Hsnd.
  cbn [from_option id] in Hrun, Hsnd. unfold id in Hrun, Hsnd.
  destruct (Hrun Hall) as (l & w' & Hall_run & Hconsole & Htrace).
  rewrite Hall_run in Hsnd. cbn [snd] in Hsnd. destruct Hsnd as [_ Hdocs].
  unfold FbDataStore_multiUpdate. step_promise. rewrite Hall_run.
  exists w'. split; [reflexivity|]. rewrite Hdocs. split; [|split; [|split]].
  - intros p Hp. rewrite updates_applied_lookup.
    now rewrite (bool_decide_eq_true_2 _ Hp), (bool_decide_eq_true_2 _ (Hall p Hp)).
  - intros p Hp. rewrite updates_applied_lookup.
    now rewrite (bool_decide_eq_false_2 _ Hp).
  - exact Htrace.
  - exact Hconsole.
Qed.

Lemma multiUpdate_applies_every_update_witness :
  heap (new_world heap_x docs_u1) !! 7 = Some record_x /\
  (forall p, p ∈ ["users/u1"; "users/u2"] ->
     deny (firestore (browser_store permissive)) (BSet p record_x true) = None) /\
  exists w',
    FbDataStore_multiUpdate (browser_store permissive)
      ["users/u1"; "users/u2"] 7 (new_world heap_x docs_u1)
    = (Resolved tt, w') /\
    (forall p, p ∈ ["users/u1"; "users/u2"] ->
       docs w' !! p
       = Some (record_x ∪ default ∅ (docs (new_world heap_x docs_u1) !! p))) /\
    (forall p, p ∉ ["users/u1"; "users/u2"] ->
       docs w' !! p = docs (new_world heap_x docs_u1) !! p) /\
    trace w' = trace (new_world heap_x docs_u1)
               ++ map (fun p => BSet p record_x true) ["users/u1"; "users/u2"] /\
    console w' = console (new_world heap_x docs_u1).
Proof.
  assert (H : forall p, p ∈ ["users/u1"; "users/u2"] ->
            deny (firestore (browser_store permissive)) (BSet p record_x true)
            = None) by reflexivity.
  split; [reflexivity|]. split; [exact H|].
  apply (multiUpdate_applies_every_update (browser_store permissive)
           ["users/u1"; "users/u2"] 7 record_x (new_world heap_x docs_u1));
    [reflexivity|exact H].
Defined.

(** ** Transactions *)

Lemma keeps_docs_txn_get fs r : keeps_docs (txn_get fs r).
Proof.
  intros w. unfold txn_get, issue. step_promise. now destruct (deny _ _).
Qed.

Lemma keeps_docs_FbTransaction_read txn p : keeps_docs (FbTransaction_read txn p).
Proof.
  intros w. unfold FbTransaction_read, txn_get, issue.
  destruct (flavour (store txn)); step_promise; now destruct (deny _ _).
Qed.

Lemma keeps_docs_FbTransaction_update txn p data :
  keeps_docs (FbTransaction_update txn p data).
Proof.
  intros w. unfold FbTransaction_update, txn_stage, issue. step_promise.
  destruct (deny _ _); [|reflexivity]. now destruct (flavour (store txn)).
Qed.

Lemma keeps_docs_FbTransaction_delete txn p :
  keeps_docs (FbTransaction_delete txn p).
Proof.
  intros w. unfold FbTransaction_delete, txn_stage, issue.
  destruct (flavour (store txn)); step_promise; now destruct (deny _ _).
Qed.

Lemma keeps_docs_FbTransaction_readAll txn ps :
  keeps_docs (FbTransaction_readAll txn ps).
Proof.
  unfold FbTransaction_readAll. apply keeps_docs_bind; [|easy].
  apply keeps_docs_promise_all, Forall_forall. intros t Ht.
  apply list_elem_of_fmap in Ht as (x & -> & _). apply keeps_docs_txn_get.
Qed.

Lemma keeps_docs_mirrorInTransaction this txn pk keys data :
  keeps_docs (FbDataStore_mirrorInTransaction this txn pk keys data).
Proof.
  unfold FbDataStore_mirrorInTransaction. apply keeps_docs_bind.
  - apply keeps_docs_try_catch; [|easy].
    destruct data; [easy|].
    apply keeps_docs_bind; [apply keeps_docs_FbTransaction_read|easy].
  - intros [d|]; [|easy].
    apply keeps_docs_try_catch; [|intros e0 w0; now destruct d].
    apply keeps_docs_bind; [|easy].
    apply keeps_docs_promise_all, Forall_forall. intros t Ht.
    apply list_elem_of_fmap in Ht as (x & -> & _).
    apply keeps_docs_FbTransaction_set.
Qed.

Lemma keeps_docs_perform_txn this txn c : keeps_docs (perform_txn this txn c).
Proof.
  destruct c; cbn [perform_txn]; (apply keeps_docs_bind; [|try easy]).
  - apply keeps_docs_FbTransaction_create.
  - apply keeps_docs_FbTransaction_read.
  - apply keeps_docs_FbTransaction_update.
  - apply keeps_docs_FbTransaction_set.
  - apply keeps_docs_FbTransaction_delete.
  - apply keeps_docs_FbTransaction_readAll.
  - apply keeps_docs_mirrorInTransaction.
Qed.

Lemma keeps_docs_handler_of this calls txn :
  keeps_docs (handler_of this calls txn).
Proof.
  induction calls as [|c rest IH]; cbn [handler_of]; [easy|].
  apply keeps_docs_bind; [apply keeps_docs_perform_txn|]. intros a.
  apply keeps_docs_bind; [exact IH|easy].
Qed.

(** X14. A transaction that rejects writes nothing: whatever calls the
    handler makes on the transaction handle, if [transact] rejects, because
    a call was refused while staging, because the handler threw, or because
    the commit was refused, every document is as it was before. *)
Theorem rejected_transaction_writes_nothing this (calls : list txn_call) w e w' :
  perform this (CallTransact calls) w = (Rejected e, w') ->
  docs w' = docs w /\ staged w' = [].
Proof.
  cbn [perform]. unfold bind, FbDataStore_transact, runTransaction.
  pose proof (keeps_docs_handler_of this calls {| store := this |}
                (set_staged [] w)) as Hdocs.
  destruct (handler_of _ _ _ _) as [[a|e1] w1]; cbn [snd] in Hdocs.
  - destruct (deny _ _).
    + intros H; inversion H; subst. now split.
    + destruct (apply_writes _ _); intros H; inversion H; subst. now split.
  - intros H; inversion H; subst. now split.
Qed.

Lemma rejected_transaction_writes_nothing_witness :
  fst (perform (browser_store (deny_writes_to "byName/A"))
         (CallTransact [TxCreate "users" 7; TxDelete "users/u1";
                        TxMirror "users/X" ["index/X"; "byName/A"] (Some 7)])
         (new_world heap_A docs_u1)) = Rejected permission_denied /\
  docs (snd (perform (browser_store (deny_writes_to "byName/A"))
               (CallTransact [TxCreate "users" 7; TxDelete "users/u1";
                              TxMirror "users/X" ["index/X"; "byName/A"] (Some 7)])
               (new_world heap_A docs_u1)))
  = docs (new_world heap_A docs_u1).
Proof.
  split; [reflexivity|].
  apply (rejected_transaction_writes_nothing
           (browser_store (deny_writes_to "byName/A"))
           [TxCreate "users" 7; TxDelete "users/u1";
            TxMirror "users/X" ["index/X"; "byName/A"] (Some 7)]
           (new_world heap_A docs_u1) permission_denied).
  apply surjective_pairing.
Defined.

(** X15. [mirrorInTransaction] with the data omitted and no primary: once
    the client has answered the transactional read, the transaction rejects
    with [No such object <primaryKey>]; no write was staged, no commit was
    attempted, and nothing was printed. *)
Theorem transactional_mirror_of_missing_primary
    this primaryKey (mirrorKeys : list string) w :
  docs w !! primaryKey = None ->
  deny (firestore this) (BTxGet primaryKey) = None ->
  exists w',
    perform this (CallTransact [TxMirror primaryKey mirrorKeys None]) w
      = (Rejected (JsError ("No such object " +:+ primaryKey)), w') /\
    docs w' = docs w /\
    trace w' = trace w ++ [BTxGet primaryKey] /\
    console w' = console w.
Proof.
  intros Hmissing Hget. destruct this as [b fs]. cbn [firestore] in Hget.
  cbn [perform handler_of perform_txn].
  unfold FbDataStore_transact, runTransaction, FbDataStore_mirrorInTransaction,
    FbTransaction_read, txn_get, issue.
  destruct b; step_promise; rewrite Hget; simpl; rewrite Hmissing;
    (eexists; split; [reflexivity|]); repeat split.
Qed.

Lemma transactional_mirror_of_missing_primary_witness :
  docs (new_world heap_A no_docs) !! "users/u1" = None /\
  deny (firestore (server_store permissive)) (BTxGet "users/u1") = None /\
  exists w',
    perform (server_store permissive)
      (CallTransact [TxMirror "users/u1" ["index/u1"] None])
      (new_world heap_A no_docs)
    = (Rejected (JsError "No such object users/u1"), w') /\
    docs w' = docs (new_world heap_A no_docs) /\
    trace w' = trace (new_world heap_A no_docs) ++ [BTxGet "users/u1"] /\
    console w' = console (new_world heap_A no_docs).
Proof.
  split; [reflexivity|]. split; [reflexivity|].
  apply (transactional_mirror_of_missing_primary (server_store permissive)
           "users/u1" ["index/u1"] (new_world heap_A no_docs)); reflexivity.
Defined.

(** The fan-out of [mirrorInTransaction] when every write can be staged. *)
Lemma stages_all_allowed txn (x : payload) (o : doc) (keys : list string) w :
  fields_at w x = o ->
  (forall k, k ∈ keys ->
     deny (firestore (store txn)) (BTxStage (WSet k o)) = None) ->
  exists l,
    promise_all (map (fun key => FbTransaction_set txn key x) keys) w
    = (Resolved l,
       set_staged
         (staged w ++ map (fun k => {| pending_write := WSet k o;
                                       pending_object := payload_object x |})
                        keys)
         (set_trace (trace w ++ map (fun k => BTxStage (WSet k o)) keys) w)).
Proof.
  revert w. induction keys as [|k rest IH]; intros w Hx Hall.
  - exists []. cbn. unfold ret, set_staged, set_trace. cbn.
    rewrite !app_nil_r. now destruct w.
  - cbn [map promise_all]. rewrite FbTransaction_set_run. cbn zeta.
    rewrite Hx, (Hall k) by apply list_elem_of_here.
    match goal with |- context [promise_all ?t ?w0] =>
      destruct (IH w0) as [l Hl];
        [now rewrite <- Hx
        |intros q Hq; apply Hall; now apply list_elem_of_further|];
      rewrite Hl
    end.
    eexists. f_equal. unfold set_staged, set_trace. cbn.
    now rewrite <- !app_assoc.
Qed.

(** What the commit sends for them: the object has the same fields by
    then. *)
Lemma committed_sets fs (h : gmap loc doc) (object : option loc) (o : doc)
    (keys : list string) :
  (forall l, object = Some l -> default ∅ (h !! l) = o) ->
  map (committed_write fs h)
    (map (fun k => {| pending_write := WSet k o; pending_object := object |})
       keys)
  = map (fun k => WSet k o) keys.
Proof.
  intros Hx. rewrite map_map. apply map_ext. intros k.
  unfold committed_write. cbn.
  destruct (reads_payload fs); [reflexivity|].
  destruct object as [l|]; [|reflexivity].
  cbn. now rewrite (Hx l eq_refl).
Qed.

Lemma apply_writes_sets (o : doc) (keys : list string) (ds : gmap string doc) :
  exists ds',
    apply_writes (map (fun k => WSet k o) keys) ds = Some ds' /\
    forall q, ds' !! q = if bool_decide (q ∈ keys) then Some o else ds !! q.
Proof.
  revert ds. induction keys as [|k rest IH]; intros ds.
  - exists ds. now split.
  - cbn [map apply_writes apply_write].
    destruct (IH (<[k := o]> ds)) as (ds' & Hrun & Hlookup).
    exists ds'. split; [exact Hrun|]. intros q. rewrite Hlookup.
    destruct (decide (q = k)) as [->|Hne].
    + rewrite lookup_insert_eq.
      rewrite (bool_decide_eq_true_2 (k ∈ k :: rest)) by apply list_elem_of_here.
      now destruct (bool_decide (k ∈ rest)).
    + rewrite lookup_insert_ne by congruence.
      assert (Hmem : bool_decide (q ∈ k :: rest) = bool_decide (q ∈ rest)).
      { apply bool_decide_ext. rewrite elem_of_cons. tauto. }
      now rewrite Hmem.
Qed.

(** X16. [mirrorInTransaction] run in a transaction writes all the mirrors
    or none: when every write can be staged and the commit is allowed, the
    transaction resolves and every mirror path holds the data, nothing else
    having changed; the writes reach the store in one commit, in the order
    of the keys. *)
Theorem transactional_mirror_commits_every_mirror
    this primaryKey (mirrorKeys : list string) (data : loc) (o : doc) w :
  heap w !! data = Some o ->
  (forall k, k ∈ mirrorKeys ->
     deny (firestore this) (BTxStage (WSet k o)) = None) ->
  deny (firestore this) (BTxCommit (map (fun k => WSet k o) mirrorKeys)) = None ->
  exists w',
    perform this (CallTransact [TxMirror primaryKey mirrorKeys (Some data)]) w
      = (Resolved (inr [Nothing]), w') /\
    (forall k, k ∈ mirrorKeys -> docs w' !! k = Some o) /\
    (forall p, p ∉ mirrorKeys -> docs w' !! p = docs w !! p) /\
    trace w' = trace w ++ map (fun k => BTxStage (WSet k o)) mirrorKeys
               ++ [BTxCommit (map (fun k => WSet k o) mirrorKeys)].
Proof.
  intros Ho Hall Hcommit.
  assert (Hx : fields_at (set_staged [] w) (Held data) = o).
  { unfold fields_at, object_at. cbn. now rewrite Ho. }
  destruct (stages_all_allowed {| store := this |} (Held data) o mirrorKeys
              (set_staged [] w) Hx Hall) as [l Hstage].
  destruct (apply_writes_sets o mirrorKeys (docs w)) as (ds' & Hwrites & Hlookup).
  cbn [perform handler_of perform_txn].
  unfold FbDataStore_transact, runTransaction, FbDataStore_mirrorInTransaction.
  step_promise.
  unfold set_staged in Hstage at 1. cbn in Hstage. unfold set_staged at 1. cbn.
  rewrite Hstage. cbn.
  rewrite (committed_sets (firestore this) (heap w) (Some data) o mirrorKeys)
    by (intros l0 [= <-]; now rewrite Ho).
  rewrite Hcommit, Hwrites.
  eexists. split; [reflexivity|]. cbn. split; [|split].
  - intros k Hk. now rewrite Hlookup, (bool_decide_eq_true_2 _ Hk).
  - intros p Hp. now rewrite Hlookup, (bool_decide_eq_false_2 _ Hp).
  - now rewrite <- app_assoc.
Qed.

Lemma transactional_mirror_commits_every_mirror_witness :
  heap (new_world heap_A docs_u1) !! 7 = Some record_A /\
  (forall k, k ∈ ["index/u1"; "byName/A"] ->
     deny (firestore (browser_store permissive)) (BTxStage (WSet k record_A))
     = None) /\
  deny (firestore (browser_store permissive))
    (BTxCommit (map (fun k => WSet k record_A) ["index/u1"; "byName/A"])) = None /\
  exists w',
    perform (browser_store permissive)
      (CallTransact [TxMirror "users/u1" ["index/u1"; "byName/A"] (Some 7)])
      (new_world heap_A docs_u1)
    = (Resolved (inr [Nothing]), w') /\
    (forall k, k ∈ ["index/u1"; "byName/A"] -> docs w' !! k = Some record_A) /\
    (forall p, p ∉ ["index/u1"; "byName/A"] ->
       docs w' !! p = docs (new_world heap_A docs_u1) !! p) /\
    trace w' = trace (new_world heap_A docs_u1)
               ++ map (fun k => BTxStage (WSet k record_A))
                    ["index/u1"; "byName/A"]
               ++ [BTxCommit (map (fun k => WSet k record_A)
                                ["index/u1"; "byName/A"])].
Proof.
  assert (H : forall k, k ∈ ["index/u1"; "byName/A"] ->
            deny (firestore (browser_store permissive))
              (BTxStage (WSet k record_A)) = None) by reflexivity.
  split; [reflexivity|]. split; [exact H|]. split; [reflexivity|].
  apply (transactional_mirror_commits_every_mirror (browser_store permissive)
           "users/u1" ["index/u1"; "byName/A"] 7 record_A
           (new_world heap_A docs_u1)); [reflexivity|exact H|reflexivity].
Defined.

(** ** [createAndMirror] *)

Lemma createAndMirror_transaction_is_atomic_witness :
  createAndMirror_transaction (browser_store (deny_writes_to "index/X"))
    "users" 7 ["index/:id"] (new_world heap_A docs_u1)
  = (Rejected permission_denied,
     snd (createAndMirror_transaction (browser_store (deny_writes_to "index/X"))
            "users" 7 ["index/:id"] (new_world heap_A docs_u1))) /\
  docs (snd (createAndMirror_transaction
               (browser_store (deny_writes_to "index/X"))
               "users" 7 ["index/:id"] (new_world heap_A docs_u1)))
  = docs (new_world heap_A docs_u1) /\
  FbDataStore_createAndMirror (browser_store (deny_writes_to "index/X"))
    "users" 7 ["index/:id"] (new_world heap_A docs_u1)
  = (Rejected permission_denied,
     snd (createAndMirror_transaction (browser_store (deny_writes_to "index/X"))
            "users" 7 ["index/:id"] (new_world heap_A docs_u1))).
Proof.
  assert (H :
    createAndMirror_transaction (browser_store (deny_writes_to "index/X"))
      "users" 7 ["index/:id"] (new_world heap_A docs_u1)
    = (Rejected permission_denied,
       snd (createAndMirror_transaction
              (browser_store (deny_writes_to "index/X"))
              "users" 7 ["index/:id"] (new_world heap_A docs_u1))))
    by apply surjective_pairing.
  split; [exact H|].
  exact (createAndMirror_transaction_is_atomic _ _ _ _ _ _ _ H).
Defined.

(** The substitution of [:id] in a key template. *)
Lemma has_colon_cons x s :
  has_colon (String x s) = false -> x <> ":"%char /\ has_colon s = false.
Proof.
  unfold has_colon. cbn [String.list_ascii_of_string].
  intros H. apply bool_decide_eq_false in H.
  apply not_elem_of_cons in H as [Hx Hs]. split; [congruence|].
  now apply bool_decide_eq_false.
Qed.

Lemma prefix_id_other x s :
  x <> ":"%char -> String.prefix ":id" (String x s) = false.
Proof.
  intros Hx. cbn [String.prefix]. destruct (ascii_dec ":" x); congruence.
Qed.

Lemma has_dollar_cons x s :
  has_dollar (String x s) = false -> x <> "$"%char /\ has_dollar s = false.
Proof.
  unfold has_dollar. cbn [String.list_ascii_of_string].
  intros H. apply bool_decide_eq_false in H.
  apply not_elem_of_cons in H as [Hx Hs]. split; [congruence|].
  now apply bool_decide_eq_false.
Qed.

(** A replacement text with no dollar in it stands for itself. *)
Lemma expand_replacement_plain id matched before after :
  has_dollar id = false -> expand_replacement id matched before after = id.
Proof.
  induction id as [|c rest IH]; intros Hid; [reflexivity|].
  apply has_dollar_cons in Hid as [Hc Hrest]. cbn [expand_replacement].
  destruct (Ascii.eqb_spec c "$"); [congruence|]. now rewrite IH.
Qed.

(** And then what has been gone through does not matter. *)
Lemma replace_id_from_plain id key :
  has_dollar id = false ->
  forall skip before before',
    replace_id_from skip before key id = replace_id_from skip before' key id.
Proof.
  intros Hid. induction key as [|c rest IH]; intros skip before before';
    [reflexivity|].
  cbn [replace_id_from]. destruct skip as [|k]; [|apply IH].
  rewrite !(expand_replacement_plain id _ _ _ Hid).
  destruct (String.prefix ":id" (String c rest)); f_equal; apply IH.
Qed.

(** X17. [key.replace(/:id/g, id)] with an id that has no dollar in it, as
    the ids a client generates: a template with no colon is left as it is;
    and where [:id] follows a part with no colon, that part is kept, the id
    is put in place of [:id], and the rest of the template is substituted
    in turn, so that every occurrence is replaced. *)
Theorem replace_id_substitutes (a : string) (id : string) :
  has_colon a = false ->
  has_dollar id = false ->
  replace_id a id = a /\
  forall b, replace_id (a +:+ ":id" +:+ b) id = a +:+ id +:+ replace_id b id.
Proof.
  unfold replace_id. intros Ha Hid. induction a as [|x a IH].
  - split; [reflexivity|]. intros b.
    change ("" +:+ ":id" +:+ b) with (String ":" (String "i" (String "d" b))).
    cbn [replace_id_from].
    assert (E : String.prefix ":id" (String ":" (String "i" (String "d" b)))
                = true).
    { cbn [String.prefix].
      repeat match goal with
             | |- context [ascii_dec ?x ?y] =>
                 destruct (ascii_dec x y); [|congruence]
             end.
      now destruct b. }
    rewrite E, (expand_replacement_plain id _ _ _ Hid).
    now rewrite (replace_id_from_plain id b Hid 0 _ "").
  - apply has_colon_cons in Ha as [Hx Ha]. destruct (IH Ha) as [IH1 IH2].
    split.
    + cbn [replace_id_from]. rewrite (prefix_id_other _ _ Hx).
      now rewrite (replace_id_from_plain id a Hid 0 _ ""), IH1.
    + intros b.
      change (String x a +:+ ":id" +:+ b) with (String x (a +:+ ":id" +:+ b)).
      cbn [replace_id_from]. rewrite (prefix_id_other _ _ Hx).
      rewrite (replace_id_from_plain id _ Hid 0 _ ""), IH2.
      reflexivity.
Qed.

Lemma replace_id_substitutes_witness :
  has_colon "index/" = false /\
  has_dollar "X" = false /\
  replace_id "index/" "X" = "index/" /\
  forall b, replace_id ("index/" +:+ ":id" +:+ b) "X"
            = "index/" +:+ "X" +:+ replace_id b "X".
Proof.
  split; [reflexivity|]. split; [reflexivity|].
  apply (replace_id_substitutes "index/" "X"); reflexivity.
Defined.

(** ** Collection parameters *)

(** X18. A limit of 0, of -0 or of NaN, and an empty [startAfter], are
    falsy.  In the browser binding [listAll] with a falsy limit does what
    [listAll] with no limit does, and the query [watchAll] and
    [watchForChanges] listen on is then the unlimited one; in both bindings
    an empty [startAfter] is the same as none. *)
Theorem falsy_parameters_are_ignored
    fs collectionPath (o : option Order) (s : option string) (n : number)
    (l : option number) w :
  FbDataStore_listAll (createDataStore Browser fs) collectionPath
    (Some {| order := o; limit := Some n; startAfter := s |}) w
  = FbDataStore_listAll (createDataStore Browser fs) collectionPath
      (Some {| order := o; limit := if falsy n then None else Some n;
               startAfter := s |}) w /\
  watch_query collectionPath
    (Some {| order := o; limit := Some n; startAfter := s |})
  = watch_query collectionPath
      (Some {| order := o; limit := if falsy n then None else Some n;
               startAfter := s |}) /\
  (forall b,
     FbDataStore_listAll (createDataStore b fs) collectionPath
       (Some {| order := o; limit := l; startAfter := Some "" |}) w
     = FbDataStore_listAll (createDataStore b fs) collectionPath
         (Some {| order := o; limit := l; startAfter := None |}) w) /\
  watch_query collectionPath
    (Some {| order := o; limit := l; startAfter := Some "" |})
  = watch_query collectionPath
      (Some {| order := o; limit := l; startAfter := None |}).
Proof.
  assert (Hlimit : forall q,
    apply_limit_truthy
      (Some {| order := o; limit := Some n; startAfter := s |}) q
    = apply_limit_truthy
        (Some {| order := o; limit := if falsy n then None else Some n;
                 startAfter := s |}) q).
  { intros q. unfold apply_limit_truthy, params_limit. cbn.
    destruct (falsy n) eqn:E; cbn; [reflexivity|now rewrite E]. }
  repeat split; try (intros b); rewrite ?FbDataStore_listAll_run;
    try reflexivity.
  - unfold listAll_query. cbn [createDataStore flavour].
    now rewrite Hlimit.
  - unfold watch_query. now rewrite Hlimit.
Qed.

(** ** Live feeds, further *)

Section FeedMore.
Context {N T : Type} (L : Feed.listener N T).

(** X19. A feed is cold and reference-counted: in every state it can
    reach, the backend holds a listener exactly while the feed has
    consumers, and then it holds one, the one [unsub] would remove. *)
Theorem one_listener_while_subscribed s :
  Feed.reachable L s ->
  (Feed.consumers s = [] /\ Feed.listeners s = []) \/
  (Feed.consumers s <> [] /\
   exists g, Feed.listeners s = [g] /\ Feed.unsub s = Some g).
Proof.
  intros Hreach. pose proof (feed_wf_reachable L s Hreach) as Hwf.
  unfold feed_wf in Hwf. destruct (Feed.open_subject s) as [g|].
  - right. destruct Hwf as (Hc & _ & Hu & Hl & _). split; [exact Hc|].
    now exists g.
  - left. exact Hwf.
Qed.

(** X20. A feed is multicast: a consumer that subscribes while the feed
    has others registers no listener of its own, and the next notification
    is given once to every consumer, the newcomer last. *)
Theorem later_subscribers_share_the_listener s (c : nat) (n : N) :
  Feed.reachable L s ->
  Feed.consumers s <> [] ->
  c ∉ Feed.consumers s ->
  snd (Feed.step L s (Feed.Subscribe c)) = [] /\
  Feed.listeners (fst (Feed.step L s (Feed.Subscribe c))) = Feed.listeners s /\
  exists g,
    Feed.open_subject s = Some g /\
    snd (Feed.step L (fst (Feed.step L s (Feed.Subscribe c)))
           (Feed.BackendNext g n))
    = map (fun c' => Feed.Emit c' (Feed.on_next L n)) (Feed.consumers s ++ [c]).
Proof.
  intros Hreach Hne Hc. pose proof (feed_wf_reachable L s Hreach) as Hwf.
  unfold feed_wf in Hwf. destruct (Feed.open_subject s) as [g|] eqn:Hopen.
  2: { now destruct Hwf. }
  destruct Hwf as (_ & Hfailed & _).
  assert (Hstep : Feed.step L s (Feed.Subscribe c)
                  = (Feed.with_consumers (Feed.consumers s ++ [c]) s, [])).
  { cbn [Feed.step]. rewrite Hfailed.
    rewrite (bool_decide_eq_false_2 _ Hc).
    now destruct (Feed.consumers s). }
  rewrite Hstep. cbn [fst snd]. split; [reflexivity|]. split; [reflexivity|].
  exists g. split; [reflexivity|].
  cbn [Feed.step Feed.with_consumers Feed.open_subject Feed.consumers].
  rewrite Hopen. now rewrite bool_decide_eq_true_2.
Qed.

(** X21. Unsubscribing is idempotent: a consumer that unsubscribes a second
    time changes nothing and asks the backend for nothing. *)
Theorem unsubscribe_is_idempotent s (c : nat) :
  Feed.step L (fst (Feed.step L s (Feed.Unsubscribe c))) (Feed.Unsubscribe c)
  = (fst (Feed.step L s (Feed.Unsubscribe c)), []).
Proof.
  assert (Hgone : c ∉ Feed.consumers (fst (Feed.step L s (Feed.Unsubscribe c)))).
  { cbn [Feed.step].
    destruct (bool_decide_reflect (c ∈ Feed.consumers s)) as [Hin|Hout];
      [|exact Hout].
    assert (Hrem : c ∉ List.remove Nat.eq_dec c (Feed.consumers s)).
    { rewrite list_elem_of_In. apply remove_In. }
    cbn. destruct (List.remove Nat.eq_dec c (Feed.consumers s)) eqn:E.
    - unfold Feed.teardown. cbn. destruct (Feed.unsub s); cbn;
        apply not_elem_of_nil.
    - exact Hrem. }
  set (s1 := fst (Feed.step L s (Feed.Unsubscribe c))) in *.
  cbn [Feed.step]. now rewrite (bool_decide_eq_false_2 _ Hgone).
Qed.

(** X22. A feed restarts on resubscription: after its last consumer has
    left, the next subscriber makes the feed register a new listener,
    not the one that was removed, and that one is then the only
    listener the backend holds. *)
Theorem resubscription_registers_a_new_listener s (c c' : nat) :
  Feed.reachable L s ->
  Feed.consumers s = [c] ->
  exists g g',
    Feed.listeners s = [g] /\ g' <> g /\
    snd (Feed.step L (fst (Feed.step L s (Feed.Unsubscribe c)))
           (Feed.Subscribe c')) = [Feed.OnSnapshot g'] /\
    Feed.listeners
      (fst (Feed.step L (fst (Feed.step L s (Feed.Unsubscribe c)))
              (Feed.Subscribe c'))) = [g'].
Proof.
  intros Hreach Hcons. pose proof (feed_wf_reachable L s Hreach) as Hwf.
  unfold feed_wf in Hwf. destruct (Feed.open_subject s) as [g|] eqn:Hopen.
  2: { destruct Hwf as [Hnil _]. congruence. }
  destruct Hwf as (_ & Hfailed & Hu & Hl & Hg).
  exists g, (Feed.subjects s).
  assert (Hstep : Feed.step L s (Feed.Unsubscribe c) =
            ({| Feed.consumers := []; Feed.failed := Feed.failed s;
                Feed.subjects := Feed.subjects s; Feed.open_subject := None;
                Feed.unsub := Some g; Feed.listeners := [] |},
             [Feed.Unsub g])).
  { cbn [Feed.step]. rewrite Hcons.
    rewrite bool_decide_eq_true_2 by apply list_elem_of_here.
    cbn. destruct (Nat.eq_dec c c); [|congruence]. cbn.
    unfold Feed.teardown. cbn. rewrite Hu, Hl. cbn.
    destruct (Nat.eq_dec g g); [reflexivity|congruence]. }
  rewrite Hstep. cbn [fst]. cbn [Feed.step Feed.failed Feed.consumers].
  rewrite Hfailed.
  rewrite bool_decide_eq_false_2 by apply not_elem_of_nil.
  cbn. split; [exact Hl|]. split; [lia|]. now split.
Qed.

(** X23. Where the listener has an [error] callback (the browser binding's
    [watch] and [watchAll]), an error of the open listener ends the feed:
    it is printed, the listener is removed, every consumer is given the
    error once, and whoever subscribes afterwards is given the same error
    at once, without a listener being registered. *)
Theorem listener_error_ends_the_feed print s (g : nat) (e : error) :
  Feed.on_error L = Some print ->
  Feed.reachable L s ->
  Feed.open_subject s = Some g ->
  snd (Feed.step L s (Feed.BackendError g e))
  = Feed.Console (print e) :: Feed.Unsub g
    :: map (fun c => Feed.EmitError c e) (Feed.consumers s) /\
  Feed.consumers (fst (Feed.step L s (Feed.BackendError g e))) = [] /\
  Feed.listeners (fst (Feed.step L s (Feed.BackendError g e))) = [] /\
  forall c',
    Feed.step L (fst (Feed.step L s (Feed.BackendError g e))) (Feed.Subscribe c')
    = (fst (Feed.step L s (Feed.BackendError g e)), [Feed.EmitError c' e]).
Proof.
  intros Hprint Hreach Hopen. pose proof (feed_wf_reachable L s Hreach) as Hwf.
  unfold feed_wf in Hwf. rewrite Hopen in Hwf.
  destruct Hwf as (_ & _ & Hu & Hl & _).
  assert (Hstep : Feed.step L s (Feed.BackendError g e) =
            ({| Feed.consumers := []; Feed.failed := Some e;
                Feed.subjects := Feed.subjects s; Feed.open_subject := None;
                Feed.unsub := Some g; Feed.listeners := [] |},
             Feed.Console (print e) :: Feed.Unsub g
             :: map (fun c => Feed.EmitError c e) (Feed.consumers s))).
  { cbn [Feed.step]. rewrite Hprint, Hopen.
    rewrite bool_decide_eq_true_2 by reflexivity.
    unfold Feed.teardown. rewrite Hu, Hl. cbn.
    destruct (Nat.eq_dec g g); [reflexivity|congruence]. }
  rewrite Hstep. cbn [fst snd]. repeat split.
Qed.

(** X24. Where the listener has no [error] callback (the server binding's
    feeds, and [watchForChanges] in both), the feed never errors: whatever
    the backend reports, no consumer is ever given an error and the feed
    goes on. *)
Theorem feed_without_error_callback_never_errors s (evs : list (Feed.event N)) :
  Feed.on_error L = None ->
  Feed.failed s = None ->
  Feed.failed (fst (Feed.run L s evs)) = None /\
  Forall (fun x => is_error_emission x = false) (snd (Feed.run L s evs)).
Proof.
  intros Hnone. revert s. induction evs as [|ev rest IH]; intros s Hs.
  - split; [exact Hs|constructor].
  - cbn [Feed.run].
    assert (Hstep : Feed.failed (fst (Feed.step L s ev)) = None /\
                    Forall (fun x => is_error_emission x = false)
                      (snd (Feed.step L s ev))).
    { destruct ev as [c|c|g n|g e]; cbn [Feed.step].
      - rewrite Hs. destruct (bool_decide _); [now split|].
        destruct (Feed.consumers s); cbn;
          (split; [exact Hs|repeat constructor]).
      - destruct (bool_decide _); [|now split]. cbn.
        destruct (List.remove _ _ _); [|now split].
        unfold Feed.teardown. cbn.
        destruct (Feed.unsub s); cbn; (split; [exact Hs|repeat constructor]).
      - destruct (bool_decide _); [|now split]. split; [exact Hs|].
        apply Forall_forall. intros x Hx.
        apply list_elem_of_fmap in Hx as (c & -> & _). reflexivity.
      - rewrite Hnone. now split. }
    destruct (Feed.step L s ev) as [s1 out1]. cbn [fst snd] in Hstep.
    destruct Hstep as [Hs1 Hout1]. destruct (IH s1 Hs1) as [Hs2 Hout2].
    destruct (Feed.run L s1 rest) as [s2 out2]. cbn [fst snd] in *.
    split; [exact Hs2|]. apply Forall_app. now split.
Qed.
End FeedMore.

Lemma one_listener_while_subscribed_witness :
  Feed.reachable (FbDataStore_watchAll (server_store permissive) "users")
    (fst (Feed.step (FbDataStore_watchAll (server_store permissive) "users")
            Feed.idle (Feed.Subscribe 1))) /\
  ((Feed.consumers
      (fst (Feed.step (FbDataStore_watchAll (server_store permissive) "users")
              Feed.idle (Feed.Subscribe 1))) = [] /\
    Feed.listeners
      (fst (Feed.step (FbDataStore_watchAll (server_store permissive) "users")
              Feed.idle (Feed.Subscribe 1))) = []) \/
   (Feed.consumers
      (fst (Feed.step (FbDataStore_watchAll (server_store permissive) "users")
              Feed.idle (Feed.Subscribe 1))) <> [] /\
    exists g,
      Feed.listeners
        (fst (Feed.step (FbDataStore_watchAll (server_store permissive) "users")
                Feed.idle (Feed.Subscribe 1))) = [g] /\
      Feed.unsub
        (fst (Feed.step (FbDataStore_watchAll (server_store permissive) "users")
                Feed.idle (Feed.Subscribe 1))) = Some g)).
Proof.
  assert (Hreach :
    Feed.reachable (FbDataStore_watchAll (server_store permissive) "users")
      (fst (Feed.step (FbDataStore_watchAll (server_store permissive) "users")
              Feed.idle (Feed.Subscribe 1)))).
  { apply Feed.reachable_step, Feed.reachable_idle. }
  split; [exact Hreach|].
  exact (one_listener_while_subscribed _ _ Hreach).
Defined.

Lemma later_subscribers_share_the_listener_witness :
  Feed.reachable (FbDataStore_watch (server_store permissive) "users/u1")
    (fst (Feed.step (FbDataStore_watch (server_store permissive) "users/u1")
            Feed.idle (Feed.Subscribe 1))) /\
  Feed.consumers
    (fst (Feed.step (FbDataStore_watch (server_store permissive) "users/u1")
            Feed.idle (Feed.Subscribe 1))) <> [] /\
  (2 ∉ Feed.consumers
         (fst (Feed.step (FbDataStore_watch (server_store permissive) "users/u1")
                 Feed.idle (Feed.Subscribe 1)))) /\
  exists g,
    Feed.open_subject
      (fst (Feed.step (FbDataStore_watch (server_store permissive) "users/u1")
              Feed.idle (Feed.Subscribe 1))) = Some g /\
    snd (Feed.step (FbDataStore_watch (server_store permissive) "users/u1")
           (fst (Feed.step (FbDataStore_watch (server_store permissive) "users/u1")
                   (fst (Feed.step
                           (FbDataStore_watch (server_store permissive) "users/u1")
                           Feed.idle (Feed.Subscribe 1)))
                   (Feed.Subscribe 2)))
           (Feed.BackendNext g
              {| snap_ref := DocRef "users/u1"; snap_data := Some record_A |}))
    = [Feed.Emit 1 (Some record_A); Feed.Emit 2 (Some record_A)].
Proof.
  assert (Hreach :
    Feed.reachable (FbDataStore_watch (server_store permissive) "users/u1")
      (fst (Feed.step (FbDataStore_watch (server_store permissive) "users/u1")
              Feed.idle (Feed.Subscribe 1)))).
  { apply Feed.reachable_step, Feed.reachable_idle. }
  assert (Hne : Feed.consumers
    (fst (Feed.step (FbDataStore_watch (server_store permissive) "users/u1")
            Feed.idle (Feed.Subscribe 1))) <> []) by discriminate.
  assert (Hnew : 2 ∉ Feed.consumers
    (fst (Feed.step (FbDataStore_watch (server_store permissive) "users/u1")
            Feed.idle (Feed.Subscribe 1)))).
  { apply not_elem_of_cons. split; [discriminate|apply not_elem_of_nil]. }
  split; [exact Hreach|]. split; [exact Hne|]. split; [exact Hnew|].
  exact (proj2 (proj2
    (later_subscribers_share_the_listener
       (FbDataStore_watch (server_store permissive) "users/u1") _ 2
       {| snap_ref := DocRef "users/u1"; snap_data := Some record_A |}
       Hreach Hne Hnew))).
Defined.

Lemma resubscription_registers_a_new_listener_witness :
  Feed.reachable (FbDataStore_watch (browser_store permissive) "users/u1")
    (fst (Feed.step (FbDataStore_watch (browser_store permissive) "users/u1")
            Feed.idle (Feed.Subscribe 1))) /\
  Feed.consumers
    (fst (Feed.step (FbDataStore_watch (browser_store permissive) "users/u1")
            Feed.idle (Feed.Subscribe 1))) = [1] /\
  exists g g',
    Feed.listeners
      (fst (Feed.step (FbDataStore_watch (browser_store permissive) "users/u1")
              Feed.idle (Feed.Subscribe 1))) = [g] /\
    g' <> g /\
    snd (Feed.step (FbDataStore_watch (browser_store permissive) "users/u1")
           (fst (Feed.step (FbDataStore_watch (browser_store permissive) "users/u1")
                   (fst (Feed.step
                           (FbDataStore_watch (browser_store permissive) "users/u1")
                           Feed.idle (Feed.Subscribe 1)))
                   (Feed.Unsubscribe 1)))
           (Feed.Subscribe 2)) = [Feed.OnSnapshot g'].
Proof.
  assert (Hreach :
    Feed.reachable (FbDataStore_watch (browser_store permissive) "users/u1")
      (fst (Feed.step (FbDataStore_watch (browser_store permissive) "users/u1")
              Feed.idle (Feed.Subscribe 1)))).
  { apply Feed.reachable_step, Feed.reachable_idle. }
  split; [exact Hreach|]. split; [reflexivity|].
  destruct (resubscription_registers_a_new_listener
              (FbDataStore_watch (browser_store permissive) "users/u1")
              _ 1 2 Hreach eq_refl) as (g & g' & Hl & Hne & Hout & _).
  exists g, g'. now repeat split.
Defined.

Lemma listener_error_ends_the_feed_witness :
  Feed.on_error (FbDataStore_watch (browser_store permissive) "users/u1")
  = Some (fun e =>
            printError_lines Browser e ("watch(" +:+ quoted "users/u1" +:+ ")")
              None) /\
  Feed.reachable (FbDataStore_watch (browser_store permissive) "users/u1")
    (fst (Feed.step (FbDataStore_watch (browser_store permissive) "users/u1")
            Feed.idle (Feed.Subscribe 1))) /\
  Feed.open_subject
    (fst (Feed.step (FbDataStore_watch (browser_store permissive) "users/u1")
            Feed.idle (Feed.Subscribe 1))) = Some 0 /\
  forall c',
    Feed.step (FbDataStore_watch (browser_store permissive) "users/u1")
      (fst (Feed.step (FbDataStore_watch (browser_store permissive) "users/u1")
              (fst (Feed.step
                      (FbDataStore_watch (browser_store permissive) "users/u1")
                      Feed.idle (Feed.Subscribe 1)))
              (Feed.BackendError 0 permission_denied)))
      (Feed.Subscribe c')
    = (fst (Feed.step (FbDataStore_watch (browser_store permissive) "users/u1")
              (fst (Feed.step
                      (FbDataStore_watch (browser_store permissive) "users/u1")
                      Feed.idle (Feed.Subscribe 1)))
              (Feed.BackendError 0 permission_denied)),
       [Feed.EmitError c' permission_denied]).
Proof.
  assert (Hreach :
    Feed.reachable (FbDataStore_watch (browser_store permissive) "users/u1")
      (fst (Feed.step (FbDataStore_watch (browser_store permissive) "users/u1")
              Feed.idle (Feed.Subscribe 1)))).
  { apply Feed.reachable_step, Feed.reachable_idle. }
  split; [reflexivity|]. split; [exact Hreach|]. split; [reflexivity|].
  exact (proj2 (proj2 (proj2
    (listener_error_ends_the_feed
       (FbDataStore_watch (browser_store permissive) "users/u1") _ _ 0
       permission_denied eq_refl Hreach eq_refl)))).
Defined.

Lemma feed_without_error_callback_never_errors_witness :
  Feed.on_error (FbDataStore_watchForChanges (browser_store permissive) "users")
  = None /\
  Feed.failed (@Feed.idle) = None /\
  Feed.failed
    (fst (Feed.run (FbDataStore_watchForChanges (browser_store permissive) "users")
            Feed.idle
            [Feed.Subscribe 1; Feed.BackendError 0 permission_denied;
             Feed.BackendNext 0 {| qs_docs := []; qs_docChanges := [] |}]))
  = None /\
  Forall (fun x => is_error_emission x = false)
    (snd (Feed.run (FbDataStore_watchForChanges (browser_store permissive) "users")
            Feed.idle
            [Feed.Subscribe 1; Feed.BackendError 0 permission_denied;
             Feed.BackendNext 0 {| qs_docs := []; qs_docChanges := [] |}])).
Proof.
  split; [reflexivity|]. split; [reflexivity|].
  apply (feed_without_error_callback_never_errors
           (FbDataStore_watchForChanges (browser_store permissive) "users"));
    reflexivity.
Defined.




(** ** [listAll] *)

Lemma FbDataStore_listAll_sets_id_witness :
  FbDataStore_listAll (browser_store permissive) "users" None
    (new_world heap_A docs_u1)
  = (Resolved [<["id" := VStr "u1"]> record_A],
     snd (FbDataStore_listAll (browser_store permissive) "users" None
            (new_world heap_A docs_u1))) /\
  Forall2 (fun (d : doc) x => d !! "id" = Some (VStr (qd_id x)))
    [<["id" := VStr "u1"]> record_A]
    (run_query (firestore (browser_store permissive))
       (listAll_query (flavour (browser_store permissive)) "users" None)
       (docs (new_world heap_A docs_u1))).
Proof.
  assert (H :
    FbDataStore_listAll (browser_store permissive) "users" None
      (new_world heap_A docs_u1)
    = (Resolved [<["id" := VStr "u1"]> record_A],
       snd (FbDataStore_listAll (browser_store permissive) "users" None
              (new_world heap_A docs_u1)))).
  { vm_compute. reflexivity. }
  split; [exact H|].
  exact (FbDataStore_listAll_sets_id _ _ _ _ _ _ H).
Defined.
